(** * Unreal Engine code analyzer: a shallow embedding of [src/analyzer.ts]

    The analyzer is a TypeScript class ([UnrealCodeAnalyzer]) that answers
    structural queries over a C++ tree using line-oriented regular
    expressions.  This development embeds

    - the JavaScript string primitives the analyzer calls ([split], [trim],
      [includes], [startsWith], [indexOf], [toLowerCase], [join], [slice]);
    - a backtracking matcher with the priorities of the JavaScript regular
      expression semantics (greedy quantifiers, ordered alternation, capture
      groups, [^], [$], [\b]), and the regular expressions of the analyzer
      written as abstract syntax;
    - the analyzer object as explicit state (two roots, two caches, the
      [initialized] flag) threaded through a small state/exception monad
      that also records every file-system call;
    - the file system and the [glob] package as an explicit record of
      functions ([FileSystem]).

    Modelling conventions.  A JavaScript string is a [string] of 8-bit
    characters; characters above 127 are neither white space nor word
    characters and have no case, so white space, trimming and case are
    those of JavaScript on ASCII text ([Js.isAscii]), and the statements
    about them carry that hypothesis.  A class name or identifier spliced
    into a regular expression source is matched literally; the two
    coincide for names made of word characters ([Js.isWord]), and the
    statements that depend on it carry that hypothesis.  [path.join] is
    the POSIX one, with its normalisation.  A user supplied regular
    expression (the [query] of [searchCode]) is given as abstract
    syntax. *)

From Stdlib Require Import Ascii String ZArith Lia.
From stdpp Require Import base option list gmap strings.

Local Open Scope Z_scope.
Local Open Scope nat_scope.

(** ** Characters *)

Module Chr.

Definition code (c : ascii) : nat := nat_of_ascii c.

Definition between (lo hi : nat) (c : ascii) : bool :=
  (lo <=? code c) && (code c <=? hi).

Definition is_upper : ascii → bool := between 65 90.
Definition is_lower : ascii → bool := between 97 122.
Definition is_digit : ascii → bool := between 48 57.

(** [\w]: letters, digits and the underscore. *)
Definition is_word (c : ascii) : bool :=
  is_upper c || is_lower c || is_digit c || (code c =? 95).

(** [\s] and the characters removed by [trim]: TAB, LF, VT, FF, CR, SP. *)
Definition is_space (c : ascii) : bool :=
  between 9 13 c || (code c =? 32).

(** Line terminators: the characters [.] refuses and after which a
    multi-line [^] matches. *)
Definition is_newline (c : ascii) : bool :=
  (code c =? 10) || (code c =? 13).

(** The characters of ASCII. *)
Definition is_ascii (c : ascii) : bool := code c <? 128.

Definition eqb (a b : ascii) : bool := Ascii.eqb a b.

Definition to_lower (c : ascii) : ascii :=
  if is_upper c then ascii_of_nat (code c + 32) else c.

Definition to_upper (c : ascii) : ascii :=
  if is_lower c then ascii_of_nat (code c - 32) else c.

(** Equality under the [i] flag: both sides are canonicalised to upper
    case. *)
Definition eqb_ci (a b : ascii) : bool := eqb (to_upper a) (to_upper b).

End Chr.

(** ** JavaScript string primitives *)

Module Js.

Definition chars (s : string) : list ascii := list_ascii_of_string s.
Definition str (l : list ascii) : string := string_of_list_ascii l.

(** [s.startsWith(p)] *)
Fixpoint startsWith (s p : string) : bool :=
  match p, s with
  | EmptyString, _ => true
  | String a p', String b s' => Chr.eqb a b && startsWith s' p'
  | String _ _, EmptyString => false
  end.

(** [s.includes(t)] *)
Fixpoint includes (s t : string) : bool :=
  startsWith s t ||
  match s with
  | EmptyString => false
  | String _ s' => includes s' t
  end.

(** [s.indexOf(t)]: the first index at which [t] occurs, or -1. *)
Fixpoint indexOf_from (i : nat) (s t : string) : Z :=
  if startsWith s t then Z.of_nat i
  else match s with
       | EmptyString => (-1)%Z
       | String _ s' => indexOf_from (S i) s' t
       end.

Definition indexOf (s t : string) : Z := indexOf_from 0 s t.

(** [s.toLowerCase()] *)
Fixpoint toLowerCase (s : string) : string :=
  match s with
  | EmptyString => EmptyString
  | String c s' => String (Chr.to_lower c) (toLowerCase s')
  end.

(** [s.trim()] *)
Fixpoint trimStart (l : list ascii) : list ascii :=
  match l with
  | c :: l' => if Chr.is_space c then trimStart l' else l
  | [] => []
  end.

Definition trim (s : string) : string :=
  str (rev (trimStart (rev (trimStart (chars s))))).

(** [s.split(sep)] for a one-character separator: the pieces between the
    separators, so that the empty string gives one empty piece. *)
Fixpoint split_chars (sep : ascii) (cur : list ascii) (l : list ascii)
  : list string :=
  match l with
  | [] => [str (rev cur)]
  | c :: l' =>
      if Chr.eqb c sep then str (rev cur) :: split_chars sep [] l'
      else split_chars sep (c :: cur) l'
  end.

Definition split (sep : ascii) (s : string) : list string :=
  split_chars sep [] (chars s).

(** [parts.join(sep)] *)
Fixpoint join (sep : string) (parts : list string) : string :=
  match parts with
  | [] => EmptyString
  | [p] => p
  | p :: rest => p +:+ sep +:+ join sep rest
  end.

(** [a.slice(from, to)] on arrays, for indices that are not negative. *)
Definition slice {A} (from to : nat) (l : list A) : list A :=
  take (to - from) (drop from l).

(** Truthiness of a value that is a string or [null]. *)
Definition truthy (o : option string) : bool :=
  match o with
  | Some EmptyString | None => false
  | Some _ => true
  end.

(** ASCII text. *)
Definition isAscii (s : string) : bool := forallb Chr.is_ascii (chars s).

(** A name made of word characters: spliced into the source of a regular
    expression it stands for itself. *)
Definition isWord (s : string) : bool := forallb Chr.is_word (chars s).

(** [[...new Set(l)]]: the first occurrence of every element, in order. *)
Fixpoint dedup_from (seen : list string) (l : list string) : list string :=
  match l with
  | [] => []
  | x :: l' =>
      if bool_decide (x ∈ seen) then dedup_from seen l'
      else x :: dedup_from (x :: seen) l'
  end.

Definition dedup (l : list string) : list string := dedup_from [] l.

End Js.

Definition LF : ascii := ascii_of_nat 10.
Definition NL : string := String LF EmptyString.

(** ** Regular expressions *)

Module Regex.

(** Abstract syntax.  Character tests are predicates, so that classes,
    negated classes and case-insensitive literals are all [Chr p]. *)
Inductive regex : Type :=
| Eps                                  (* the empty pattern *)
| Chr (p : ascii → bool)               (* one character satisfying [p] *)
| Seq (r1 r2 : regex)                  (* r1 r2 *)
| Alt (r1 r2 : regex)                  (* r1|r2, left first *)
| Star (r : regex)                     (* r*, greedy *)
| Group (n : nat) (r : regex)          (* the n-th capture group *)
| Bol (multiline : bool)               (* ^ *)
| Eol                                  (* $ without the m flag *)
| WordB.                               (* \b *)

Definition Plus (r : regex) : regex := Seq r (Star r).
Definition Opt (r : regex) : regex := Alt r Eps.

Fixpoint seqs (rs : list regex) : regex :=
  match rs with
  | [] => Eps
  | [r] => r
  | r :: rs' => Seq r (seqs rs')
  end.

(** A literal, with or without the [i] flag. *)
Fixpoint lit_chars (ci : bool) (l : list ascii) : regex :=
  match l with
  | [] => Eps
  | c :: l' =>
      Seq (Chr (fun x => if ci then Chr.eqb_ci c x else Chr.eqb c x))
          (lit_chars ci l')
  end.

Definition lit (ci : bool) (s : string) : regex := lit_chars ci (Js.chars s).

Definition ws : regex := Chr Chr.is_space.               (* \s *)
Definition word : regex := Chr Chr.is_word.              (* \w *)
Definition dot : regex := Chr (fun c => negb (Chr.is_newline c)).  (* . *)
Definition one (c : ascii) : regex := Chr (Chr.eqb c).
Definition none_of (c : ascii) : regex :=                (* [^c] *)
  Chr (fun x => negb (Chr.eqb c x)).

(** The position in the subject: the characters already consumed (last
    one first) and the characters still to read. *)
Record cursor : Type := Cursor { before : list ascii; after : list ascii }.

Definition caps : Type := list (nat * string).

Definition captured (from to : cursor) : string :=
  Js.str (take (length (after from) - length (after to)) (after from)).

Definition at_word (l : list ascii) : bool :=
  match l with
  | c :: _ => Chr.is_word c
  | [] => false
  end.

(** Backtracking matcher in continuation-passing style: [run r z c k]
    matches [r] at [z] and hands the position reached to [k]; when [k]
    refuses, the next alternative of [r] is tried.  An iteration of a
    star that consumes nothing is refused, as in JavaScript, so the fuel
    of the inner loop (one more than the characters left) never runs
    out. *)
Fixpoint run {R : Type} (r : regex) (z : cursor) (c : caps)
    (k : cursor → caps → option R) {struct r} : option R :=
  match r with
  | Eps => k z c
  | Chr p =>
      match after z with
      | a :: rest => if p a then k (Cursor (a :: before z) rest) c else None
      | [] => None
      end
  | Seq r1 r2 => run r1 z c (fun z' c' => run r2 z' c' k)
  | Alt r1 r2 =>
      match run r1 z c k with
      | Some x => Some x
      | None => run r2 z c k
      end
  | Star r1 =>
      (fix loop (fuel : nat) (z : cursor) (c : caps) {struct fuel} : option R :=
         match fuel with
         | O => k z c
         | S fuel' =>
             match run r1 z c (fun z' c' =>
                     if length (after z') <? length (after z)
                     then loop fuel' z' c' else None) with
             | Some x => Some x
             | None => k z c
             end
         end) (S (length (after z))) z c
  | Group n r1 => run r1 z c (fun z' c' => k z' ((n, captured z z') :: c'))
  | Bol multiline =>
      match before z with
      | [] => k z c
      | p :: _ => if multiline && Chr.is_newline p then k z c else None
      end
  | Eol => match after z with [] => k z c | _ :: _ => None end
  | WordB =>
      if xorb (at_word (before z)) (at_word (after z)) then k z c else None
  end.

(** A match: where it starts, where it ends, what the groups captured. *)
Record found : Type :=
  Found { m_index : nat; m_end : cursor; m_caps : caps }.

Definition match_at (r : regex) (z : cursor) : option found :=
  run r z [] (fun z' c' => Some (Found (length (before z)) z' c')).

(** The leftmost match at or after [z]. *)
Fixpoint search_from (r : regex) (bef aft : list ascii) : option found :=
  match match_at r (Cursor bef aft) with
  | Some m => Some m
  | None =>
      match aft with
      | [] => None
      | a :: aft' => search_from r (a :: bef) aft'
      end
  end.

(** [r.exec(s)] with [lastIndex = 0]. *)
Definition exec (r : regex) (s : string) : option found :=
  search_from r [] (Js.chars s).

(** [r.test(s)] with [lastIndex = 0]. *)
Definition test (r : regex) (s : string) : bool :=
  match exec r s with Some _ => true | None => false end.

(** [s.search(r)] *)
Definition search (r : regex) (s : string) : Z :=
  match exec r s with
  | Some m => Z.of_nat (m_index m)
  | None => (-1)%Z
  end.

(** [match[n]], [undefined] being [None]. *)
Fixpoint group (n : nat) (c : caps) : option string :=
  match c with
  | [] => None
  | (m, s) :: c' => if m =? n then Some s else group n c'
  end.

(** [match[n] || ''] *)
Definition group_or_empty (n : nat) (c : caps) : string :=
  match group n c with Some s => s | None => EmptyString end.

(** [s.replace(r, '')] for a pattern without the [g] flag. *)
Definition remove_first (r : regex) (s : string) : string :=
  match exec r s with
  | Some m => Js.str (take (m_index m) (Js.chars s) ++ after (m_end m))
  | None => s
  end.

(** All the matches of a [g] pattern, as the loop
    [while ((m = r.exec(s)) !== null)] sees them: each search starts
    where the previous match ended.  The patterns used this way cannot
    match the empty string, so every round consumes a character and the
    fuel (the length of the subject) is enough. *)
Fixpoint exec_all_from (fuel : nat) (r : regex) (bef aft : list ascii)
  : list found :=
  match fuel with
  | O => []
  | S fuel' =>
      match search_from r bef aft with
      | None => []
      | Some m =>
          m :: exec_all_from fuel' r (before (m_end m)) (after (m_end m))
      end
  end.

Definition exec_all (r : regex) (s : string) : list found :=
  exec_all_from (String.length s) r [] (Js.chars s).

End Regex.

(** ** Data model (the interfaces of [analyzer.ts]) *)

Inductive visibility : Type := Public | Protected | Private.

Record ParameterInfo : Type := {
  paramName : string;
  paramType : string;
  defaultValue : option string;
}.

Record MethodInfo : Type := {
  methodName : string;
  returnType : string;
  parameters : list ParameterInfo;
  isVirtual : bool;
  isOverride : bool;
  methodVisibility : visibility;
  methodComments : list string;
  methodLine : nat;
}.

Record PropertyInfo : Type := {
  propName : string;
  propType : string;
  propVisibility : visibility;
  propComments : list string;
  propLine : nat;
}.

Record ClassInfo : Type := {
  name : string;
  file : string;
  line : nat;
  superclasses : list string;
  interfaces : list string;
  methods : list MethodInfo;
  properties : list PropertyInfo;
  comments : list string;
}.

Record CodeReference : Type := {
  refFile : string;
  refLine : nat;
  refColumn : Z;
  context : string;
}.

#[warnings="-register-all"]
Inductive ClassHierarchy : Type :=
  Hierarchy (className : string) (supers : list ClassHierarchy)
            (ifaces : list string).

Definition hierarchyName (h : ClassHierarchy) : string :=
  let '(Hierarchy n _ _) := h in n.
Definition hierarchySuperclasses (h : ClassHierarchy) : list ClassHierarchy :=
  let '(Hierarchy _ s _) := h in s.
Definition hierarchyInterfaces (h : ClassHierarchy) : list string :=
  let '(Hierarchy _ _ i) := h in i.

Record SubsystemInfo : Type := {
  subsystemName : string;
  mainClasses : list string;
  keyFeatures : list string;
  dependencies : list string;
  sourceFiles : list string;
}.

Record ApiReference : Type := {
  apiClassName : string;
  description : string;
  syntax : string;
  examples : list string;
  remarks : list string;
  relatedClasses : list string;
  category : string;
  module : string;
  version : string;
}.

(** The [type] hint of [findReferences]. *)
Inductive SymbolKind : Type := KClass | KFunction | KVariable.

(** ** The file system and the [glob] package

    [fs_exists] is [fs.existsSync]; [fs_read] is [fs.readFileSync(_, 'utf8')],
    [None] when it throws; [fs_glob pattern cwd ignore] is
    [glob(pattern, {cwd, absolute: true, ignore})], the absolute paths in
    the order the package enumerates them. *)

Record FileSystem : Type := {
  fs_exists : string → bool;
  fs_read : string → option string;
  fs_glob : string → string → list string → list string;
}.

Inductive FsEvent : Type :=
| EvExists (path : string)
| EvRead (path : string)
| EvGlob (pattern cwd : string).

(** [path.join] of Node on POSIX.  [normalizeSegments] is the loop of
    [normalizeString] over the segments between the slashes: empty and [.]
    segments are dropped, [..] removes the segment before it (or is kept,
    above the start of a relative path); [kept] holds the segments so far,
    last one first. *)
Fixpoint normalizeSegments (allowAboveRoot : bool) (kept segments : list string)
  : list string :=
  match segments with
  | [] => rev kept
  | s :: rest =>
      if String.eqb s EmptyString || String.eqb s "." then
        normalizeSegments allowAboveRoot kept rest
      else if String.eqb s ".." then
        match kept with
        | top :: kept' =>
            if String.eqb top ".."
            then normalizeSegments allowAboveRoot
                   (if allowAboveRoot then s :: kept else kept) rest
            else normalizeSegments allowAboveRoot kept' rest
        | [] =>
            normalizeSegments allowAboveRoot
              (if allowAboveRoot then [s] else []) rest
        end
      else normalizeSegments allowAboveRoot (s :: kept) rest
  end.

(** [path.normalize(p)] *)
Definition path_normalize (p : string) : string :=
  match p with
  | EmptyString => "."
  | _ =>
      let isAbsolute := Js.startsWith p "/" in
      let trailingSeparator :=
        match rev (Js.chars p) with
        | c :: _ => Chr.eqb c "/"
        | [] => false
        end in
      let path :=
        Js.join "/" (normalizeSegments (negb isAbsolute) []
                       (Js.split "/" p)) in
      match path with
      | EmptyString =>
          if isAbsolute then "/" else if trailingSeparator then "./" else "."
      | _ =>
          let path := if trailingSeparator then path +:+ "/" else path in
          if isAbsolute then "/" +:+ path else path
      end
  end.

(** [path.join(a, b)]: the arguments that are not empty, joined by a slash
    and normalised. *)
Definition path_join (a b : string) : string :=
  match a, b with
  | EmptyString, EmptyString => "."
  | EmptyString, _ => path_normalize b
  | _, EmptyString => path_normalize a
  | _, _ => path_normalize (a +:+ "/" +:+ b)
  end.

(** ** The analyzer object and its monad *)

(** The messages of the [Error]s the analyzer throws. *)
Inductive error : Type :=
| InvalidEnginePathMissing      (* Invalid Unreal Engine path: Directory does not exist *)
| InvalidEnginePathLayout       (* ... Neither Engine nor Source directory found *)
| InvalidCustomPath             (* Invalid custom codebase path: ... *)
| NotInitialized                (* Analyzer not initialized *)
| NoSearchPath                  (* No valid search path configured *)
| ClassNotFound (cls : string)  (* Class not found: ... *)
| EnginePathNotConfigured       (* Unreal Engine path not configured *)
| UnknownSubsystem (s : string) (* Unknown subsystem: ... *)
| SubsystemDirNotFound (p : string) (* Subsystem directory not found: ... *)
| PathArgumentNotString (key : string) (* the TypeError of path.join *)
| ReadFailed (p : string).      (* the exception of readFileSync *)

Record Analyzer : Type := {
  unrealPath : option string;
  customPath : option string;
  classCache : gmap string ClassInfo;
  apiCache : gmap string ApiReference;
  initialized : bool;
}.

(** [new UnrealCodeAnalyzer()] *)
Definition newAnalyzer : Analyzer := {|
  unrealPath := None;
  customPath := None;
  classCache := ∅;
  apiCache := ∅;
  initialized := false;
|}.

Definition MAX_CACHE_SIZE : Z := 50000%Z.

(** The outcome of a call: a value, a thrown error, or no answer within
    the fuel given to a recursion that the source does not bound. *)
Inductive res (A : Type) : Type :=
| Ok (a : A)
| Err (e : error)
| Diverge.
Arguments Ok {A} a.
Arguments Err {A} e.
Arguments Diverge {A}.

(** A computation reads and updates the analyzer and logs its file-system
    calls, oldest first. *)
Definition M (A : Type) : Type := Analyzer → res A * Analyzer * list FsEvent.

Definition ret {A} (a : A) : M A := fun st => (Ok a, st, []).

Definition throw {A} (e : error) : M A := fun st => (Err e, st, []).

Definition diverge {A} : M A := fun st => (Diverge, st, []).

Definition bind {A B} (m : M A) (f : A → M B) : M B :=
  fun st =>
    match m st with
    | (Ok a, st1, t1) => let '(r, st2, t2) := f a st1 in (r, st2, t1 ++ t2)
    | (Err e, st1, t1) => (Err e, st1, t1)
    | (Diverge, st1, t1) => (Diverge, st1, t1)
    end.

(** [try { m } catch (error) { h }]: what [m] had done before throwing
    stays done. *)
Definition try_catch {A} (m : M A) (h : error → M A) : M A :=
  fun st =>
    match m st with
    | (Err e, st1, t1) => let '(r, st2, t2) := h e st1 in (r, st2, t1 ++ t2)
    | other => other
    end.

Definition get : M Analyzer := fun st => (Ok st, st, []).
Definition put (st' : Analyzer) : M unit := fun _ => (Ok tt, st', []).
Definition emit (e : FsEvent) : M unit := fun st => (Ok tt, st, [e]).

Declare Scope analyzer_scope.
Delimit Scope analyzer_scope with an.
Notation "'let*' x ':=' m 'in' k" := (bind m (fun x => k))
  (at level 10, x name, m at level 100, k at level 200) : analyzer_scope.
Local Open Scope analyzer_scope.

Definition result {A} (o : res A * Analyzer * list FsEvent) : res A := o.1.1.
Definition final {A} (o : res A * Analyzer * list FsEvent) : Analyzer := o.1.2.
Definition trace {A} (o : res A * Analyzer * list FsEvent) : list FsEvent := o.2.
Arguments result {A} !o /.
Arguments final {A} !o /.
Arguments trace {A} !o /.

Definition set_classCache (c : gmap string ClassInfo) (st : Analyzer) : Analyzer :=
  {| unrealPath := unrealPath st; customPath := customPath st;
     classCache := c; apiCache := apiCache st; initialized := initialized st |}.

Definition set_apiCache (c : gmap string ApiReference) (st : Analyzer) : Analyzer :=
  {| unrealPath := unrealPath st; customPath := customPath st;
     classCache := classCache st; apiCache := c; initialized := initialized st |}.

(** File-system calls, logged. *)
Section FileSystemCalls.
Variable fs : FileSystem.

Definition existsSync (p : string) : M bool :=
  fun st => (Ok (fs_exists fs p), st, [EvExists p]).

Definition readFileSync (p : string) : M string :=
  fun st =>
    match fs_read fs p with
    | Some content => (Ok content, st, [EvRead p])
    | None => (Err (ReadFailed p), st, [EvRead p])
    end.

Definition glob (pattern cwd : string) (ignore : list string)
  : M (list string) :=
  fun st => (Ok (fs_glob fs pattern cwd ignore), st, [EvGlob pattern cwd]).
End FileSystemCalls.

(** ** The regular expressions of the analyzer *)

Module Patterns.
Import Regex.

Definition apiMacro (ci : bool) : regex :=           (* (?:\w+_API\s+)? *)
  Opt (seqs [Plus word; lit ci "_API"; Plus ws]).

Definition macroCall (name : string) (ci : bool) : regex :=
  (* NAME, white space, a parenthesised argument list without ")" *)
  seqs [lit ci name; Star ws; one "("; Star (none_of ")"); one ")"].

(** The class definition line of extractClassInfoWithRegex, [i] flag:
    start of line, white space, an optional UCLASS(...) prefix, [class],
    an optional export macro, the name, an optional [final] and an
    optional [: bases] whose bases are group 1. *)
Definition classDefLine (className : string) : regex :=
  seqs [Bol false; Star ws;
        Opt (Seq (macroCall "UCLASS" true) (Star ws));
        lit true "class"; Plus ws; apiMacro true;
        lit true className; Star ws; Opt (lit true "final"); Star ws;
        Opt (seqs [one ":"; Star ws; Group 1 (Plus dot)])].

(** [\bclass\s+(?:\w+_API\s+)?NAME\s*(?:final)?\s*(?::|{)] with the [i]
    flag (analyzeClass). *)
Definition classDefAnywhere (className : string) : regex :=
  seqs [WordB; lit true "class"; Plus ws; apiMacro true;
        lit true className; Star ws; Opt (lit true "final"); Star ws;
        Alt (one ":") (one "{")].

(** [\s*\{.*$] *)
Definition braceTail : regex := seqs [Star ws; one "{"; Star dot; Eol].

(** [(?:public|private|protected)\s+(\w+)] *)
Definition baseSpecifier : regex :=
  seqs [Alt (lit false "public") (Alt (lit false "private") (lit false "protected"));
        Plus ws; Group 1 (Plus word)].

(** A type: a word, optional template arguments, an optional pointer or
    reference mark. *)
Definition typeToken (n : nat) : regex :=
  Group n (seqs [Plus word;
                 Opt (seqs [one "<"; Plus (none_of ">"); one ">"]);
                 Opt (Seq (Star ws) (Alt (one "*") (one "&")))]).

(** The method signature pattern of extractClassInfoWithRegex. *)
Definition methodSignature : regex :=
  seqs [Bol false; Star ws;
        Opt (Seq (macroCall "UFUNCTION" false) (Star ws));
        Opt (Seq (lit false "virtual") (Plus ws));
        Opt (Seq (lit false "static") (Plus ws));
        apiMacro false;
        typeToken 1; Plus ws; Group 2 (Plus word); Star ws;
        one "("; Star (none_of ")"); one ")"; Star ws;
        Opt (lit false "const"); Star ws; Opt (lit false "override")].

(** The UPROPERTY pattern, [gm] flags: the macro call, at most one line
    break, a type (group 1) and a name (group 2). *)
Definition propertyDecl : regex :=
  seqs [Bol true; Star ws; macroCall "UPROPERTY" false; Star ws;
        Opt (one LF); Star ws; typeToken 1; Plus ws; Group 2 (Plus word)].

(** [\bIDENT\b] (findReferences; the [g] flag only moves [lastIndex],
    which the loop resets before every test). *)
Definition wholeWord (identifier : string) : regex :=
  seqs [WordB; lit false identifier; WordB].

(** [\bclass\s+(?:\w+_API\s+)?(\w+)\s*(?:final)?\s*:] with the [g] flag
    (analyzeSubsystem). *)
Definition anyClassWithBases : regex :=
  seqs [WordB; lit false "class"; Plus ws; apiMacro false;
        Group 1 (Plus word); Star ws; Opt (lit false "final"); Star ws;
        one ":"].

End Patterns.

(** ** Class extraction (extractClassInfoWithRegex) *)

(** The loop that looks for the class definition line: the first line the
    pattern matches, its 1-based number and [match[1] || '']. *)
Fixpoint findClassLine (pat : Regex.regex) (lines : list string) (i : nat)
  : option (nat * string) :=
  match lines with
  | [] => None
  | l :: rest =>
      match Regex.exec pat l with
      | Some m => Some (S i, Regex.group_or_empty 1 (Regex.m_caps m))
      | None => findClassLine pat rest (S i)
      end
  end.

(** The test that sends a base name to [interfaces]. *)
Definition isInterfaceName (baseName : string) : bool :=
  Js.startsWith baseName "I" && negb (String.eqb baseName "IInterface")
  && negb (Js.startsWith baseName "Int").

(** [baseMatch[1]] of one entry of the inheritance list. *)
Definition baseNameOf (baseClass : string) : option string :=
  match Regex.exec Patterns.baseSpecifier baseClass with
  | Some m => Regex.group 1 (Regex.m_caps m)
  | None => None
  end.

(** The loop over the entries, pushing to one of the two arrays. *)
Fixpoint classifyBases (baseClasses : list string)
    (supers ifaces : list string) : list string * list string :=
  match baseClasses with
  | [] => (supers, ifaces)
  | baseClass :: rest =>
      match baseNameOf baseClass with
      | Some baseName =>
          if isInterfaceName baseName
          then classifyBases rest supers (ifaces ++ [baseName])
          else classifyBases rest (supers ++ [baseName]) ifaces
      | None => classifyBases rest supers ifaces
      end
  end.

(** The entries of an inheritance clause, cleaned and split. *)
Definition baseClassEntries (inheritancePart : string) : list string :=
  let cleaned := Js.trim (Regex.remove_first Patterns.braceTail inheritancePart) in
  match cleaned with
  | EmptyString => []
  | _ => map Js.trim (Js.split "," cleaned)
  end.

(** Superclasses and interfaces of an inheritance clause. *)
Definition parseInheritance (inheritancePart : string)
  : list string * list string :=
  classifyBases (baseClassEntries inheritancePart) [] [].

Definition skipsMethodScan (l : string) : bool :=
  Js.includes l "DECLARE_" || Js.includes l "typedef" || Js.includes l "#define".

Fixpoint scanMethods (lines : list string) (i : nat) : list MethodInfo :=
  match lines with
  | [] => []
  | l :: rest =>
      if skipsMethodScan l then scanMethods rest (S i)
      else match Regex.exec Patterns.methodSignature l with
           | Some m =>
               {| methodName := Regex.group_or_empty 2 (Regex.m_caps m);
                  returnType := Regex.group_or_empty 1 (Regex.m_caps m);
                  parameters := [];
                  isVirtual := Js.includes l "virtual";
                  isOverride := Js.includes l "override";
                  methodVisibility := Public;
                  methodComments := [];
                  methodLine := S i |} :: scanMethods rest (S i)
           | None => scanMethods rest (S i)
           end
  end.

(** [content.substring(0, index).split('\n').length] *)
Definition lineOfIndex (content : string) (index : nat) : nat :=
  length (Js.split LF (Js.str (take index (Js.chars content)))).

Definition scanProperties (content : string) : list PropertyInfo :=
  map (fun m =>
         {| propName := Regex.group_or_empty 2 (Regex.m_caps m);
            propType := Regex.group_or_empty 1 (Regex.m_caps m);
            propVisibility := Public;
            propComments := [];
            propLine := lineOfIndex content (Regex.m_index m) |})
      (Regex.exec_all Patterns.propertyDecl content).

(** The body of the [try] block, on the text of the file. *)
Definition extractFromContent (filePath className content : string)
  : option ClassInfo :=
  let lines := Js.split LF content in
  match findClassLine (Patterns.classDefLine className) lines 0 with
  | None => None
  | Some (classLine, inheritancePart) =>
      let '(supers, ifaces) := parseInheritance inheritancePart in
      Some {| name := className;
              file := filePath;
              line := classLine;
              superclasses := supers;
              interfaces := ifaces;
              methods := take 100 (scanMethods lines 0);
              properties := take 100 (scanProperties content);
              comments := [] |}
  end.

Definition extractClassInfoWithRegex (fs : FileSystem)
    (filePath className : string) : M (option ClassInfo) :=
  try_catch
    (let* content := readFileSync fs filePath in
     ret (extractFromContent filePath className content))
    (fun _ => ret None).

(** The declaration line of the first testable property of the
    specification. *)
Definition fooLine : string :=
  "class ENGINE_API AFoo final : public AActor, public IInterfaceX".

(** ** Configuration (initialize, initializeCustomCodebase) *)

Section Analyzer.
Variable fs : FileSystem.

Definition initialize (enginePath : string) : M unit :=
  let* here := existsSync fs enginePath in
  if negb here then throw InvalidEnginePathMissing
  else
    let* hasEngineDir := existsSync fs (path_join enginePath "Engine") in
    let* hasSourceDir := existsSync fs (path_join enginePath "Source") in
    if negb hasEngineDir && negb hasSourceDir then throw InvalidEnginePathLayout
    else
      let* st := get in
      put {| unrealPath := Some enginePath; customPath := customPath st;
             classCache := classCache st; apiCache := apiCache st;
             initialized := true |}.

Definition initializeCustomCodebase (path : string) : M unit :=
  let* here := existsSync fs path in
  if negb here then throw InvalidCustomPath
  else
    let* st := get in
    put {| unrealPath := unrealPath st; customPath := Some path;
           classCache := classCache st; apiCache := apiCache st;
           initialized := true |}.

(** ** Class resolution (analyzeClass) *)

(** The directories of [dirs] that exist, in order. *)
Fixpoint existingDirs (dirs : list string) : M (list string) :=
  match dirs with
  | [] => ret []
  | dir :: rest =>
      let* here := existsSync fs dir in
      let* others := existingDirs rest in
      ret (if here then dir :: others else others)
  end.

Definition ueDirs (root : string) : list string :=
  [path_join root "Engine/Source/Runtime";
   path_join root "Engine/Source/Editor";
   path_join root "Source/Runtime";
   path_join root "Source";
   root].

(** The list of paths to search, custom root first. *)
Definition classSearchPaths : M (list string) :=
  let* st := get in
  let custom :=
    match customPath st with
    | Some p => if Js.truthy (Some p) then [p] else []
    | None => []
    end in
  match unrealPath st with
  | Some root =>
      if Js.truthy (Some root)
      then let* dirs := existingDirs (ueDirs root) in ret (custom ++ dirs)
      else ret custom
  | None => ret custom
  end.

(** [this.classCache.set(className, classInfo)] *)
Definition cacheClass (className : string) (classInfo : ClassInfo) : M unit :=
  let* st := get in
  put (set_classCache (<[className := classInfo]> (classCache st)) st).

(** The loop over the files of one search path; [Some] is the [return]
    inside the loop. *)
Fixpoint scanFiles (className : string) (files : list string)
  : M (option ClassInfo) :=
  match files with
  | [] => ret None
  | file :: rest =>
      let* hit :=
        try_catch
          (let* content := readFileSync fs file in
           if Regex.test (Patterns.classDefAnywhere className) content
           then
             let* classInfo := extractClassInfoWithRegex fs file className in
             match classInfo with
             | Some info =>
                 let* _ := cacheClass className info in ret (Some info)
             | None => ret None
             end
           else ret None)
          (fun _ => ret None) in
      match hit with
      | Some info => ret (Some info)
      | None => scanFiles className rest
      end
  end.

Definition headerGlob : string := "**/*.h".
Definition headerIgnore : list string :=
  ["**/*.generated.h"; "**/Intermediate/**"].

(** The loop over the search paths. *)
Fixpoint scanSearchPaths (className : string) (paths : list string)
  : M (option ClassInfo) :=
  match paths with
  | [] => ret None
  | searchPath :: rest =>
      let* files := glob fs headerGlob searchPath headerIgnore in
      let* hit := scanFiles className files in
      match hit with
      | Some info => ret (Some info)
      | None => scanSearchPaths className rest
      end
  end.

Definition analyzeClass (className : string) : M ClassInfo :=
  let* st := get in
  if negb (initialized st) then throw NotInitialized
  else
    match classCache st !! className with
    | Some cachedInfo => ret cachedInfo
    | None =>
        let* searchPaths := classSearchPaths in
        match searchPaths with
        | [] => throw NoSearchPath
        | _ =>
            let* hit := scanSearchPaths className searchPaths in
            match hit with
            | Some info => ret info
            | None => throw (ClassNotFound className)
            end
        end
    end.

(** ** Hierarchy (findClassHierarchy) *)

Definition leafHierarchy (superclass : string) : ClassHierarchy :=
  Hierarchy superclass [] [].

(** The loop over the superclasses: each one is expanded by [expand] and
    replaced by a leaf when [expand] throws. *)
Fixpoint expandSuperclasses (expand : string → M ClassHierarchy)
    (todo : list string) (acc : list ClassHierarchy)
  : M (list ClassHierarchy) :=
  match todo with
  | [] => ret acc
  | superclass :: rest =>
      let* node :=
        try_catch (expand superclass)
                  (fun _ => ret (leafHierarchy superclass)) in
      expandSuperclasses expand rest (acc ++ [node])
  end.

(** The recursion of the source has no bound of its own (a class that is
    its own ancestor makes it run forever); [fuel] bounds its depth. *)
Fixpoint findClassHierarchy (fuel : nat) (className : string)
    (includeInterfaces : bool) : M ClassHierarchy :=
  match fuel with
  | O => diverge
  | S fuel' =>
      let* classInfo := analyzeClass className in
      let* supers :=
        expandSuperclasses
          (fun superclass => findClassHierarchy fuel' superclass includeInterfaces)
          (superclasses classInfo) [] in
      ret (Hierarchy (name classInfo) supers
             (if includeInterfaces then interfaces classInfo else []))
  end.

(** ** Reference and text search (findReferences, searchCode) *)

(** [lines.slice(Math.max(0, i - 2), i + 3).join('\n')] *)
Definition contextAt (lines : list string) (i : nat) : string :=
  Js.join NL (Js.slice (i - 2) (i + 3) lines).

(** The loop over the lines of one file in findReferences; [todo] are the
    lines from index [i] on. *)
Fixpoint referenceLines (file identifier : string) (lines todo : list string)
    (i : nat) : list CodeReference :=
  match todo with
  | [] => []
  | l :: rest =>
      if Regex.test (Patterns.wholeWord identifier) l
      then {| refFile := file; refLine := i + 1;
              refColumn := (Js.indexOf l identifier + 1)%Z;
              context := contextAt lines i |}
           :: referenceLines file identifier lines rest (S i)
      else referenceLines file identifier lines rest (S i)
  end.

(** The loop over the files; an unreadable file is skipped. *)
Fixpoint collectReferences (identifier : string) (files : list string)
  : M (list CodeReference) :=
  match files with
  | [] => ret []
  | file :: rest =>
      let* here :=
        try_catch
          (let* content := readFileSync fs file in
           let lines := Js.split LF content in
           ret (referenceLines file identifier lines lines 0))
          (fun _ => ret []) in
      let* others := collectReferences identifier rest in
      ret (here ++ others)
  end.

Definition sourceGlob : string := "**/*.{h,cpp}".
Definition sourceIgnore : list string := ["**/Intermediate/**"].

(** [this.customPath || this.unrealPath] *)
Definition referenceSearchPath (st : Analyzer) : option string :=
  if Js.truthy (customPath st) then customPath st else unrealPath st.

(** The array [references] before [slice(0, 100)]. *)
Definition rawReferences (identifier : string) (type : option SymbolKind)
  : M (list CodeReference) :=
  let* st := get in
  if negb (initialized st) then throw NotInitialized
  else
    match referenceSearchPath st with
    | Some searchPath =>
        if Js.truthy (Some searchPath)
        then
          let* files := glob fs sourceGlob searchPath sourceIgnore in
          collectReferences identifier files
        else throw NoSearchPath
    | None => throw NoSearchPath
    end.

Definition findReferences (identifier : string) (type : option SymbolKind)
  : M (list CodeReference) :=
  let* references := rawReferences identifier type in
  ret (take 100 references).

(** The test that makes searchCode skip a line when comments are
    excluded. *)
Definition isCommentLine (l : string) : bool :=
  Js.startsWith (Js.trim l) "//" || Js.startsWith (Js.trim l) "/*".

(** The loop over the lines of one file in searchCode. *)
Fixpoint searchLines (file : string) (query : Regex.regex)
    (includeComments : bool) (lines todo : list string) (i : nat)
  : list CodeReference :=
  match todo with
  | [] => []
  | l :: rest =>
      if negb includeComments && isCommentLine l
      then searchLines file query includeComments lines rest (S i)
      else if Regex.test query l
      then {| refFile := file; refLine := i + 1;
              refColumn := (Regex.search query l + 1)%Z;
              context := contextAt lines i |}
           :: searchLines file query includeComments lines rest (S i)
      else searchLines file query includeComments lines rest (S i)
  end.

Fixpoint collectMatches (query : Regex.regex) (includeComments : bool)
    (files : list string) : M (list CodeReference) :=
  match files with
  | [] => ret []
  | file :: rest =>
      let* here :=
        try_catch
          (let* content := readFileSync fs file in
           let lines := Js.split LF content in
           ret (searchLines file query includeComments lines lines 0))
          (fun _ => ret []) in
      let* others := collectMatches query includeComments rest in
      ret (here ++ others)
  end.

(** The search paths of searchCode: the custom root, the engine root and,
    for a shader search, the shader directories that exist. *)
Definition textSearchPaths (isShaderSearch : bool) : M (list string) :=
  let* st := get in
  let custom :=
    match customPath st with
    | Some p => if Js.truthy (Some p) then [p] else []
    | None => []
    end in
  match unrealPath st with
  | Some root =>
      if Js.truthy (Some root)
      then
        if isShaderSearch
        then
          let* shaders :=
            existingDirs [path_join (path_join root "Engine") "Shaders";
                          path_join root "Shaders"] in
          ret (custom ++ root :: shaders)
        else ret (custom ++ [root])
      else ret custom
  | None => ret custom
  end.

(** The loop that globs every search path and concatenates the lists. *)
Fixpoint globAll (pattern : string) (paths : list string) : M (list string) :=
  match paths with
  | [] => ret []
  | searchPath :: rest =>
      let* files := glob fs pattern searchPath sourceIgnore in
      let* others := globAll pattern rest in
      ret (files ++ others)
  end.

Definition defaultFilePattern : string := "*.{h,cpp}".

(** The array [results] before [slice(0, 100)].  Omitted arguments
    ([None]) take the defaults of the signature. *)
Definition rawMatches (query : Regex.regex) (filePattern : option string)
    (includeComments : option bool) : M (list CodeReference) :=
  let filePattern := default defaultFilePattern filePattern in
  let includeComments := default true includeComments in
  let* st := get in
  if negb (initialized st) then throw NotInitialized
  else if negb (Js.truthy (customPath st)) && negb (Js.truthy (unrealPath st))
  then throw NoSearchPath
  else
    let isShaderSearch :=
      Js.includes filePattern "usf" || Js.includes filePattern "ush" in
    let* searchPaths := textSearchPaths isShaderSearch in
    let* allFiles := globAll ("**/" +:+ filePattern) searchPaths in
    collectMatches query includeComments (Js.dedup allFiles).

Definition searchCode (query : Regex.regex) (filePattern : option string)
    (includeComments : option bool) : M (list CodeReference) :=
  let* results := rawMatches query filePattern includeComments in
  ret (take 100 results).

(** ** API reference synthesis and ranking *)

Definition generateClassSyntax (classInfo : ClassInfo) : string :=
  let syntax := "class " +:+ name classInfo in
  match superclasses classInfo with
  | [] => syntax
  | _ => syntax +:+ " : public " +:+ Js.join ", public " (superclasses classInfo)
  end.

Definition determineCategory (classInfo : ClassInfo) : string :=
  if Js.startsWith (name classInfo) "U" then "Object"
  else if Js.startsWith (name classInfo) "A" then "Actor"
  else if Js.startsWith (name classInfo) "F" then "Structure"
  else if existsb (fun s => Js.includes s "Component") (superclasses classInfo)
  then "Component"
  else "Miscellaneous".

(** [parts.indexOf('Runtime')] followed by [parts[runtimeIndex + 1]]. *)
Fixpoint segmentAfterRuntime (parts : list string) : option string :=
  match parts with
  | [] => None
  | p :: rest =>
      if String.eqb p "Runtime" then head rest else segmentAfterRuntime rest
  end.

Definition determineModule (filePath : string) : string :=
  default "Core" (segmentAfterRuntime (Js.split "/" filePath)).

Definition getOrCreateApiReference (classInfo : ClassInfo) : M ApiReference :=
  let* st := get in
  match apiCache st !! name classInfo with
  | Some apiRef => ret apiRef
  | None =>
      let apiRef :=
        {| apiClassName := name classInfo;
           description := "Class " +:+ name classInfo;
           syntax := generateClassSyntax classInfo;
           examples := [];
           remarks := [];
           relatedClasses := superclasses classInfo ++ interfaces classInfo;
           category := determineCategory classInfo;
           module := determineModule (file classInfo);
           version := "5.0" |} in
      let* _ := put (set_apiCache (<[name classInfo := apiRef]> (apiCache st)) st) in
      ret apiRef
  end.

(** The lower-cased text in which every term is looked up. *)
Definition relevanceText (apiRef : ApiReference) : string :=
  Js.toLowerCase
    (Js.join " " ([apiClassName apiRef; description apiRef; category apiRef;
                   module apiRef] ++ relatedClasses apiRef)).

(** One round of the loop over the search terms. *)
Definition addTermScore (apiRef : ApiReference) (score : nat) (term : string)
  : nat :=
  let score :=
    if Js.includes (Js.toLowerCase (apiClassName apiRef)) term
    then score + 10 else score in
  let score :=
    if Js.includes (Js.toLowerCase (category apiRef)) term
    then score + 5 else score in
  let score :=
    if Js.includes (Js.toLowerCase (module apiRef)) term
    then score + 5 else score in
  if Js.includes (relevanceText apiRef) term then score + 2 else score.

Definition calculateApiRelevance (apiRef : ApiReference)
    (searchTerms : list string) : nat :=
  fold_left (addTermScore apiRef) searchTerms 0.

(** ** Subsystems (analyzeSubsystem)

    The table of directories is an object literal, so a lookup finds its
    own keys and, besides, the properties every object inherits from
    [Object.prototype]: functions (and, for [__proto__], the prototype
    itself), which pass the test [!subsystemDir] and make [path.join]
    throw a [TypeError]. *)

Definition objectPrototypeKeys : list string :=
  ["constructor"; "__defineGetter__"; "__defineSetter__"; "hasOwnProperty";
   "__lookupGetter__"; "__lookupSetter__"; "isPrototypeOf";
   "propertyIsEnumerable"; "toString"; "valueOf"; "__proto__";
   "toLocaleString"].

Definition subsystemDirs : list (string * string) :=
  [("Rendering", "Engine/Source/Runtime/RenderCore");
   ("Physics", "Engine/Source/Runtime/PhysicsCore");
   ("Audio", "Engine/Source/Runtime/AudioCore");
   ("Networking", "Engine/Source/Runtime/Networking");
   ("Input", "Engine/Source/Runtime/InputCore");
   ("AI", "Engine/Source/Runtime/AIModule");
   ("Animation", "Engine/Source/Runtime/AnimationCore");
   ("UI", "Engine/Source/Runtime/UMG")].

Fixpoint lookupDir (table : list (string * string)) (key : string)
  : option string :=
  match table with
  | [] => None
  | (k, v) :: rest => if String.eqb k key then Some v else lookupDir rest key
  end.

Definition endsWith (s suffix : string) : bool :=
  Js.startsWith (Js.str (rev (Js.chars s))) (Js.str (rev (Js.chars suffix))).

(** The loop over the header files, pushing group 1 of every match. *)
Fixpoint collectClassNames (headerFiles : list string) : M (list string) :=
  match headerFiles with
  | [] => ret []
  | file :: rest =>
      let* here :=
        try_catch
          (let* content := readFileSync fs file in
           ret (map (fun m => Regex.group_or_empty 1 (Regex.m_caps m))
                    (Regex.exec_all Patterns.anyClassWithBases content)))
          (fun _ => ret []) in
      let* others := collectClassNames rest in
      ret (here ++ others)
  end.

Definition analyzeSubsystem (subsystem : string) : M SubsystemInfo :=
  let* st := get in
  if negb (initialized st) then throw NotInitialized
  else if negb (Js.truthy (unrealPath st)) then throw EnginePathNotConfigured
  else
    match unrealPath st, lookupDir subsystemDirs subsystem with
    | Some root, Some subsystemDir =>
        let fullPath := path_join root subsystemDir in
        let* here := existsSync fs fullPath in
        if negb here then throw (SubsystemDirNotFound fullPath)
        else
          let* files := glob fs sourceGlob fullPath [] in
          let headerFiles := filter (fun f => endsWith f ".h" = true) files in
          let* classes := collectClassNames headerFiles in
          ret {| subsystemName := subsystem;
                 mainClasses := classes;
                 keyFeatures := [];
                 dependencies := [];
                 sourceFiles := files |}
    | _, _ =>
        if existsb (String.eqb subsystem) objectPrototypeKeys
        then throw (PathArgumentNotString subsystem)
        else throw (UnknownSubsystem subsystem)
    end.

End Analyzer.

(** * Definitions used by the statements *)

(** Where a match starts and what its groups captured. *)
Definition groupsOf (m : option Regex.found) : option (nat * Regex.caps) :=
  match m with
  | Some f => Some (Regex.m_index f, Regex.m_caps f)
  | None => None
  end.

(** The base names [baseMatch[1]] read off an inheritance clause, in
    order. *)
Definition extractedBaseNames (inheritancePart : string) : list string :=
  omap baseNameOf (baseClassEntries inheritancePart).

(** The interface rule in words: starts with I, is not IInterface, does
    not start with Int. *)
Definition InterfaceRule (baseName : string) : Prop :=
  (∃ t, baseName = "I" +:+ t) ∧ baseName ≠ "IInterface"
  ∧ ¬ (∃ t, baseName = "Int" +:+ t).

(** ** A small disk for the examples

    [disk files dirs] is a file system holding the text files [files]
    (absolute path, content) and the directories [dirs]; its glob knows the
    patterns the analyzer uses. *)

Module Disk.

Definition extensions (pattern : string) : list string :=
  if String.eqb pattern "**/*.h" then [".h"]
  else if String.eqb pattern "**/*.{h,cpp}" then [".h"; ".cpp"]
  else if String.eqb pattern "**/*.usf" then [".usf"]
  else if String.eqb pattern "**/*.ush" then [".ush"]
  else [].

Definition ignored (ignore : list string) (path : string) : bool :=
  existsb (fun ig =>
             if String.eqb ig "**/*.generated.h" then endsWith path ".generated.h"
             else if String.eqb ig "**/Intermediate/**"
                  then Js.includes path "/Intermediate/"
                  else false) ignore.

Definition disk (files : list (string * string)) (dirs : list string)
  : FileSystem :=
  {| fs_exists p := bool_decide (p ∈ dirs) || bool_decide (p ∈ files.*1);
     fs_read p := lookupDir files p;
     fs_glob pattern cwd ignore :=
       filter (fun p => (Js.startsWith p (cwd +:+ "/")
                         && existsb (endsWith p) (extensions pattern)
                         && negb (ignored ignore p)) = true)
              (files.*1) |}.

(** Run a call on an analyzer and keep the result. *)
Definition after {A} (m : M A) (st : Analyzer) : Analyzer := final (m st).

End Disk.

(** A header in which a forward declaration of the class comes first. *)
Definition forwardDeclHeader : string :=
  Js.join NL ["#pragma once"; "class AFoo;"; fooLine; "{"; "};"].

Definition forwardDeclDisk : FileSystem :=
  Disk.disk [("/proj/AFoo.h", forwardDeclHeader)] ["/proj"].

(** A header with a licence comment and an include before the class. *)
Definition fooHeader : string :=
  Js.join NL ["// Copyright"; "#include <Actor.h>"; "UCLASS()"; fooLine; "{";
              "  GENERATED_BODY()"; "};"].

(** The settings a resolution reads besides the cache. *)
Definition config (st : Analyzer) : option string * option string * bool :=
  (unrealPath st, customPath st, initialized st).

(** The analyzer after a scan that returned [hit] for [className]. *)
Definition cached (className : string) (hit : option ClassInfo)
    (st : Analyzer) : Analyzer :=
  match hit with
  | Some info => set_classCache (<[className := info]> (classCache st)) st
  | None => st
  end.

(** What a resolution that misses the cache does: an answer that depends
    on the configuration only, stored when it is a class. *)
Definition stored (className : string) (r : res ClassInfo) (st : Analyzer)
  : Analyzer :=
  match r with
  | Ok info => cached className (Some info) st
  | _ => st
  end.

(** What resolving [className] answers in [st]. *)
Definition resolution (fs : FileSystem) (st : Analyzer) (className : string)
  : res ClassInfo :=
  result (analyzeClass fs className st).

(** [st'] has the configuration of [st] and resolves every name to what
    [st] resolves it to. *)
Definition sameResolution (fs : FileSystem) (st st' : Analyzer) : Prop :=
  config st' = config st ∧ ∀ n, resolution fs st' n = resolution fs st n.

(** The hierarchy of [className] is at most [fuel] levels deep: the
    names that resolve have superclasses at most [fuel - 1] deep. *)
Fixpoint hierarchyWithin (fs : FileSystem) (fuel : nat) (st : Analyzer)
    (className : string) : bool :=
  match fuel with
  | O => false
  | S fuel' =>
      match resolution fs st className with
      | Ok info => forallb (hierarchyWithin fs fuel' st) (superclasses info)
      | Err _ => true
      | Diverge => false
      end
  end.

(** The hierarchy as the specification words it: the node of a class that
    resolves carries its interfaces (when asked for) and one subtree per
    superclass, in order; a superclass that cannot be resolved is a leaf.
    [specSubtrees] builds the subtrees, [specHierarchy] the node; the
    depth bound plays the part of the fuel. *)
Fixpoint specSubtrees (subtree : string → res ClassHierarchy)
    (supers : list string) : res (list ClassHierarchy) :=
  match supers with
  | [] => Ok []
  | s :: rest =>
      match subtree s with
      | Diverge => Diverge
      | r =>
          let node := match r with Ok h => h | _ => Hierarchy s [] [] end in
          match specSubtrees subtree rest with
          | Ok nodes => Ok (node :: nodes)
          | other => other
          end
      end
  end.

Fixpoint specHierarchy (fs : FileSystem) (st : Analyzer)
    (includeInterfaces : bool) (fuel : nat) (className : string)
  : res ClassHierarchy :=
  match fuel with
  | O => Diverge
  | S fuel' =>
      match resolution fs st className with
      | Ok info =>
          match specSubtrees (specHierarchy fs st includeInterfaces fuel')
                  (superclasses info) with
          | Ok nodes =>
              Ok (Hierarchy (name info) nodes
                    (if includeInterfaces then interfaces info else []))
          | Err e => Err e
          | Diverge => Diverge
          end
      | Err e => Err e
      | Diverge => Diverge
      end
  end.

(** A custom codebase with the header of AFoo and one source file; the
    header of its superclass AActor is not there. *)
Definition projectDisk : FileSystem :=
  Disk.disk [("/proj/AFoo.h", fooHeader);
             ("/proj/AFoo.cpp", "void AFoo::BeginPlay() {}")]
            ["/proj"].

Definition projectAnalyzer : Analyzer :=
  Disk.after (initializeCustomCodebase projectDisk "/proj") newAnalyzer.

(** The entry searchCode pushes for line [i] of a file. *)
Definition matchAt (file : string) (query : Regex.regex)
    (lines : list string) (i : nat) (l : string) : CodeReference :=
  {| refFile := file; refLine := i + 1;
     refColumn := (Regex.search query l + 1)%Z;
     context := contextAt lines i |}.

(** The test searchCode applies to a line. *)
Definition reportsLine (query : Regex.regex) (includeComments : bool)
    (l : string) : bool :=
  negb (negb includeComments && isCommentLine l) && Regex.test query l.

(** The files searchCode scans: every search path globbed, the lists
    concatenated and de-duplicated. *)
Definition scannedFiles (fs : FileSystem) (filePattern : string)
    (st : Analyzer) : list string :=
  let isShaderSearch :=
    Js.includes filePattern "usf" || Js.includes filePattern "ush" in
  match result (textSearchPaths fs isShaderSearch st) with
  | Ok paths =>
      match result (globAll fs ("**/" +:+ filePattern) paths st) with
      | Ok allFiles => Js.dedup allFiles
      | _ => []
      end
  | _ => []
  end.

(** Whether the guards of searchCode let the call through. *)
Definition searchable (st : Analyzer) : bool :=
  initialized st && (Js.truthy (customPath st) || Js.truthy (unrealPath st)).

(** Whether the guards of findReferences let the call through. *)
Definition referenceSearchable (st : Analyzer) : bool :=
  initialized st && Js.truthy (referenceSearchPath st).

(** The analyzer with the engine root forgotten. *)
Definition withoutEngine (st : Analyzer) : Analyzer :=
  {| unrealPath := None; customPath := customPath st;
     classCache := classCache st; apiCache := apiCache st;
     initialized := initialized st |}.

(** A source file of 250 lines that all call Foo. *)
Definition bigDisk : FileSystem :=
  Disk.disk [("/proj/Big.cpp", Js.join NL (replicate 250 "  Foo();"))] ["/proj"].

Definition bigAnalyzer : Analyzer :=
  Disk.after (initializeCustomCodebase bigDisk "/proj") newAnalyzer.

Definition count {A} (r : res (list A)) : option nat :=
  match r with Ok l => Some (length l) | _ => None end.

(** A source file with a line comment, a declaration, a block comment and
    a statement followed by a comment, all naming Spawn. *)
Definition spawnLines : list string :=
  ["// TODO Spawn"; "void Spawn();"; "  /* Spawn */"; "x = 1; // Spawn"].

Definition spawnDisk : FileSystem :=
  Disk.disk [("/proj/Spawn.cpp", Js.join NL spawnLines)] ["/proj"].

Definition spawnAnalyzer : Analyzer :=
  Disk.after (initializeCustomCodebase spawnDisk "/proj") newAnalyzer.

Definition linesOf (r : res (list CodeReference)) : option (list nat) :=
  match r with Ok l => Some (refLine <$> l) | _ => None end.

(** A custom project next to an engine tree; UFoo is declared in the
    engine only. *)
Definition twoRootDisk : FileSystem :=
  Disk.disk [("/proj/Main.cpp", "int main() { return 0; }");
             ("/ue/Engine/Source/Runtime/Core/Foo.h",
              "class CORE_API UFoo : public UObject {};")]
            ["/proj"; "/ue"; "/ue/Engine"].

Definition twoRootAnalyzer : Analyzer :=
  Disk.after (initializeCustomCodebase twoRootDisk "/proj")
    (Disk.after (initialize twoRootDisk "/ue") newAnalyzer).

Definition engineOnlyAnalyzer : Analyzer :=
  Disk.after (initialize twoRootDisk "/ue") newAnalyzer.

(** The concatenated text of an entry, as the specification words it:
    name, description, category, module and related classes, in this
    order, put together with spaces and lower-cased. *)
Definition concatenatedText (apiRef : ApiReference) : string :=
  Js.toLowerCase
    (Js.join " "
       (apiClassName apiRef :: description apiRef :: category apiRef
        :: module apiRef :: relatedClasses apiRef)).

(** What one search term is worth against an entry, as the specification
    words it: 10 for the class name, 5 for the category, 5 for the module,
    2 for the concatenated text, each when the term occurs in the
    lower-cased field, the four added up. *)
Definition specTermScore (apiRef : ApiReference) (term : string) : nat :=
  (if Js.includes (Js.toLowerCase (apiClassName apiRef)) term then 10 else 0)
  + (if Js.includes (Js.toLowerCase (category apiRef)) term then 5 else 0)
  + (if Js.includes (Js.toLowerCase (module apiRef)) term then 5 else 0)
  + (if Js.includes (concatenatedText apiRef) term then 2 else 0).

(** The record of UObject as extraction gives it for the engine header. *)
Definition objectInfo : ClassInfo :=
  {| name := "UObject";
     file := "/ue/Engine/Source/Runtime/CoreUObject/Public/UObject/Object.h";
     line := 1;
     superclasses := ["UObjectBaseUtility"];
     interfaces := [];
     methods := [];
     properties := [];
     comments := [] |}.

(** The API entry the analyzer synthesizes and caches for it. *)
Definition objectEntry : res ApiReference :=
  result (getOrCreateApiReference objectInfo newAnalyzer).

(** The analyzer after the custom root has been set to each of [paths] in
    turn (a path that does not exist leaves it as it was). *)
Definition afterCustomRoots (fs : FileSystem) (paths : list string) : Analyzer :=
  fold_left (fun st p => final (initializeCustomCodebase fs p st)) paths
            newAnalyzer.

(** An engine tree with the rendering subsystem. *)
Definition engineDisk : FileSystem :=
  Disk.disk [("/ue/Engine/Source/Runtime/RenderCore/Public/RenderResource.h",
              Js.join NL ["class FRenderCommand;";
                          "class RENDERCORE_API FRenderResource : public FBase";
                          "{"; "};"]);
             ("/ue/Engine/Source/Runtime/RenderCore/Private/RenderResource.cpp",
              "FRenderResource::FRenderResource() {}")]
            ["/ue"; "/ue/Engine"; "/ue/Engine/Source/Runtime/RenderCore"].

(** * The rest of the analyzer *)

(** ** Pattern catalogue and advisor (detectPatterns) *)

Record PatternInfo : Type := {
  patternName : string;
  patternDescription : string;
  bestPractices : list string;
  documentation : string;
  patternExamples : list string;
  relatedPatterns : list string;
}.

Inductive resourceKind : Type := Documentation | Tutorial | Video | Blog.

Record LearningResource : Type := {
  title : string;
  resourceType : resourceKind;
  url : string;
  resourceDescription : string;
}.

Record CodePatternMatch : Type := {
  pattern : PatternInfo;
  matchFile : string;
  matchLine : nat;
  matchContext : string;
  suggestedImprovements : list string;
  matchResources : list LearningResource;
}.

(** The double quote, for the literals that contain one. *)
Definition DQ : string := String (ascii_of_nat 34) EmptyString.

Definition UNREAL_PATTERNS : list PatternInfo :=
  [ {| patternName := "UPROPERTY Macro";
       patternDescription := "Property declaration for Unreal reflection system";
       bestPractices :=
         ["Use appropriate property specifiers (EditAnywhere, BlueprintReadWrite, etc.)";
          "Consider replication needs (Replicated, ReplicatedUsing)";
          "Group related properties with categories"];
       documentation :=
         "https://docs.unrealengine.com/5.0/en-US/unreal-engine-uproperty-specifier-reference/";
       patternExamples :=
         ["UPROPERTY(EditAnywhere, BlueprintReadWrite, Category = " +:+ DQ
            +:+ "Combat" +:+ DQ +:+ ")" +:+ NL +:+ "float Health;";
          "UPROPERTY(Replicated)" +:+ NL +:+ "FVector Location;"];
       relatedPatterns := ["UFUNCTION Macro"; "UCLASS Macro"] |};
    {| patternName := "Component Setup";
       patternDescription := "Creating and initializing components in constructor";
       bestPractices :=
         ["Create components in constructor";
          "Set default values in constructor";
          "Use CreateDefaultSubobject for components";
          "Set root component appropriately"];
       documentation :=
         "https://docs.unrealengine.com/5.0/en-US/components-in-unreal-engine/";
       patternExamples :=
         ["RootComponent = CreateDefaultSubobject<USceneComponent>(TEXT(" +:+ DQ
            +:+ "Root" +:+ DQ +:+ "));";
          "MeshComponent = CreateDefaultSubobject<UStaticMeshComponent>(TEXT("
            +:+ DQ +:+ "Mesh" +:+ DQ +:+ "));"];
       relatedPatterns := ["Actor Initialization"; "Component Registration"] |};
    {| patternName := "Event Binding";
       patternDescription :=
         "Binding to delegate events and implementing event handlers";
       bestPractices :=
         ["Bind events in BeginPlay";
          "Unbind events in EndPlay";
          "Use DECLARE_DYNAMIC_MULTICAST_DELEGATE for Blueprint exposure";
          "Consider weak pointer bindings for safety"];
       documentation :=
         "https://docs.unrealengine.com/5.0/en-US/delegates-in-unreal-engine/";
       patternExamples :=
         ["OnHealthChanged.AddDynamic(this, &AMyActor::HandleHealthChanged);";
          "FScriptDelegate Delegate; Delegate.BindUFunction(this, " +:+ DQ
            +:+ "OnCustomEvent" +:+ DQ +:+ ");"];
       relatedPatterns := ["Delegate Declaration"; "Event Dispatching"] |} ].

(** The table [patternMatchers] of detectPatterns, looked up by its own
    keys. *)
Definition patternMatchers : list (string * Regex.regex) :=
  [("UPROPERTY Macro", Patterns.macroCall "UPROPERTY" false);
   ("Component Setup",
    Regex.seqs [Regex.lit false "CreateDefaultSubobject"; Regex.Star Regex.ws;
                Regex.one "<"; Regex.Plus (Regex.none_of ">"); Regex.one ">";
                Regex.Star Regex.ws; Regex.one "("]);
   ("Event Binding",
    Regex.Alt
      (Regex.seqs [Regex.one "."; Regex.lit false "Add";
                   Regex.Group 1
                     (Regex.Alt (Regex.lit false "Dynamic")
                        (Regex.Alt (Regex.lit false "Unique")
                           (Regex.Alt (Regex.lit false "Raw")
                              (Regex.lit false "Lambda"))))])
      (Regex.lit false "BindUFunction"))].

Fixpoint matcherOf (table : list (string * Regex.regex)) (key : string)
  : option Regex.regex :=
  match table with
  | [] => None
  | (k, r) :: rest => if String.eqb k key then Some r else matcherOf rest key
  end.

(** The [switch] on the name of the pattern; each branch pushes its hints
    in order. *)
Definition analyzePotentialImprovements (ctx : string) (p : PatternInfo)
  : list string :=
  if String.eqb (patternName p) "UPROPERTY Macro" then
    (if negb (Js.includes ctx "Category")
     then ["Consider adding a Category specifier for better organization"]
     else [])
    ++ (if Js.includes ctx "BlueprintReadWrite" && negb (Js.includes ctx "Meta")
        then ["Consider adding Meta specifiers for validation"]
        else [])
  else if String.eqb (patternName p) "Component Setup" then
    (if negb (Js.includes ctx "RootComponent")
        && Js.includes ctx "CreateDefaultSubobject"
     then ["Consider setting up component hierarchy"]
     else [])
  else if String.eqb (patternName p) "Event Binding" then
    (if negb (Js.includes (Js.toLowerCase ctx) "beginplay")
        && negb (Js.includes (Js.toLowerCase ctx) "endplay")
     then ["Consider managing event binding/unbinding in BeginPlay/EndPlay"]
     else [])
  else [].

Definition getLearningResources (p : PatternInfo) : list LearningResource :=
  [ {| title := "Official Documentation";
       resourceType := Documentation;
       url := documentation p;
       resourceDescription :=
         "Official Unreal Engine documentation for " +:+ patternName p |} ].

(** The window of detectPatterns, with its explicit upper clip:
    [lines.slice(Math.max(0, i - 2), Math.min(lines.length, i + 3))]. *)
Definition patternContextAt (lines : list string) (i : nat) : string :=
  Js.join NL (Js.slice (i - 2) (Nat.min (length lines) (i + 3)) lines).

(** The loop over the lines for one pattern. *)
Fixpoint patternLines (p : PatternInfo) (matcher : Regex.regex)
    (filePath : string) (lines todo : list string) (i : nat)
  : list CodePatternMatch :=
  match todo with
  | [] => []
  | l :: rest =>
      if Regex.test matcher l
      then
        let ctx := patternContextAt lines i in
        {| pattern := p; matchFile := filePath; matchLine := i + 1;
           matchContext := ctx;
           suggestedImprovements := analyzePotentialImprovements ctx p;
           matchResources := getLearningResources p |}
        :: patternLines p matcher filePath lines rest (S i)
      else patternLines p matcher filePath lines rest (S i)
  end.

(** The loop over the catalogue; a pattern without a matcher is passed
    over. *)
Fixpoint detectIn (patterns : list PatternInfo) (filePath : string)
    (lines : list string) : list CodePatternMatch :=
  match patterns with
  | [] => []
  | p :: rest =>
      match matcherOf patternMatchers (patternName p) with
      | Some matcher =>
          patternLines p matcher filePath lines lines 0
          ++ detectIn rest filePath lines
      | None => detectIn rest filePath lines
      end
  end.

(** detectPatterns reads neither the analyzer nor the disk. *)
Definition detectPatterns (fileContent filePath : string)
  : list CodePatternMatch :=
  detectIn UNREAL_PATTERNS filePath (Js.split LF fileContent).

(** ** API queries (queryApiReference) *)

Record ApiQueryResult : Type := {
  reference : ApiReference;
  resultContext : string;
  relevance : nat;
  learningResources : list LearningResource;
}.

(** The options object; an absent property is [None].  [maxResults] is
    taken to be an integer. *)
Record QueryOptions : Type := {
  optCategory : option string;
  optModule : option string;
  includeExamples : option bool;
  maxResults : option Z;
}.

(** [s.split(r)] for a pattern without capture groups: a match at [q] that
    ends where the current piece starts is passed over, any other match
    closes the piece.  [cur] holds the piece so far, last character
    first. *)
Fixpoint splitByRegex_from (fuel : nat) (r : Regex.regex)
    (bef cur aft : list ascii) : list string :=
  match fuel with
  | O => [Js.str (rev cur ++ aft)]
  | S fuel' =>
      match aft with
      | [] => [Js.str (rev cur)]
      | a :: aft' =>
          match Regex.match_at r (Regex.Cursor bef aft) with
          | Some m =>
              let z := Regex.m_end m in
              if (length (Regex.after z) =? length aft) && (length cur =? 0)
              then splitByRegex_from fuel' r (a :: bef) (a :: cur) aft'
              else Js.str (rev cur)
                   :: splitByRegex_from fuel' r (Regex.before z) []
                        (Regex.after z)
          | None => splitByRegex_from fuel' r (a :: bef) (a :: cur) aft'
          end
      end
  end.

Definition splitByRegex (r : Regex.regex) (s : string) : list string :=
  match s with
  | EmptyString =>
      match Regex.match_at r (Regex.Cursor [] []) with
      | Some _ => []
      | None => [EmptyString]
      end
  | _ => splitByRegex_from (2 * String.length s + 2) r [] [] (Js.chars s)
  end.

(** [query.toLowerCase().split(/\s+/)] *)
Definition searchTermsOf (query : string) : list string :=
  splitByRegex (Regex.Plus Regex.ws) (Js.toLowerCase query).

Definition generateApiContext (apiRef : ApiReference)
    (withExamples : option bool) : string :=
  let ctx :=
    apiClassName apiRef +:+ " - " +:+ description apiRef +:+ NL
    +:+ "Module: " +:+ module apiRef +:+ NL
    +:+ "Category: " +:+ category apiRef +:+ NL +:+ NL
    +:+ "Syntax:" +:+ NL +:+ syntax apiRef +:+ NL in
  if default false withExamples && (0 <? length (examples apiRef))
  then ctx +:+ NL +:+ "Examples:" +:+ NL
       +:+ Js.join NL (map (fun ex => ex +:+ NL) (examples apiRef))
  else ctx.

(** [results.sort((a, b) => b.relevance - a.relevance)]: a stable sort by
    descending relevance, written as an insertion sort. *)
Fixpoint insertByRelevance (x : ApiQueryResult) (sorted : list ApiQueryResult)
  : list ApiQueryResult :=
  match sorted with
  | [] => [x]
  | y :: rest =>
      if relevance x <? relevance y then y :: insertByRelevance x rest
      else x :: y :: rest
  end.

Fixpoint sortByRelevance (results : list ApiQueryResult)
  : list ApiQueryResult :=
  match results with
  | [] => []
  | x :: rest => insertByRelevance x (sortByRelevance rest)
  end.

(** [a.slice(0, n)] for an integer [n], negative ones counting from the
    end. *)
Definition sliceTo {A} (n : Z) (l : list A) : list A :=
  if (0 <=? n)%Z then take (Z.to_nat n) l
  else take (length l - Z.to_nat (- n)) l.

(** [options.maxResults || 10] *)
Definition resultLimit (o : QueryOptions) : Z :=
  match maxResults o with
  | Some n => if (n =? 0)%Z then 10%Z else n
  | None => 10%Z
  end.

(** [options.category && apiRef.category !== options.category] *)
Definition filteredOut (wanted : option string) (actual : string) : bool :=
  Js.truthy wanted && negb (String.eqb actual (default EmptyString wanted)).

(** The result pushed for one cached class. *)
Definition apiResult (className : string) (apiRef : ApiReference)
    (o : QueryOptions) (score : nat) : ApiQueryResult :=
  {| reference := apiRef;
     resultContext := generateApiContext apiRef (includeExamples o);
     relevance := score;
     learningResources :=
       getLearningResources
         {| patternName := className;
            patternDescription := description apiRef;
            bestPractices := remarks apiRef;
            documentation :=
              "https://dev.epicgames.com/documentation/en-us/unreal-engine/API/"
              +:+ module apiRef +:+ "/" +:+ className;
            patternExamples := examples apiRef;
            relatedPatterns := relatedClasses apiRef |} |}.

(** The loop over the entries of the class cache. *)
Fixpoint collectApiResults (searchTerms : list string) (o : QueryOptions)
    (entries : list (string * ClassInfo)) : M (list ApiQueryResult) :=
  match entries with
  | [] => ret []
  | (className, classInfo) :: rest =>
      let* apiRef := getOrCreateApiReference classInfo in
      let here :=
        if filteredOut (optCategory o) (category apiRef) then []
        else if filteredOut (optModule o) (module apiRef) then []
        else
          let score := calculateApiRelevance apiRef searchTerms in
          if 0 <? score then [apiResult className apiRef o score] else [] in
      let* others := collectApiResults searchTerms o rest in
      ret (here ++ others)
  end.

(** The class cache of the source is a [Map], which is iterated in
    insertion order; the finite map of this model keeps no order, so the
    order of iteration is the parameter [entriesOf] (some enumeration of
    the cache). *)
Definition queryApiReference
    (entriesOf : gmap string ClassInfo → list (string * ClassInfo))
    (query : string) (o : QueryOptions) : M (list ApiQueryResult) :=
  let* st := get in
  if negb (initialized st) then throw NotInitialized
  else
    let* results :=
      collectApiResults (searchTermsOf query) o (entriesOf (classCache st)) in
    ret (sliceTo (resultLimit o) (sortByRelevance results)).

(** ** Start-up (index.ts) *)

Definition isInitialized (st : Analyzer) : bool := initialized st.

(** [initializePaths(unrealPath?, customPath?)] of the server. *)
Definition initializePaths (fs : FileSystem)
    (enginePath codebasePath : option string) : M unit :=
  let* _ :=
    match enginePath with
    | Some p => if Js.truthy (Some p) then initialize fs p else ret tt
    | None => ret tt
    end in
  match codebasePath with
  | Some p => if Js.truthy (Some p) then initializeCustomCodebase fs p else ret tt
  | None => ret tt
  end.

(** [initFromEnv()]: the two environment variables, absent ones [None]. *)
Definition initFromEnv (fs : FileSystem)
    (UNREAL_ENGINE_PATH UNREAL_CUSTOM_CODEBASE : option string) : M unit :=
  if Js.truthy UNREAL_ENGINE_PATH
  then try_catch (initializePaths fs UNREAL_ENGINE_PATH UNREAL_CUSTOM_CODEBASE)
                 (fun _ => ret tt)
  else ret tt.

(** * Definitions used by the further statements *)

(** What one header yields for a class: the body of the [try] block in the
    file loop of analyzeClass, as a function of the disk. *)
Definition fileYields (fs : FileSystem) (className file : string)
  : option ClassInfo :=
  match fs_read fs file with
  | Some content =>
      if Regex.test (Patterns.classDefAnywhere className) content
      then extractFromContent file className content
      else None
  | None => None
  end.

(** The search paths of analyzeClass as a function of the disk: the custom
    root, then the engine directories that exist. *)
Definition searchPathsOf (fs : FileSystem) (st : Analyzer) : list string :=
  (if Js.truthy (customPath st)
   then [default EmptyString (customPath st)] else [])
  ++ (if Js.truthy (unrealPath st)
      then filter (fun d => fs_exists fs d = true)
             (ueDirs (default EmptyString (unrealPath st)))
      else []).

(** The headers analyzeClass looks at, in the order it reads them. *)
Definition candidateHeaders (fs : FileSystem) (st : Analyzer) : list string :=
  concat (map (fun p => fs_glob fs headerGlob p headerIgnore)
            (searchPathsOf fs st)).

(** The first record the headers [files] yield, if any. *)
Definition firstYield (fs : FileSystem) (className : string)
    (files : list string) : option ClassInfo :=
  head (omap (fileYields fs className) files).

(** Every cached record bears the name it is cached under. *)
Definition cacheKeyed (st : Analyzer) : Prop :=
  ∀ n info, classCache st !! n = Some info → name info = n.

(** What a resolution that misses the cache answers, as a function of the
    disk: no search path, the first record the candidate headers yield,
    or no such class. *)
Definition missAnswer (fs : FileSystem) (st : Analyzer) (className : string)
  : res ClassInfo :=
  match searchPathsOf fs st with
  | [] => Err NoSearchPath
  | _ :: _ =>
      match firstYield fs className (candidateHeaders fs st) with
      | Some info => Ok info
      | None => Err (ClassNotFound className)
      end
  end.

(** A project and an engine tree that both declare AFoo, with different
    bases. *)
Definition shadowDisk : FileSystem :=
  Disk.disk [("/proj/Source/AFoo.h", "class AFoo : public AProjectBase {};");
             ("/ue/Engine/Source/Runtime/Engine/AFoo.h",
              "class ENGINE_API AFoo : public AActor {};")]
            ["/proj"; "/ue"; "/ue/Engine"; "/ue/Engine/Source/Runtime"].

Definition shadowAnalyzer : Analyzer :=
  Disk.after (initializeCustomCodebase shadowDisk "/proj")
    (Disk.after (initialize shadowDisk "/ue") newAnalyzer).

(** [f] grows strictly along the list. *)
Definition increasingBy {A} (f : A → nat) (l : list A) : Prop :=
  ∀ i j a b, l !! i = Some a → l !! j = Some b → i < j → f a < f b.

(** [f] never grows along the list. *)
Definition descendingBy {A} (f : A → nat) (l : list A) : Prop :=
  ∀ i j a b, l !! i = Some a → l !! j = Some b → i < j → f b ≤ f a.

(** The text a cursor moves over. *)
Definition subject (z : Regex.cursor) : list ascii :=
  rev (Regex.before z) ++ Regex.after z.

(** What the line loop of searchCode collects in one file (nothing when
    the file cannot be read). *)
Definition fileMatches (fs : FileSystem) (query : Regex.regex)
    (includeComments : bool) (file : string) : list CodeReference :=
  match fs_read fs file with
  | Some content =>
      searchLines file query includeComments
        (Js.split LF content) (Js.split LF content) 0
  | None => []
  end.

(** What the line loop of findReferences collects in one file. *)
Definition fileReferences (fs : FileSystem) (identifier file : string)
  : list CodeReference :=
  match fs_read fs file with
  | Some content =>
      referenceLines file identifier
        (Js.split LF content) (Js.split LF content) 0
  | None => []
  end.

(** The place an entry points at. *)
Definition place (r : CodeReference) : string * nat := (refFile r, refLine r).

(** Every cached API entry is without examples (as the entries
    getOrCreateApiReference synthesizes are). *)
Definition apiWithoutExamples (st : Analyzer) : Prop :=
  ∀ k a, apiCache st !! k = Some a → examples a = [].

(** The options with another [includeExamples]. *)
Definition withExamples (b : option bool) (o : QueryOptions) : QueryOptions :=
  {| optCategory := optCategory o; optModule := optModule o;
     includeExamples := b; maxResults := maxResults o |}.

Definition noOptions : QueryOptions :=
  {| optCategory := None; optModule := None; includeExamples := None;
     maxResults := None |}.

(** The place of a pattern name in a catalogue (its length when the name
    is not in it). *)
Fixpoint rankIn (patterns : list PatternInfo) (n : string) : nat :=
  match patterns with
  | [] => 0
  | p :: rest => if String.eqb (patternName p) n then 0 else S (rankIn rest n)
  end.

Definition patternRank (m : CodePatternMatch) : nat :=
  rankIn UNREAL_PATTERNS (patternName (pattern m)).

(** The order of the matches of detectPatterns: by pattern as in the
    catalogue, then by line. *)
Definition detectedBefore (a b : CodePatternMatch) : Prop :=
  patternRank a < patternRank b
  ∨ (pattern a = pattern b ∧ matchLine a < matchLine b).

(** [s] contains [t]. *)
Definition occursIn (t s : string) : Prop :=
  ∃ pre post, s = pre +:+ t +:+ post.

(** The match detectPatterns pushes for pattern [p] on line [i] (counted
    from 0) of a file. *)
Definition patternMatchAt (p : PatternInfo) (filePath : string)
    (lines : list string) (i : nat) : CodePatternMatch :=
  {| pattern := p; matchFile := filePath; matchLine := i + 1;
     matchContext := patternContextAt lines i;
     suggestedImprovements :=
       analyzePotentialImprovements (patternContextAt lines i) p;
     matchResources := getLearningResources p |}.

(** The class names analyzeSubsystem reads off one header (none when it
    cannot be read). *)
Definition classNamesIn (fs : FileSystem) (file : string) : list string :=
  match fs_read fs file with
  | Some content =>
      map (fun m => Regex.group_or_empty 1 (Regex.m_caps m))
        (Regex.exec_all Patterns.anyClassWithBases content)
  | None => []
  end.

(** The names of the eight subsystems. *)
Definition subsystemNames : list string :=
  ["Rendering"; "Physics"; "Audio"; "Networking"; "Input"; "AI"; "Animation";
   "UI"].

(** A hierarchy with the interfaces of every node dropped. *)
Fixpoint withoutInterfaces (h : ClassHierarchy) : ClassHierarchy :=
  match h with
  | Hierarchy n s _ => Hierarchy n (map withoutInterfaces s) []
  end.

(** No node of the hierarchy lists an interface. *)
Fixpoint noInterfaces (h : ClassHierarchy) : bool :=
  match h with
  | Hierarchy _ s i => (length i =? 0) && forallb noInterfaces s
  end.

(** The outcome of a call with its value mapped. *)
Definition mapResult {A B} (f : A → B) (o : res A * Analyzer * list FsEvent)
  : res B * Analyzer * list FsEvent :=
  (match result o with
   | Ok a => Ok (f a)
   | Err e => Err e
   | Diverge => Diverge
   end, final o, trace o).

(** ** The analyzer as its clients see it *)

(** The calls a client makes on the analyzer (detectPatterns, which
    neither reads nor writes the analyzer, is left out); the depth of
    findClassHierarchy is the bound of the model. *)
Inductive apiCall : Type :=
| CallInitialize (enginePath : string)
| CallInitializeCustomCodebase (path : string)
| CallAnalyzeClass (className : string)
| CallFindClassHierarchy (depth : nat) (className : string)
    (includeInterfaces : bool)
| CallFindReferences (identifier : string) (type : option SymbolKind)
| CallSearchCode (query : Regex.regex) (filePattern : option string)
    (includeComments : option bool)
| CallQueryApiReference (query : string) (o : QueryOptions)
| CallAnalyzeSubsystem (subsystem : string).

(** The analyzer after one call, whatever the call answered. *)
Definition afterCall (fs : FileSystem)
    (entriesOf : gmap string ClassInfo → list (string * ClassInfo))
    (st : Analyzer) (c : apiCall) : Analyzer :=
  match c with
  | CallInitialize p => final (initialize fs p st)
  | CallInitializeCustomCodebase p => final (initializeCustomCodebase fs p st)
  | CallAnalyzeClass n => final (analyzeClass fs n st)
  | CallFindClassHierarchy depth n b => final (findClassHierarchy fs depth n b st)
  | CallFindReferences i t => final (findReferences fs i t st)
  | CallSearchCode q p b => final (searchCode fs q p b st)
  | CallQueryApiReference q o => final (queryApiReference entriesOf q o st)
  | CallAnalyzeSubsystem s => final (analyzeSubsystem fs s st)
  end.

(** The analyzer after a sequence of calls on a new one. *)
Definition afterCalls (fs : FileSystem)
    (entriesOf : gmap string ClassInfo → list (string * ClassInfo))
    (calls : list apiCall) : Analyzer :=
  fold_left (afterCall fs entriesOf) calls newAnalyzer.

(** The entry getOrCreateApiReference synthesizes for a class. *)
Definition apiReferenceOf (classInfo : ClassInfo) : ApiReference :=
  {| apiClassName := name classInfo;
     description := "Class " +:+ name classInfo;
     syntax := generateClassSyntax classInfo;
     examples := [];
     remarks := [];
     relatedClasses := superclasses classInfo ++ interfaces classInfo;
     category := determineCategory classInfo;
     module := determineModule (file classInfo);
     version := "5.0" |}.

(** The flag says that a root is set. *)
Definition flagMeansRoot (st : Analyzer) : Prop :=
  initialized st = true ↔ is_Some (unrealPath st) ∨ is_Some (customPath st).

(** The roots passed the tests of the calls that set them. *)
Definition rootsValidated (fs : FileSystem) (st : Analyzer) : Prop :=
  (∀ p, unrealPath st = Some p →
        fs_exists fs p = true
        ∧ fs_exists fs (path_join p "Engine")
          || fs_exists fs (path_join p "Source") = true)
  ∧ (∀ p, customPath st = Some p → fs_exists fs p = true).

(** Every cached record is what extraction gives for its name from the
    file it names. *)
Definition cacheExtracted (fs : FileSystem) (st : Analyzer) : Prop :=
  ∀ n info, classCache st !! n = Some info →
            ∃ content, fs_read fs (file info) = Some content
                       ∧ extractFromContent (file info) n content = Some info.

(** Every cached API entry is the entry of the cached class of its
    name. *)
Definition apiFromCache (st : Analyzer) : Prop :=
  ∀ k a, apiCache st !! k = Some a →
         ∃ info, classCache st !! k = Some info ∧ a = apiReferenceOf info.

Definition wellFormed (fs : FileSystem) (st : Analyzer) : Prop :=
  flagMeansRoot st ∧ rootsValidated fs st ∧ cacheExtracted fs st
  ∧ apiFromCache st.

(** [st'] is [st] with more classes cached, and nothing else changed. *)
Definition cacheGrown (st st' : Analyzer) : Prop :=
  config st' = config st ∧ apiCache st' = apiCache st
  ∧ classCache st ⊆ classCache st'
  ∧ (cacheKeyed st → cacheKeyed st').

(** ** The tool dispatcher (index.ts) *)

(** The handlers of the server, one for each tool. *)
Inductive handler : Type :=
| HandleDetectPatterns | HandleGetBestPractices
| HandleSetUnrealPath | HandleSetCustomCodebase
| HandleAnalyzeClass | HandleFindClassHierarchy | HandleFindReferences
| HandleSearchCode | HandleAnalyzeSubsystem | HandleQueryApi
| HandleSearchUEDocs | HandleGetUEDocPage | HandleGetClassDocs
| HandleSearchGoogle.

Definition analysisTools : list string :=
  ["analyze_class"; "find_class_hierarchy"; "find_references"; "search_code";
   "analyze_subsystem"; "query_api"].

(** The [switch] on the name of the tool. *)
Definition handlerOf (toolName : string) : option handler :=
  if String.eqb toolName "detect_patterns" then Some HandleDetectPatterns
  else if String.eqb toolName "get_best_practices" then Some HandleGetBestPractices
  else if String.eqb toolName "set_unreal_path" then Some HandleSetUnrealPath
  else if String.eqb toolName "set_custom_codebase" then Some HandleSetCustomCodebase
  else if String.eqb toolName "analyze_class" then Some HandleAnalyzeClass
  else if String.eqb toolName "find_class_hierarchy" then Some HandleFindClassHierarchy
  else if String.eqb toolName "find_references" then Some HandleFindReferences
  else if String.eqb toolName "search_code" then Some HandleSearchCode
  else if String.eqb toolName "analyze_subsystem" then Some HandleAnalyzeSubsystem
  else if String.eqb toolName "query_api" then Some HandleQueryApi
  else if String.eqb toolName "search_ue_docs" then Some HandleSearchUEDocs
  else if String.eqb toolName "get_ue_doc_page" then Some HandleGetUEDocPage
  else if String.eqb toolName "get_class_docs" then Some HandleGetClassDocs
  else if String.eqb toolName "search_google" then Some HandleSearchGoogle
  else None.

(** Where a request for a tool goes: the guard throws, the switch throws,
    or a handler takes it. *)
Inductive dispatched : Type :=
| NoCodebaseInitialized
| UnknownTool (toolName : string)
| HandledBy (h : handler).

(** The request handler up to the call of the tool's handler: the guard on
    the analysis tools, then the switch. *)
Definition dispatch (toolName : string) (st : Analyzer) : dispatched :=
  if existsb (String.eqb toolName) analysisTools
     && negb (isInitialized st)
     && negb (String.eqb toolName "set_unreal_path")
     && negb (String.eqb toolName "set_custom_codebase")
  then NoCodebaseInitialized
  else
    match handlerOf toolName with
    | Some h => HandledBy h
    | None => UnknownTool toolName
    end.

(** The handlers of the analysis tools. *)
Definition analysisHandler (h : handler) : bool :=
  match h with
  | HandleAnalyzeClass | HandleFindClassHierarchy | HandleFindReferences
  | HandleSearchCode | HandleAnalyzeSubsystem | HandleQueryApi => true
  | _ => false
  end.

(** The analyzer calls an analysis handler can make. *)
Definition callOf (h : handler) (c : apiCall) : bool :=
  match h, c with
  | HandleSetUnrealPath, CallInitialize _
  | HandleSetCustomCodebase, CallInitializeCustomCodebase _
  | HandleAnalyzeClass, CallAnalyzeClass _
  | HandleFindClassHierarchy, CallFindClassHierarchy _ _ _
  | HandleFindReferences, CallFindReferences _ _
  | HandleSearchCode, CallSearchCode _ _ _
  | HandleAnalyzeSubsystem, CallAnalyzeSubsystem _
  | HandleQueryApi, CallQueryApiReference _ _ => true
  | _, _ => false
  end.

(** Whether a call throws [e]. *)
Definition throws (fs : FileSystem)
    (entriesOf : gmap string ClassInfo → list (string * ClassInfo))
    (c : apiCall) (st : Analyzer) (e : error) : Prop :=
  match c with
  | CallInitialize p => result (initialize fs p st) = Err e
  | CallInitializeCustomCodebase p =>
      result (initializeCustomCodebase fs p st) = Err e
  | CallAnalyzeClass n => result (analyzeClass fs n st) = Err e
  | CallFindClassHierarchy depth n b =>
      result (findClassHierarchy fs depth n b st) = Err e
  | CallFindReferences i t => result (findReferences fs i t st) = Err e
  | CallSearchCode q p b => result (searchCode fs q p b st) = Err e
  | CallQueryApiReference q o =>
      result (queryApiReference entriesOf q o st) = Err e
  | CallAnalyzeSubsystem s => result (analyzeSubsystem fs s st) = Err e
  end.

(** ** Further examples *)

(** The project analyzer after AFoo has been resolved. *)
Definition cachedAnalyzer : Analyzer :=
  Disk.after (analyzeClass projectDisk "AFoo") projectAnalyzer.

(** Another record that bears the name UObject. *)
Definition objectInfoMoved : ClassInfo :=
  {| name := "UObject";
     file := "/proj/Object.h";
     line := 7;
     superclasses := [];
     interfaces := ["IMoved"];
     methods := [];
     properties := [];
     comments := [] |}.

(** A constructor that creates a component without naming the root. *)
Definition componentSource : string :=
  Js.join NL ["AFoo::AFoo()"; "{";
              "  Mesh = CreateDefaultSubobject<UStaticMeshComponent>(TEXT(Mesh));";
              "}"].

(** The analyzer with the engine tree as its root. *)
Definition engineAnalyzer : Analyzer :=
  Disk.after (initialize engineDisk "/ue") newAnalyzer.

(** The same root, written with a slash at its end. *)
Definition engineAnalyzerSlash : Analyzer :=
  {| unrealPath := Some "/ue/"; customPath := None; classCache := ∅;
     apiCache := ∅; initialized := true |}.

(** A session on the project. *)
Definition projectSession : list apiCall :=
  [CallInitialize "/nowhere"; CallInitializeCustomCodebase "/proj";
   CallAnalyzeClass "AFoo"; CallQueryApiReference "foo" noOptions;
   CallFindClassHierarchy 3 "AFoo" true].

(** ** The searches as the specification words them *)

(** The white space of ASCII text: tab, line feed, vertical tab, form
    feed, carriage return, space. *)
Definition asciiWhiteSpace : list ascii :=
  [ascii_of_nat 9; ascii_of_nat 10; ascii_of_nat 11; ascii_of_nat 12;
   ascii_of_nat 13; ascii_of_nat 32].

(** A line whose text, after the white space it starts with, begins with
    the opener of a line comment or of a block comment. *)
Definition CommentLine (l : string) : Prop :=
  ∃ ws rest,
    Forall (fun c => c ∈ asciiWhiteSpace) ws
    ∧ (l = Js.str ws +:+ "//" +:+ rest ∨ l = Js.str ws +:+ "/*" +:+ rest).

(** The same as a test: the text after the leading white space is looked
    at, character by character. *)
Fixpoint afterWhiteSpace (l : list ascii) : list ascii :=
  match l with
  | c :: l' =>
      if bool_decide (c ∈ asciiWhiteSpace) then afterWhiteSpace l' else l
  | [] => []
  end.

Definition opensComment (l : string) : bool :=
  match afterWhiteSpace (Js.chars l) with
  | "/"%char :: "/"%char :: _ => true
  | "/"%char :: "*"%char :: _ => true
  | _ => false
  end.

(** The lines of a file, none when it cannot be read. *)
Definition linesOfFile (fs : FileSystem) (file : string) : list string :=
  match fs_read fs file with
  | Some content => Js.split LF content
  | None => []
  end.

(** The places (file, line number counted from 1) of the lines that pass a
    test, in the order of the lines. *)
Definition linePlaces (reported : string → bool) (file : string)
    (lines : list string) : list (string * nat) :=
  omap id (imap (fun i l => if reported l then Some (file, i + 1) else None)
             lines).

(** What a reference search is to report, before the cap: under the custom
    root, or under the engine root when there is no custom root, the lines
    of the source files that hold the identifier as a whole word, file by
    file in the order of the glob. *)
Definition referencePlaces (fs : FileSystem) (identifier : string)
    (st : Analyzer) : list (string * nat) :=
  let root :=
    if Js.truthy (customPath st) then customPath st else unrealPath st in
  concat
    ((fun file =>
        linePlaces (Regex.test (Patterns.wholeWord identifier)) file
          (linesOfFile fs file))
     <$> fs_glob fs sourceGlob (default EmptyString root) sourceIgnore).

(** The directories a text search goes through: the custom root, the
    engine root and, for a search of shaders, the shader directories of
    the engine that exist. *)
Definition textRoots (fs : FileSystem) (filePattern : string) (st : Analyzer)
  : list string :=
  (if Js.truthy (customPath st)
   then [default EmptyString (customPath st)] else [])
  ++ (if Js.truthy (unrealPath st)
      then
        let root := default EmptyString (unrealPath st) in
        root
        :: (if Js.includes filePattern "usf" || Js.includes filePattern "ush"
            then filter (fun d => fs_exists fs d = true)
                   [path_join (path_join root "Engine") "Shaders";
                    path_join root "Shaders"]
            else [])
      else []).

(** The files a text search reads: what the glob gives under each of its
    directories, every file once. *)
Definition textFiles (fs : FileSystem) (filePattern : string) (st : Analyzer)
  : list string :=
  Js.dedup
    (concat ((fun root => fs_glob fs ("**/" +:+ filePattern) root sourceIgnore)
             <$> textRoots fs filePattern st)).

(** What a text search is to report, before the cap: the lines of those
    files that the query matches, comment lines left out when comments are
    excluded. *)
Definition matchPlaces (fs : FileSystem) (query : Regex.regex)
    (filePattern : option string) (includeComments : option bool)
    (st : Analyzer) : list (string * nat) :=
  concat
    ((fun file =>
        linePlaces
          (fun l => Regex.test query l
                    && (default true includeComments
                        || negb (opensComment l)))
          file (linesOfFile fs file))
     <$> textFiles fs (default defaultFilePattern filePattern) st).

(** Every file that can be read holds ASCII text. *)
Definition asciiFiles (fs : FileSystem) : Prop :=
  ∀ file content, fs_read fs file = Some content → Js.isAscii content = true.

(** A source file in which a comment opener comes after white space, and
    a matching line that is no comment. *)
Definition indentedLines : list string :=
  ["  // Spawn here"; String (ascii_of_nat 9) "/* Spawn */"; "  Spawn();";
   "x /* Spawn */"].

Definition indentedDisk : FileSystem :=
  Disk.disk [("/proj/Indented.cpp", Js.join NL indentedLines)] ["/proj"].

Definition indentedAnalyzer : Analyzer :=
  Disk.after (initializeCustomCodebase indentedDisk "/proj") newAnalyzer.

(** * Properties *)

(** ** The matcher on the lines it is written for *)

(** The export macro is found by backtracking out of the greedy word; the
    inheritance clause is group 1. *)
Example classDefLine_on_fooLine :
  groupsOf (Regex.exec (Patterns.classDefLine "AFoo") fooLine)
  = Some (0, [(1, "public AActor, public IInterfaceX")]).
Proof. vm_compute; reflexivity. Qed.

(** The pattern is anchored at the start of the line, ignores case, and
    asks for nothing after the name: a forward declaration and a longer
    name match too, without group 1. *)
Example classDefLine_is_lenient :
  groupsOf (Regex.exec (Patterns.classDefLine "AFoo")
              "  UCLASS(Blueprintable) class afoo : public X {")
  = Some (0, [(1, "public X {")])
  ∧ groupsOf (Regex.exec (Patterns.classDefLine "AFoo") "class AFoo;")
    = Some (0, [])
  ∧ groupsOf (Regex.exec (Patterns.classDefLine "AFoo") "class AFooBar : public X")
    = Some (0, [])
  ∧ Regex.exec (Patterns.classDefLine "AFoo") "friend class AFoo;" = None.
Proof. repeat split; vm_compute; reflexivity. Qed.

(** The cheap test of analyzeClass wants a colon or a brace after the
    name, possibly on a later line. *)
Example classDefAnywhere_wants_body :
  Regex.test (Patterns.classDefAnywhere "AFoo") "class AFoo;" = false
  ∧ Regex.test (Patterns.classDefAnywhere "AFoo")
      (Js.join NL ["class AFoo"; "{"; "};"]) = true.
Proof. split; vm_compute; reflexivity. Qed.

Example wholeWord_wants_boundaries :
  Regex.test (Patterns.wholeWord "Foo") "x = Foo(1);" = true
  ∧ Regex.test (Patterns.wholeWord "Foo") "x = FooBar(1);" = false
  ∧ Regex.test (Patterns.wholeWord "Foo") "x = MyFoo;" = false.
Proof. repeat split; vm_compute; reflexivity. Qed.

(** The trailing brace is cut off before the clause is split. *)
Example parseInheritance_examples :
  parseInheritance "public AActor, public IInterfaceX {" = (["AActor"], ["IInterfaceX"])
  ∧ parseInheritance "public UObject, protected IFoo, UBar, virtual public IntBox"
    = (["UObject"; "IntBox"], ["IFoo"])
  ∧ parseInheritance "" = ([], []).
Proof. repeat split; vm_compute; reflexivity. Qed.

Example extraction_of_fooHeader :
  extractFromContent "/proj/AFoo.h" "AFoo"
    (Js.join NL [fooHeader; "  UPROPERTY(EditAnywhere)"; "  TArray<int> Items;";
                 "  virtual void Tick(float Dt) override;"])
  = Some {| name := "AFoo"; file := "/proj/AFoo.h"; line := 4;
            superclasses := ["AActor"]; interfaces := ["IInterfaceX"];
            methods := [{| methodName := "Tick"; returnType := "void";
                           parameters := []; isVirtual := true;
                           isOverride := true; methodVisibility := Public;
                           methodComments := []; methodLine := 10 |}];
            properties := [{| propName := "Items"; propType := "TArray<int>";
                              propVisibility := Public; propComments := [];
                              propLine := 8 |}];
            comments := [] |}.
Proof. vm_compute; reflexivity. Qed.

(** ** String primitives against their meaning *)

Lemma startsWith_spec (s p : string) :
  Js.startsWith s p = true ↔ ∃ t, s = p +:+ t.
Proof.
  revert s. induction p as [|a p IH]; intros s.
  - split; [intros _; by exists s | by destruct s].
  - destruct s as [|b s]; simpl.
    + split; [done | intros [t Ht]; discriminate].
    + rewrite andb_true_iff, IH. unfold Chr.eqb. rewrite Ascii.eqb_eq. split.
      * intros [-> [t ->]]. by exists t.
      * intros [t Ht]. injection Ht as -> ->. split; [done | by exists t].
Qed.

(** ** Inheritance clauses *)

Lemma isInterfaceName_rule (baseName : string) :
  isInterfaceName baseName = true ↔ InterfaceRule baseName.
Proof.
  unfold isInterfaceName, InterfaceRule.
  rewrite !andb_true_iff, !negb_true_iff, <- !startsWith_spec.
  rewrite <- not_true_iff_false, String.eqb_eq, <- not_true_iff_false.
  tauto.
Qed.

Lemma classifyBases_filter (entries supers ifaces : list string) :
  classifyBases entries supers ifaces =
  (supers ++ filter (fun n => isInterfaceName n = false) (omap baseNameOf entries),
   ifaces ++ filter (fun n => isInterfaceName n = true) (omap baseNameOf entries)).
Proof.
  revert supers ifaces.
  induction entries as [|e entries IH]; intros supers ifaces; simpl.
  - by rewrite !app_nil_r.
  - destruct (baseNameOf e) as [n|] eqn:Hn; simpl; [|apply IH].
    destruct (isInterfaceName n) eqn:Hi; rewrite IH.
    + rewrite filter_cons_False by congruence.
      rewrite filter_cons_True by done. by rewrite <- app_assoc.
    + rewrite filter_cons_True by done.
      rewrite filter_cons_False by congruence. by rewrite <- app_assoc.
Qed.

(** C2.  Every base name read off an inheritance clause goes to the
    interface list exactly when it starts with I, is not IInterface and
    does not start with Int, and to the superclass list otherwise; the two
    lists are the two halves of the extracted names, in order.  IntBox and
    IInterface are superclasses. *)
Theorem base_classified_by_interface_rule (inheritancePart : string) :
  let names := extractedBaseNames inheritancePart in
  let supers := (parseInheritance inheritancePart).1 in
  let ifaces := (parseInheritance inheritancePart).2 in
  ifaces = filter (fun n => isInterfaceName n = true) names
  ∧ supers = filter (fun n => isInterfaceName n = false) names
  ∧ (∀ baseName, baseName ∈ names →
       (baseName ∈ ifaces ↔ InterfaceRule baseName)
       ∧ (baseName ∈ supers ↔ ¬ InterfaceRule baseName))
  ∧ parseInheritance "public IntBox" = (["IntBox"], [])
  ∧ parseInheritance "public IInterface" = (["IInterface"], []).
Proof.
  unfold parseInheritance, extractedBaseNames.
  rewrite classifyBases_filter. simpl.
  split; [done|]. split; [done|]. split.
  - intros baseName Hin. rewrite !list_elem_of_filter.
    rewrite <- isInterfaceName_rule. split; [tauto|].
    rewrite not_true_iff_false. tauto.
  - split; vm_compute; reflexivity.
Qed.

(** The clause of a class with three bases, one of each kind. *)
Lemma base_classified_by_interface_rule_witness :
  "IntBox" ∈ extractedBaseNames "public IntBox, public IFoo, public IInterface"
  ∧ ("IntBox" ∈ (parseInheritance "public IntBox, public IFoo, public IInterface").1
     ↔ ¬ InterfaceRule "IntBox").
Proof.
  pose proof (base_classified_by_interface_rule
                "public IntBox, public IFoo, public IInterface") as H.
  destruct H as (_ & _ & H & _).
  assert (Hin : "IntBox" ∈ extractedBaseNames
                  "public IntBox, public IFoo, public IInterface")
    by (vm_compute; apply list_elem_of_here).
  split; [exact Hin | exact (proj2 (H "IntBox" Hin))].
Defined.

(** ** Class extraction *)

Lemma findClassLine_first (pat : Regex.regex) (pre post : list string)
    (l : string) (m : Regex.found) (i : nat) :
  Forall (fun x => Regex.exec pat x = None) pre →
  Regex.exec pat l = Some m →
  findClassLine pat (pre ++ l :: post) i
  = Some (S (i + length pre), Regex.group_or_empty 1 (Regex.m_caps m)).
Proof.
  intros Hpre Hl. revert i.
  induction Hpre as [|x pre Hx _ IH]; intros i; simpl.
  - rewrite Hl. do 3 f_equal. lia.
  - rewrite Hx, IH. do 3 f_equal. lia.
Qed.

(** C1, as stated, fails: the header contains the declaration line, yet its
    first line matching the class pattern is the forward declaration, which
    has no inheritance clause, so both lists come out empty. *)
Lemma forward_declaration_wins :
  fs_read forwardDeclDisk "/proj/AFoo.h" = Some forwardDeclHeader
  ∧ fooLine ∈ Js.split LF forwardDeclHeader
  ∧ ∃ info,
      result (extractClassInfoWithRegex forwardDeclDisk "/proj/AFoo.h" "AFoo"
                newAnalyzer)
      = Ok (Some info)
      ∧ line info = 2 ∧ superclasses info = [] ∧ interfaces info = []
      ∧ superclasses info ≠ ["AActor"] ∧ interfaces info ≠ ["IInterfaceX"].
Proof.
  split; [reflexivity|]. split.
  - vm_compute. do 2 apply list_elem_of_further. apply list_elem_of_here.
  - eexists. split; [vm_compute; reflexivity|]. by simpl.
Qed.

Lemma findClassLine_some (pat : Regex.regex) (lines : list string)
    (l : string) (i : nat) :
  l ∈ lines → is_Some (Regex.exec pat l) → is_Some (findClassLine pat lines i).
Proof.
  intros Hin Hl. revert i.
  induction Hin as [l lines | l x lines Hin IH]; intros i; simpl.
  - by destruct Hl as [m ->].
  - destruct (Regex.exec pat x); [done | apply IH, Hl].
Qed.

(** C1 (amended).  For a readable header that contains the declaration
    line of AFoo, extraction for AFoo succeeds; when that line is the first
    line of the header that matches the class pattern, the record has
    superclasses [AActor] and interfaces [IInterfaceX], at that line. *)
Theorem extraction_of_first_declaration
    (fs : FileSystem) (filePath content : string) (st : Analyzer) :
  fs_read fs filePath = Some content →
  (fooLine ∈ Js.split LF content →
   ∃ info,
     extractClassInfoWithRegex fs filePath "AFoo" st
     = (Ok (Some info), st, [EvRead filePath])
     ∧ name info = "AFoo" ∧ file info = filePath)
  ∧ (∀ pre post,
       Js.split LF content = pre ++ fooLine :: post →
       Forall (fun l => Regex.exec (Patterns.classDefLine "AFoo") l = None) pre →
       ∃ info,
         extractClassInfoWithRegex fs filePath "AFoo" st
         = (Ok (Some info), st, [EvRead filePath])
         ∧ name info = "AFoo" ∧ file info = filePath
         ∧ line info = S (length pre)
         ∧ superclasses info = ["AActor"]
         ∧ interfaces info = ["IInterfaceX"]).
Proof.
  intros Hread.
  assert (Hm : ∃ m, Regex.exec (Patterns.classDefLine "AFoo") fooLine = Some m
                    ∧ Regex.group_or_empty 1 (Regex.m_caps m)
                      = "public AActor, public IInterfaceX")
    by (eexists; split; vm_compute; reflexivity).
  destruct Hm as (m & Hm & Hg).
  unfold extractClassInfoWithRegex, try_catch, bind, readFileSync, ret.
  rewrite Hread. unfold extractFromContent. split.
  - intros Hin.
    destruct (findClassLine_some (Patterns.classDefLine "AFoo")
                (Js.split LF content) fooLine 0 Hin) as [[n part] ->];
      [by rewrite Hm|].
    destruct (parseInheritance part) as [supers ifaces].
    eexists. split; [reflexivity|]. done.
  - intros pre post Hsplit Hpre. rewrite Hsplit.
    rewrite (findClassLine_first _ pre post fooLine m 0 Hpre Hm), Hg.
    replace (parseInheritance "public AActor, public IInterfaceX")
      with (["AActor"], ["IInterfaceX"]) by (vm_compute; reflexivity).
    eexists. split; [reflexivity|]. simpl. done.
Qed.

(** The amended C1 on a disk holding that header. *)
Lemma extraction_of_first_declaration_witness :
  ∃ info,
    extractClassInfoWithRegex
      (Disk.disk [("/proj/AFoo.h", fooHeader)] ["/proj"])
      "/proj/AFoo.h" "AFoo" newAnalyzer
    = (Ok (Some info), newAnalyzer, [EvRead "/proj/AFoo.h"])
    ∧ name info = "AFoo" ∧ file info = "/proj/AFoo.h"
    ∧ line info = 4
    ∧ superclasses info = ["AActor"]
    ∧ interfaces info = ["IInterfaceX"].
Proof.
  apply (proj2 (extraction_of_first_declaration
                  (Disk.disk [("/proj/AFoo.h", fooHeader)] ["/proj"])
                  "/proj/AFoo.h" fooHeader newAnalyzer eq_refl)
           ["// Copyright"; "#include <Actor.h>"; "UCLASS()"]
           ["{"; "  GENERATED_BODY()"; "};"]).
  - vm_compute; reflexivity.
  - repeat (constructor; [vm_compute; reflexivity|]). constructor.
Defined.

(** ** Class resolution and its cache *)

Section Resolution.
Variable fs : FileSystem.

Lemma existingDirs_uniform (dirs : list string) :
  ∃ l tr, ∀ st, existingDirs fs dirs st = (Ok l, st, tr).
Proof.
  induction dirs as [|d dirs (l & tr & IH)]; simpl.
  - by exists [], [].
  - exists (if fs_exists fs d then d :: l else l), (EvExists d :: tr ++ []).
    intros st. unfold bind, existsSync, ret. by rewrite IH.
Qed.

Lemma classSearchPaths_uniform (st : Analyzer) :
  ∃ l tr, ∀ st2, config st2 = config st →
    classSearchPaths fs st2 = (Ok l, st2, tr).
Proof.
  destruct (unrealPath st) as [root|] eqn:Hu.
  - destruct (Js.truthy (Some root)) eqn:Ht.
    + destruct (existingDirs_uniform (ueDirs root)) as (l & tr & Hd).
      eexists _, _. intros st2 [= Hu2 Hc2 _].
      unfold classSearchPaths, bind, get, ret. cbv beta iota zeta.
      rewrite Hu2, Hc2, Hu, Ht, Hd. reflexivity.
    + eexists _, _. intros st2 [= Hu2 Hc2 _].
      unfold classSearchPaths, bind, get, ret. cbv beta iota zeta.
      rewrite Hu2, Hc2, Hu, Ht. reflexivity.
  - eexists _, _. intros st2 [= Hu2 Hc2 _].
    unfold classSearchPaths, bind, get, ret. cbv beta iota zeta.
    rewrite Hu2, Hc2, Hu. reflexivity.
Qed.

Lemma extract_uniform (file className : string) :
  ∃ o tr, ∀ st, extractClassInfoWithRegex fs file className st = (Ok o, st, tr).
Proof.
  unfold extractClassInfoWithRegex, try_catch, bind, readFileSync, ret.
  destruct (fs_read fs file); eexists _, _; intros st; reflexivity.
Qed.

(** A scan does not read the analyzer: its answer and its file-system
    calls are the same from every state, and it only adds its answer to
    the cache. *)
Lemma scanFiles_uniform (className : string) (files : list string) :
  ∃ hit tr, ∀ st,
    scanFiles fs className files st = (Ok hit, cached className hit st, tr).
Proof.
  induction files as [|f files (hit & tr & IH)]; simpl.
  - exists None, []. done.
  - destruct (extract_uniform f className) as (o & tre & He).
    unfold bind at 1. unfold try_catch, bind, readFileSync.
    destruct (fs_read fs f) as [content|].
    + destruct (Regex.test _ content).
      * destruct o as [info|].
        -- exists (Some info). eexists. intros st. rewrite He.
           unfold cacheClass, bind, get, put, ret. simpl. reflexivity.
        -- exists hit. eexists. intros st. rewrite He. unfold ret.
           rewrite IH. reflexivity.
      * exists hit. eexists. intros st. unfold ret. rewrite IH. reflexivity.
    + exists hit. eexists. intros st. unfold ret. rewrite IH. reflexivity.
Qed.

Lemma scanSearchPaths_uniform (className : string) (paths : list string) :
  ∃ hit tr, ∀ st,
    scanSearchPaths fs className paths st
    = (Ok hit, cached className hit st, tr).
Proof.
  induction paths as [|p paths (hit & tr & IH)]; simpl.
  - exists None, []. done.
  - destruct (scanFiles_uniform className
                (fs_glob fs headerGlob p headerIgnore)) as (h1 & t1 & H1).
    destruct h1 as [info|].
    + exists (Some info). eexists. intros st.
      unfold bind, glob. rewrite H1. unfold ret. reflexivity.
    + exists hit. eexists. intros st.
      unfold bind, glob. rewrite H1. simpl. rewrite IH. reflexivity.
Qed.

Lemma analyzeClass_miss (className : string) (st : Analyzer) :
  initialized st = true →
  ∃ r tr, r ≠ Diverge ∧ ∀ st2,
    config st2 = config st → classCache st2 !! className = None →
    analyzeClass fs className st2 = (r, stored className r st2, tr).
Proof.
  intros Hinit.
  destruct (classSearchPaths_uniform st) as (paths & trp & Hp).
  destruct (scanSearchPaths_uniform className paths) as (hit & trs & Hs).
  destruct paths as [|p paths].
  - exists (Err NoSearchPath). eexists. split; [done|].
    intros st2 Hc Hmiss. unfold analyzeClass, bind, get.
    assert (initialized st2 = true) as -> by (injection Hc; congruence).
    simpl. rewrite Hmiss, (Hp st2 Hc). reflexivity.
  - destruct hit as [info|].
    + exists (Ok info). eexists. split; [done|].
      intros st2 Hc Hmiss. unfold analyzeClass, bind, get.
      assert (initialized st2 = true) as -> by (injection Hc; congruence).
      simpl. rewrite Hmiss, (Hp st2 Hc), Hs. reflexivity.
    + exists (Err (ClassNotFound className)). eexists. split; [done|].
      intros st2 Hc Hmiss. unfold analyzeClass, bind, get.
      assert (initialized st2 = true) as -> by (injection Hc; congruence).
      simpl. rewrite Hmiss, (Hp st2 Hc), Hs. reflexivity.
Qed.

Lemma analyzeClass_hit (className : string) (info : ClassInfo) (st : Analyzer) :
  initialized st = true → classCache st !! className = Some info →
  analyzeClass fs className st = (Ok info, st, []).
Proof.
  intros Hinit Hhit. unfold analyzeClass, bind, get.
  rewrite Hinit. simpl. rewrite Hhit. reflexivity.
Qed.

Lemma analyzeClass_uninitialized (className : string) (st : Analyzer) :
  initialized st = false →
  analyzeClass fs className st = (Err NotInitialized, st, []).
Proof.
  intros Hinit. unfold analyzeClass, bind, get. rewrite Hinit. reflexivity.
Qed.

(** The three ways a resolution can go. *)
Lemma analyzeClass_cases (className : string) (st : Analyzer) :
  analyzeClass fs className st = (Err NotInitialized, st, [])
  ∨ (∃ info, initialized st = true ∧ classCache st !! className = Some info
             ∧ analyzeClass fs className st = (Ok info, st, []))
  ∨ (∃ r tr, initialized st = true ∧ classCache st !! className = None
             ∧ r ≠ Diverge
             ∧ analyzeClass fs className st = (r, stored className r st, tr)).
Proof.
  destruct (initialized st) eqn:Hinit.
  - destruct (classCache st !! className) as [info|] eqn:Hc.
    + right; left. exists info. auto using analyzeClass_hit.
    + right; right.
      destruct (analyzeClass_miss className st Hinit) as (r & tr & Hr & H).
      exists r, tr. auto.
  - left. by apply analyzeClass_uninitialized.
Qed.

(** C5.  A successful resolution is answered from the cache the next
    time: the second call returns the same record, leaves the analyzer
    as it is and makes no file-system call (no glob, no read, no
    existence test). *)
Theorem analyzeClass_cached_second_call
    (className : string) (st st' : Analyzer) (info : ClassInfo)
    (calls : list FsEvent) :
  analyzeClass fs className st = (Ok info, st', calls) →
  analyzeClass fs className st' = (Ok info, st', []).
Proof.
  intros Hrun.
  destruct (analyzeClass_cases className st)
    as [H | [(i & Hinit & Hc & H) | (r & tr & Hinit & Hc & _ & H)]];
    rewrite H in Hrun.
  - discriminate.
  - injection Hrun as -> <- _. exact H.
  - injection Hrun as -> <- _. simpl.
    apply analyzeClass_hit; simpl; [done|]. apply lookup_insert_eq.
Qed.

(** ** Hierarchies *)

Lemma sameResolution_refl st : sameResolution fs st st.
Proof. by split. Qed.

Lemma sameResolution_trans st1 st2 st3 :
  sameResolution fs st1 st2 → sameResolution fs st2 st3 → sameResolution fs st1 st3.
Proof.
  intros [Hc1 Hr1] [Hc2 Hr2]. split; [congruence|].
  intros n. by rewrite Hr2, Hr1.
Qed.

Lemma resolution_not_diverge st n : resolution fs st n ≠ Diverge.
Proof.
  unfold resolution.
  destruct (analyzeClass_cases n st)
    as [H | [(i & _ & _ & H) | (r & tr & _ & _ & Hr & H)]];
    rewrite H; simpl; done.
Qed.

(** Resolving a name changes the answer for no name. *)
Lemma analyzeClass_sameResolution (className : string) (st : Analyzer) :
  sameResolution fs st (final (analyzeClass fs className st)).
Proof.
  destruct (analyzeClass_cases className st)
    as [H | [(i & _ & _ & H) | (r & tr & Hinit & Hmiss & _ & H)]];
    rewrite H; simpl; try apply sameResolution_refl.
  destruct r as [info| |]; simpl; try apply sameResolution_refl.
  split; [done|]. intros n. unfold resolution.
  destruct (decide (n = className)) as [->|Hne].
  - rewrite H. simpl. rewrite analyzeClass_hit with (info := info); simpl;
      [done | done | apply lookup_insert_eq].
  - destruct (classCache st !! n) as [j|] eqn:Hn.
    + rewrite (analyzeClass_hit n j st Hinit Hn).
      rewrite analyzeClass_hit with (info := j); simpl; [done | done |].
      by rewrite lookup_insert_ne.
    + destruct (analyzeClass_miss n st Hinit) as (r' & tr' & _ & Hr').
      rewrite (Hr' st eq_refl Hn).
      rewrite Hr'; simpl; [done | done |]. by rewrite lookup_insert_ne.
Qed.

Section Expand.
Variable st0 : Analyzer.
Variable expand : string → M ClassHierarchy.
Variable subtree : string → res ClassHierarchy.

Hypothesis expand_same : ∀ s st,
  sameResolution fs st0 st → sameResolution fs st0 (final (expand s st)).
Hypothesis expand_subtree : ∀ s st,
  sameResolution fs st0 st → result (expand s st) = subtree s.

(** The loop over the superclasses computes [specSubtrees]. *)
Lemma expandSuperclasses_refines (todo : list string) :
  ∀ (acc : list ClassHierarchy) (st : Analyzer),
    sameResolution fs st0 st →
    let out := expandSuperclasses expand todo acc st in
    sameResolution fs st0 (final out)
    ∧ result out = match specSubtrees subtree todo with
                   | Ok nodes => Ok (acc ++ nodes)
                   | Err e => Err e
                   | Diverge => Diverge
                   end.
Proof.
  induction todo as [|s todo IH]; intros acc st Hst; simpl.
  - split; [done|]. by rewrite app_nil_r.
  - unfold bind, try_catch.
    pose proof (expand_same s st Hst) as Hsame.
    pose proof (expand_subtree s st Hst) as Hsub.
    destruct (expand s st) as [[r st1] t1]. simpl in Hsame, Hsub.
    rewrite <- Hsub.
    destruct r as [node|e|]; simpl; [| |done].
    + specialize (IH (acc ++ [node]) st1 Hsame). simpl in IH.
      destruct (expandSuperclasses expand todo (acc ++ [node]) st1)
        as [[r2 st2] t2]. simpl in *.
      destruct IH as [IHs ->]. split; [done|].
      destruct (specSubtrees subtree todo); [|done|done].
      by rewrite <- app_assoc.
    + specialize (IH (acc ++ [leafHierarchy s]) st1 Hsame). simpl in IH.
      destruct (expandSuperclasses expand todo (acc ++ [leafHierarchy s]) st1)
        as [[r2 st2] t2]. simpl in *.
      destruct IH as [IHs ->]. split; [done|].
      destruct (specSubtrees subtree todo); [|done|done].
      by rewrite <- app_assoc.
Qed.
End Expand.

(** The recursion computes [specHierarchy], from every analyzer that
    resolves names as the initial one does. *)
Lemma findClassHierarchy_refines (includeInterfaces : bool) (st0 : Analyzer)
    (fuel : nat) :
  ∀ (className : string) (st : Analyzer),
    sameResolution fs st0 st →
    let out := findClassHierarchy fs fuel className includeInterfaces st in
    sameResolution fs st0 (final out)
    ∧ result out = specHierarchy fs st0 includeInterfaces fuel className.
Proof.
  induction fuel as [|fuel IH]; intros className st Hst; simpl.
  - done.
  - unfold bind.
    pose proof (analyzeClass_sameResolution className st) as Hsame.
    destruct Hst as [Hcfg Hres]. pose proof (Hres className) as Hcls.
    unfold resolution at 1 in Hcls.
    destruct (analyzeClass fs className st) as [[r st1] t1].
    simpl in Hsame, Hcls. rewrite <- Hcls.
    assert (Hst1 : sameResolution fs st0 st1)
      by (eapply sameResolution_trans; [split|]; eauto).
    destruct r as [info|e|]; simpl; [|done|done].
    pose proof (expandSuperclasses_refines st0
      (fun s => findClassHierarchy fs fuel s includeInterfaces)
      (specHierarchy fs st0 includeInterfaces fuel)
      (fun s st' H => proj1 (IH s st' H))
      (fun s st' H => proj2 (IH s st' H))
      (superclasses info) [] st1 Hst1) as Hloop.
    simpl in Hloop.
    destruct (expandSuperclasses _ (superclasses info) [] st1) as [[r2 st2] t2].
    simpl in *. destruct Hloop as [Hs2 ->].
    by destruct (specSubtrees _ (superclasses info)).
Qed.

Lemma specSubtrees_not_err (subtree : string → res ClassHierarchy)
    (supers : list string) (e : error) :
  specSubtrees subtree supers ≠ Err e.
Proof.
  induction supers as [|s supers IH]; simpl; [done|].
  destruct (subtree s); [| |done];
    by destruct (specSubtrees subtree supers).
Qed.

Lemma specSubtrees_leaves (subtree : string → res ClassHierarchy)
    (supers : list string) (nodes : list ClassHierarchy) :
  specSubtrees subtree supers = Ok nodes →
  length nodes = length supers
  ∧ ∀ i s, supers !! i = Some s → (∀ h, subtree s ≠ Ok h) →
           nodes !! i = Some (Hierarchy s [] []).
Proof.
  revert nodes. induction supers as [|s supers IH]; intros nodes; simpl.
  - intros [= <-]. split; [done|]. by intros i s ?.
  - destruct (subtree s) as [h|e|] eqn:Hs; [| |done];
      (destruct (specSubtrees subtree supers) as [rest| |]; [|done|done];
       intros [= <-]; destruct (IH rest eq_refl) as [Hlen Hleaf];
       split; [by rewrite length_cons, Hlen|];
       intros [|i] s' Hs' Hno; simpl in *; [|by eauto];
       injection Hs' as <-).
    + by destruct (Hno h).
    + done.
Qed.

Lemma specSubtrees_returns (subtree : string → res ClassHierarchy)
    (supers : list string) :
  (∀ s, s ∈ supers → subtree s ≠ Diverge) →
  specSubtrees subtree supers ≠ Diverge.
Proof.
  induction supers as [|s supers IH]; intros Hret; simpl; [done|].
  pose proof (Hret s (list_elem_of_here _ _)) as Hs.
  assert (Hrest : specSubtrees subtree supers ≠ Diverge)
    by (apply IH; intros; apply Hret; by apply list_elem_of_further).
  destruct (subtree s); [| |done];
    by destruct (specSubtrees subtree supers).
Qed.

Lemma specHierarchy_returns (includeInterfaces : bool) (st : Analyzer)
    (fuel : nat) :
  ∀ className,
    hierarchyWithin fs fuel st className = true →
    specHierarchy fs st includeInterfaces fuel className ≠ Diverge.
Proof.
  induction fuel as [|fuel IH]; intros className Hin; simpl in *; [done|].
  destruct (resolution fs st className) as [info|e|]; [|done|done].
  assert (Hsub : specSubtrees (specHierarchy fs st includeInterfaces fuel)
                   (superclasses info) ≠ Diverge).
  { apply specSubtrees_returns. intros s Hs. apply IH.
    rewrite forallb_forall in Hin. apply Hin. by apply list_elem_of_In. }
  by destruct (specSubtrees _ (superclasses info)).
Qed.


End Resolution.

(** ** A project on disk *)

(** An example disk whose files are ASCII text. *)
Lemma disk_asciiFiles (files : list (string * string)) (dirs : list string) :
  forallb (fun f => Js.isAscii f.2) files = true →
  asciiFiles (Disk.disk files dirs).
Proof.
  intros Hall file content. unfold Disk.disk. cbn [fs_read].
  induction files as [|[k v] files IH]; [done|].
  simpl in Hall. apply andb_true_iff in Hall as [Hv Hall].
  cbn [lookupDir]. destruct (String.eqb k file); [|by apply IH].
  by intros [= <-].
Qed.

(** C5 on the project: the first call scans the disk, the second does
    not. *)
Lemma analyzeClass_cached_second_call_witness :
  ∃ info st' calls,
    analyzeClass projectDisk "AFoo" projectAnalyzer = (Ok info, st', calls)
    ∧ EvGlob "**/*.h" "/proj" ∈ calls
    ∧ analyzeClass projectDisk "AFoo" st' = (Ok info, st', []).
Proof.
  assert (H : ∃ info st' calls,
             analyzeClass projectDisk "AFoo" projectAnalyzer = (Ok info, st', calls)
             ∧ EvGlob "**/*.h" "/proj" ∈ calls).
  { eexists _, _, _. split; [vm_compute; reflexivity|]. apply list_elem_of_here. }
  destruct H as (info & st' & calls & Hrun & Hglob).
  exists info, st', calls. split; [exact Hrun|]. split; [exact Hglob|].
  exact (analyzeClass_cached_second_call projectDisk "AFoo" projectAnalyzer
           st' info calls Hrun).
Defined.


Example hierarchy_of_AFoo :
  result (findClassHierarchy projectDisk 2 "AFoo" true projectAnalyzer)
  = Ok (Hierarchy "AFoo" [Hierarchy "AActor" [] []] ["IInterfaceX"]).
Proof. vm_compute; reflexivity. Qed.

(** ** Reference and text search *)

Section Search.
Variable fs : FileSystem.

(** The loop pushes exactly the entries of the lines that pass the
    test. *)
Lemma searchLines_elem (file : string) (query : Regex.regex)
    (includeComments : bool) (lines todo : list string) (i : nat)
    (r : CodeReference) :
  r ∈ searchLines file query includeComments lines todo i
  ↔ ∃ j l, todo !! j = Some l
           ∧ reportsLine query includeComments l = true
           ∧ r = matchAt file query lines (i + j) l.
Proof.
  revert i. induction todo as [|x todo IH]; intros i; simpl.
  - split; [by intros ?%elem_of_nil | by intros (j & l & ? & _)].
  - assert (Hstep :
      (∃ j l, (x :: todo) !! j = Some l
              ∧ reportsLine query includeComments l = true
              ∧ r = matchAt file query lines (i + j) l)
      ↔ (reportsLine query includeComments x = true
         ∧ r = matchAt file query lines i x)
        ∨ (∃ j l, todo !! j = Some l
                  ∧ reportsLine query includeComments l = true
                  ∧ r = matchAt file query lines (S i + j) l)).
    { split.
      - intros ([|j] & l & Hl & Hrep & ->); simpl in Hl.
        + injection Hl as ->. left. by rewrite Nat.add_0_r.
        + right. exists j, l. by rewrite Nat.add_succ_comm.
      - intros [[Hrep ->] | (j & l & Hl & Hrep & ->)].
        + exists 0, x. by rewrite Nat.add_0_r.
        + exists (S j), l. by rewrite <- Nat.add_succ_comm. }
    rewrite Hstep, <- IH. unfold reportsLine.
    destruct (negb includeComments && isCommentLine x); simpl.
    + split; [auto | by intros [[? _]|?]].
    + destruct (Regex.test query x); simpl.
      * rewrite elem_of_cons. unfold matchAt. split.
        -- intros [-> | H]; [by left | by right].
        -- intros [[_ ->] | H]; [by left | by right].
      * split; [auto | by intros [[? _]|?]].
Qed.

Lemma collectMatches_uniform (query : Regex.regex) (includeComments : bool)
    (files : list string) :
  ∃ found tr,
    (∀ st, collectMatches fs query includeComments files st = (Ok found, st, tr))
    ∧ ∀ r, r ∈ found ↔
           ∃ file content, file ∈ files ∧ fs_read fs file = Some content
             ∧ r ∈ searchLines file query includeComments
                     (Js.split LF content) (Js.split LF content) 0.
Proof.
  induction files as [|f files (found & tr & IH & Hin)]; simpl.
  - exists [], []. split; [done|]. intros r. split.
    + by intros ?%elem_of_nil.
    + by intros (? & ? & ?%elem_of_nil & _).
  - unfold bind, try_catch, readFileSync, ret.
    destruct (fs_read fs f) as [content|] eqn:Hread.
    + eexists _, _. split; [intros st; rewrite IH; reflexivity|].
      intros r. rewrite elem_of_app, Hin. split.
      * intros [Hr | (file & c & Hf & Hc & Hr)].
        -- exists f, content. split; [apply list_elem_of_here | done].
        -- exists file, c. split; [by apply list_elem_of_further | done].
      * intros (file & c & Hf & Hc & Hr).
        apply elem_of_cons in Hf as [-> | Hf].
        -- left. congruence.
        -- right. eauto.
    + eexists _, _. split; [intros st; rewrite IH; reflexivity|].
      intros r. simpl. rewrite Hin. split.
      * intros (file & c & Hf & Hc & Hr).
        exists file, c. split; [by apply list_elem_of_further | done].
      * intros (file & c & Hf & Hc & Hr).
        apply elem_of_cons in Hf as [-> | Hf]; [congruence | eauto].
Qed.

Lemma collectReferences_uniform (identifier : string) (files : list string) :
  ∃ found tr,
    ∀ st, collectReferences fs identifier files st = (Ok found, st, tr).
Proof.
  induction files as [|f files (found & tr & IH)]; simpl.
  - by exists [], [].
  - unfold bind, try_catch, readFileSync, ret.
    destruct (fs_read fs f); eexists _, _; intros st; rewrite IH; reflexivity.
Qed.

Lemma globAll_uniform (pattern : string) (paths : list string) :
  ∃ files tr, ∀ st, globAll fs pattern paths st = (Ok files, st, tr).
Proof.
  induction paths as [|p paths (files & tr & IH)]; simpl.
  - by exists [], [].
  - unfold bind, glob, ret. eexists _, _. intros st. rewrite IH. reflexivity.
Qed.

Lemma textSearchPaths_total (isShaderSearch : bool) (st : Analyzer) :
  ∃ paths tr, textSearchPaths fs isShaderSearch st = (Ok paths, st, tr).
Proof.
  unfold textSearchPaths, bind, get, ret. cbv beta iota zeta.
  destruct (unrealPath st) as [root|]; [|by eexists _, _].
  destruct (Js.truthy (Some root)); [|by eexists _, _].
  destruct isShaderSearch; [|by eexists _, _].
  destruct (existingDirs_uniform fs
              [path_join (path_join root "Engine") "Shaders";
               path_join root "Shaders"]) as (l & tr & ->).
  by eexists _, _.
Qed.

Lemma rawMatches_run (query : Regex.regex) (filePattern : option string)
    (includeComments : option bool) (st : Analyzer) :
  searchable st = true →
  ∃ found tr,
    rawMatches fs query filePattern includeComments st = (Ok found, st, tr)
    ∧ ∀ r, r ∈ found ↔
           ∃ file content,
             file ∈ scannedFiles fs (default defaultFilePattern filePattern) st
             ∧ fs_read fs file = Some content
             ∧ r ∈ searchLines file query (default true includeComments)
                     (Js.split LF content) (Js.split LF content) 0.
Proof.
  unfold searchable. rewrite andb_true_iff, orb_true_iff.
  intros [Hinit Hpath].
  unfold rawMatches, scannedFiles, bind at 1, get. cbv beta iota zeta.
  rewrite Hinit. cbn [negb].
  replace (negb (Js.truthy (customPath st)) && negb (Js.truthy (unrealPath st)))
    with false by (destruct Hpath as [-> | ->]; by rewrite ?andb_false_r).
  cbv iota. unfold bind.
  destruct (textSearchPaths_total
              (Js.includes (default defaultFilePattern filePattern) "usf"
               || Js.includes (default defaultFilePattern filePattern) "ush") st)
    as (paths & trp & ->).
  destruct (globAll_uniform ("**/" +:+ default defaultFilePattern filePattern) paths)
    as (files & trg & Hg).
  rewrite Hg.
  destruct (collectMatches_uniform query (default true includeComments)
              (Js.dedup files)) as (found & tr & Hc & Hin).
  rewrite Hc. exists found, (trp ++ trg ++ tr). split; [done|].
  simpl. rewrite (Hg st). exact Hin.
Qed.

Lemma rawMatches_guarded (query : Regex.regex) (filePattern : option string)
    (includeComments : option bool) (st : Analyzer) :
  searchable st = false →
  ∃ e, rawMatches fs query filePattern includeComments st = (Err e, st, []).
Proof.
  unfold searchable, rawMatches, bind, get, throw. cbv beta iota zeta.
  destruct (initialized st); simpl; [|by eexists].
  rewrite orb_false_iff. intros [-> ->]. simpl. by eexists.
Qed.

Lemma rawReferences_run (identifier : string) (type : option SymbolKind)
    (st : Analyzer) :
  referenceSearchable st = true →
  ∃ found tr, rawReferences fs identifier type st = (Ok found, st, tr).
Proof.
  unfold referenceSearchable. rewrite andb_true_iff. intros [Hinit Hpath].
  unfold rawReferences, bind at 1, get. cbv beta iota zeta.
  rewrite Hinit. cbn [negb].
  destruct (referenceSearchPath st) as [p|]; [|done].
  rewrite Hpath. unfold bind, glob.
  destruct (collectReferences_uniform identifier
              (fs_glob fs sourceGlob p sourceIgnore)) as (found & tr & ->).
  by eexists _, _.
Qed.

Lemma rawReferences_guarded (identifier : string) (type : option SymbolKind)
    (st : Analyzer) :
  referenceSearchable st = false →
  ∃ e, rawReferences fs identifier type st = (Err e, st, []).
Proof.
  unfold referenceSearchable, rawReferences, bind, get, throw.
  cbv beta iota zeta.
  destruct (initialized st); cbn [negb andb]; [|by eexists].
  destruct (referenceSearchPath st) as [p|]; [|by eexists].
  intros ->. by eexists.
Qed.

Lemma result_bind_ret {A B} (m : M A) (g : A → B) (st : Analyzer) :
  result (bind m (fun a => ret (g a)) st)
  = match result (m st) with
    | Ok a => Ok (g a)
    | Err e => Err e
    | Diverge => Diverge
    end.
Proof. unfold bind, ret. by destruct (m st) as [[[a|e|] st1] t1]. Qed.

Lemma isCommentLine_spec (l : string) :
  isCommentLine l = true
  ↔ (∃ t, Js.trim l = "//" +:+ t) ∨ (∃ t, Js.trim l = "/*" +:+ t).
Proof.
  unfold isCommentLine. by rewrite orb_true_iff, !startsWith_spec.
Qed.

Lemma reportsLine_spec (query : Regex.regex) (includeComments : bool)
    (l : string) :
  reportsLine query includeComments l = true
  ↔ Regex.test query l = true
    ∧ (includeComments = true ∨ isCommentLine l = false).
Proof.
  unfold reportsLine.
  destruct includeComments, (isCommentLine l), (Regex.test query l);
    simpl; intuition congruence.
Qed.

(** C9.  The kind hint of findReferences is not looked at: two calls
    that differ only in the hint (class, function, variable or none)
    return the same entries, leave the same analyzer and make the same
    file-system calls. *)
Theorem findReferences_ignores_kind
    (identifier : string) (kind1 kind2 : option SymbolKind) (st : Analyzer) :
  findReferences fs identifier kind1 st = findReferences fs identifier kind2 st.
Proof. reflexivity. Qed.

(** With a custom root set, findReferences answers as if there were no
    engine root. *)
Lemma findReferences_custom_root_only
    (identifier : string) (type : option SymbolKind) (st : Analyzer) :
  Js.truthy (customPath st) = true →
  result (findReferences fs identifier type st)
  = result (findReferences fs identifier type (withoutEngine st)).
Proof.
  intros Hc. unfold findReferences. rewrite !result_bind_ret.
  unfold rawReferences, bind at 1 3, get. cbv beta iota zeta.
  unfold referenceSearchPath. simpl. rewrite Hc.
  destruct (initialized st); [|done]. cbn [negb].
  destruct (customPath st) as [[|c p]|]; [done| |done].
  unfold bind, glob.
  destruct (collectReferences_uniform identifier
              (fs_glob fs sourceGlob (String c p) sourceIgnore))
    as (found & tr & H).
  by rewrite !H.
Qed.

End Search.

(** ** Searches on disks *)

(** 250 matching lines give 100 entries, for both searches. *)
Example capped_on_250_lines :
  count (result (rawReferences bigDisk "Foo" None bigAnalyzer)) = Some 250
  ∧ count (result (findReferences bigDisk "Foo" None bigAnalyzer)) = Some 100
  ∧ count (result (rawMatches bigDisk (Regex.lit true "foo") None None bigAnalyzer))
    = Some 250
  ∧ count (result (searchCode bigDisk (Regex.lit true "foo") None None bigAnalyzer))
    = Some 100.
Proof. repeat split; vm_compute; reflexivity. Qed.

Example comments_excluded_and_included :
  linesOf (result (searchCode spawnDisk (Regex.lit true "spawn") None
                     (Some false) spawnAnalyzer)) = Some [2; 4]
  ∧ linesOf (result (searchCode spawnDisk (Regex.lit true "spawn") None
                       (Some true) spawnAnalyzer)) = Some [1; 2; 3; 4]
  ∧ linesOf (result (searchCode spawnDisk (Regex.lit true "spawn") None
                       None spawnAnalyzer)) = Some [1; 2; 3; 4].
Proof. repeat split; vm_compute; reflexivity. Qed.

(** C3 at its failing input.  With both roots configured findReferences
    globs the custom root only and reports nothing for UFoo, although the
    engine root holds a whole-word occurrence: the same call with the
    engine root alone reports it, and searchCode with both roots reports
    it too. *)
Theorem findReferences_misses_engine_root :
  customPath twoRootAnalyzer = Some "/proj"
  ∧ unrealPath twoRootAnalyzer = Some "/ue"
  ∧ findReferences twoRootDisk "UFoo" None twoRootAnalyzer
    = (Ok [], twoRootAnalyzer,
       [EvGlob "**/*.{h,cpp}" "/proj"; EvRead "/proj/Main.cpp"])
  ∧ linesOf (result (findReferences twoRootDisk "UFoo" None engineOnlyAnalyzer))
    = Some [1]
  ∧ linesOf (result (searchCode twoRootDisk (Patterns.wholeWord "UFoo") None None
                       twoRootAnalyzer)) = Some [1].
Proof. repeat split; vm_compute; reflexivity. Qed.

(** ** Relevance ranking *)

Lemma relevanceText_concatenated (apiRef : ApiReference) :
  relevanceText apiRef = concatenatedText apiRef.
Proof. reflexivity. Qed.

Lemma addTermScore_termScore (apiRef : ApiReference) (score : nat)
    (term : string) :
  addTermScore apiRef score term = score + specTermScore apiRef term.
Proof.
  unfold addTermScore, specTermScore. cbv zeta.
  rewrite relevanceText_concatenated.
  repeat match goal with |- context [if ?b then _ else _] => destruct b end;
    lia.
Qed.

Lemma termScore_le_22 (apiRef : ApiReference) (term : string) :
  specTermScore apiRef term ≤ 22.
Proof.
  unfold specTermScore.
  repeat match goal with |- context [if ?b then _ else _] => destruct b end;
    lia.
Qed.

Lemma fold_addTermScore (apiRef : ApiReference) (terms : list string)
    (score : nat) :
  fold_left (addTermScore apiRef) terms score
  = score + sum_list (specTermScore apiRef <$> terms).
Proof.
  revert score. induction terms as [|t terms IH]; intros score.
  - simpl. lia.
  - cbn [fold_left]. rewrite IH, addTermScore_termScore, fmap_cons.
    change (sum_list (specTermScore apiRef t :: (specTermScore apiRef <$> terms)))
      with (specTermScore apiRef t + sum_list (specTermScore apiRef <$> terms)).
    lia.
Qed.

(** C4, as stated, fails in its bound: the term "object" occurs in the
    class name, the category (Object), the module (CoreUObject) and the
    text of the entry of UObject, and scores 10 + 5 + 5 + 2 = 22, more
    than 19. *)
Lemma term_scores_22 :
  ∃ apiRef,
    objectEntry = Ok apiRef
    ∧ category apiRef = "Object" ∧ module apiRef = "CoreUObject"
    ∧ calculateApiRelevance apiRef ["object"] = 22
    ∧ ¬ calculateApiRelevance apiRef ["object"] ≤ 19.
Proof.
  eexists. split; [vm_compute; reflexivity|].
  repeat split; try (vm_compute; reflexivity).
  vm_compute. lia.
Qed.

(** C4 (amended).  The relevance of an entry is the sum over the search
    terms of 10 for the class name, 5 for the category, 5 for the module
    and 2 for the concatenated text, each counted when the term occurs in
    the lower-cased field; the four add up, so one term contributes at
    most 22 and a query of n terms at most 22 n. *)
Theorem relevance_is_sum_of_term_scores
    (apiRef : ApiReference) (searchTerms : list string) :
  calculateApiRelevance apiRef searchTerms
  = sum_list (specTermScore apiRef <$> searchTerms)
  ∧ (∀ term, calculateApiRelevance apiRef [term] = specTermScore apiRef term
             ∧ specTermScore apiRef term ≤ 22)
  ∧ calculateApiRelevance apiRef searchTerms ≤ 22 * length searchTerms.
Proof.
  unfold calculateApiRelevance. split; [|split].
  - by rewrite fold_addTermScore.
  - intros term. cbn [fold_left]. rewrite addTermScore_termScore.
    split; [done | apply termScore_le_22].
  - rewrite fold_addTermScore. cbn [Nat.add].
    induction searchTerms as [|t terms IH]; [simpl; lia|].
    rewrite fmap_cons.
    change (sum_list (specTermScore apiRef t :: (specTermScore apiRef <$> terms)))
      with (specTermScore apiRef t + sum_list (specTermScore apiRef <$> terms)).
    pose proof (termScore_le_22 apiRef t). rewrite length_cons. lia.
Qed.

(** ** Subsystems *)

Lemma initializeCustomCodebase_keeps_engine (fs : FileSystem) (path : string)
    (st : Analyzer) :
  unrealPath (final (initializeCustomCodebase fs path st)) = unrealPath st.
Proof.
  unfold initializeCustomCodebase, bind, existsSync, get, put, throw.
  by destruct (fs_exists fs path).
Qed.

Lemma afterCustomRoots_no_engine (fs : FileSystem) (paths : list string) :
  unrealPath (afterCustomRoots fs paths) = None.
Proof.
  unfold afterCustomRoots.
  assert (H : ∀ st, unrealPath st = None →
            unrealPath (fold_left
              (fun st p => final (initializeCustomCodebase fs p st)) paths st)
            = None).
  { induction paths as [|p paths IH]; intros st Hst; simpl; [done|].
    apply IH. by rewrite initializeCustomCodebase_keeps_engine. }
  by apply H.
Qed.

(** C10.  Without an engine root analyzeSubsystem throws for every
    subsystem name, before any file-system call: "Analyzer not
    initialized" when nothing is configured, "Unreal Engine path not
    configured" when the analyzer is initialized, which is the case after
    a custom root has been set.  Setting custom roots, however many, never
    sets the engine root, so the call keeps throwing. *)
Theorem analyzeSubsystem_needs_engine_root
    (fs : FileSystem) (subsystem : string) (st : Analyzer) :
  (unrealPath st = None →
   analyzeSubsystem fs subsystem st
   = (Err (if initialized st then EnginePathNotConfigured else NotInitialized),
      st, []))
  ∧ (∀ customRoots,
       ∃ e, analyzeSubsystem fs subsystem (afterCustomRoots fs customRoots)
            = (Err e, afterCustomRoots fs customRoots, [])).
Proof.
  assert (H : ∀ st', unrealPath st' = None →
            analyzeSubsystem fs subsystem st'
            = (Err (if initialized st' then EnginePathNotConfigured
                    else NotInitialized), st', [])).
  { intros st' Hno. unfold analyzeSubsystem, bind, get, throw.
    cbv beta iota zeta. rewrite Hno. by destruct (initialized st'). }
  split; [apply H|].
  intros customRoots. eexists. apply H, afterCustomRoots_no_engine.
Qed.

(** C10 on the project, which has a custom root only. *)
Lemma analyzeSubsystem_needs_engine_root_witness :
  initialized projectAnalyzer = true
  ∧ customPath projectAnalyzer = Some "/proj"
  ∧ analyzeSubsystem projectDisk "Rendering" projectAnalyzer
    = (Err EnginePathNotConfigured, projectAnalyzer, []).
Proof.
  split; [reflexivity|]. split; [reflexivity|].
  exact (proj1 (analyzeSubsystem_needs_engine_root projectDisk "Rendering"
                  projectAnalyzer) eq_refl).
Defined.

Example rendering_subsystem :
  (mainClasses <$>
     match result (analyzeSubsystem engineDisk "Rendering"
                     (Disk.after (initialize engineDisk "/ue") newAnalyzer)) with
     | Ok info => Some info
     | _ => None
     end) = Some ["FRenderResource"]
  ∧ result (analyzeSubsystem engineDisk "Gameplay"
              (Disk.after (initialize engineDisk "/ue") newAnalyzer))
    = Err (UnknownSubsystem "Gameplay").
Proof. split; vm_compute; reflexivity. Qed.

(** * Further properties *)

(** ** Strings and lists *)

Lemma str_chars (s : string) : Js.str (Js.chars s) = s.
Proof. apply string_of_list_ascii_of_string. Qed.

Lemma chars_str (l : list ascii) : Js.chars (Js.str l) = l.
Proof. apply list_ascii_of_string_of_list_ascii. Qed.

Lemma chars_app (s t : string) : Js.chars (s +:+ t) = Js.chars s ++ Js.chars t.
Proof. induction s as [|a s IH]; simpl; [done | by rewrite IH]. Qed.

Lemma str_app (l k : list ascii) : Js.str (l ++ k) = Js.str l +:+ Js.str k.
Proof. induction l as [|a l IH]; simpl; [done | by rewrite IH]. Qed.

Lemma chars_length (s : string) : length (Js.chars s) = String.length s.
Proof. induction s as [|a s IH]; simpl; [done | by rewrite IH]. Qed.

Lemma includes_empty (s : string) : Js.includes s EmptyString = true.
Proof. by destruct s. Qed.

Lemma head_omap_app {A B} (f : A → option B) (l k : list A) :
  head (omap f (l ++ k))
  = match head (omap f l) with
    | Some x => Some x
    | None => head (omap f k)
    end.
Proof.
  induction l as [|a l IH]; simpl; [done|].
  destruct (f a); simpl; [done | apply IH].
Qed.

Lemma increasingBy_cons {A} (f : A → nat) (x : A) (l : list A) :
  Forall (fun b => f x < f b) l → increasingBy f l → increasingBy f (x :: l).
Proof.
  intros Hx Hl [|i] [|j] a b Ha Hb Hij; simpl in *; try lia.
  - injection Ha as <-. rewrite Forall_forall in Hx.
    apply Hx. eapply list_elem_of_lookup_2, Hb.
  - apply (Hl i j); [done | done | lia].
Qed.

Lemma descendingBy_cons {A} (f : A → nat) (x : A) (l : list A) :
  Forall (fun b => f b ≤ f x) l → descendingBy f l → descendingBy f (x :: l).
Proof.
  intros Hx Hl [|i] [|j] a b Ha Hb Hij; simpl in *; try lia.
  - injection Ha as <-. rewrite Forall_forall in Hx.
    apply Hx. eapply list_elem_of_lookup_2, Hb.
  - apply (Hl i j); [done | done | lia].
Qed.

(** ** What extraction returns *)

Lemma findClassLine_first_match (pat : Regex.regex) (lines : list string)
    (i n : nat) (part : string) :
  findClassLine pat lines i = Some (n, part) →
  i < n ∧ n ≤ i + length lines
  ∧ ∃ l m, lines !! (n - S i) = Some l ∧ Regex.exec pat l = Some m
           ∧ part = Regex.group_or_empty 1 (Regex.m_caps m)
           ∧ ∀ j l', j < n - S i → lines !! j = Some l' →
                     Regex.exec pat l' = None.
Proof.
  revert i. induction lines as [|x lines IH]; intros i; simpl; [done|].
  destruct (Regex.exec pat x) as [m|] eqn:Hx.
  - intros [= <- <-]. split; [lia|]. split; [lia|].
    exists x, m. replace (S i - S i) with 0 by lia. simpl.
    split; [done|]. split; [done|]. split; [done|]. intros; lia.
  - intros H. destruct (IH _ H) as (Hlt & Hle & l & m & Hl & Hm & Hp & Hno).
    split; [lia|]. split; [lia|]. exists l, m.
    replace (n - S i) with (S (n - S (S i))) by lia. simpl.
    split; [done|]. split; [done|]. split; [done|].
    intros [|j] l' Hj Hl'; simpl in Hl'; [congruence|].
    apply (Hno j); [lia | done].
Qed.

Lemma scanMethods_lines (lines : list string) (i : nat) :
  Forall (fun m => i < methodLine m ∧ methodLine m ≤ i + length lines
                   ∧ parameters m = []
                   ∧ ∃ l, lines !! (methodLine m - S i) = Some l
                          ∧ skipsMethodScan l = false
                          ∧ Regex.test Patterns.methodSignature l = true
                          ∧ isVirtual m = Js.includes l "virtual"
                          ∧ isOverride m = Js.includes l "override")
         (scanMethods lines i)
  ∧ increasingBy methodLine (scanMethods lines i).
Proof.
  revert i. induction lines as [|x lines IH]; intros i; simpl.
  - split; [constructor | by intros i' j a b ?].
  - destruct (IH (S i)) as [Hall Hsort].
    assert (Hall' : Forall (fun m => i < methodLine m
                     ∧ methodLine m ≤ i + S (length lines)
                     ∧ parameters m = []
                     ∧ ∃ l, (x :: lines) !! (methodLine m - S i) = Some l
                            ∧ skipsMethodScan l = false
                            ∧ Regex.test Patterns.methodSignature l = true
                            ∧ isVirtual m = Js.includes l "virtual"
                            ∧ isOverride m = Js.includes l "override")
                     (scanMethods lines (S i))).
    { eapply Forall_impl; [exact Hall|]. simpl.
      intros m (Hlt & Hle & Hp & l & Hl & Hrest).
      split; [lia|]. split; [lia|]. split; [done|]. exists l.
      replace (methodLine m - S i) with (S (methodLine m - S (S i))) by lia.
      done. }
    destruct (skipsMethodScan x) eqn:Hskip; [done|].
    unfold Regex.test at 1.
    destruct (Regex.exec Patterns.methodSignature x) as [m|] eqn:Hx; [|done].
    split.
    + constructor; [|done]. simpl. split; [lia|]. split; [lia|].
      split; [done|]. exists x. rewrite Nat.sub_diag.
      unfold Regex.test. rewrite Hx. done.
    + apply increasingBy_cons; [|done].
      eapply Forall_impl; [exact Hall|]. simpl. intros m' (Hlt & _). lia.
Qed.

Lemma increasingBy_take {A} (f : A → nat) (n : nat) (l : list A) :
  increasingBy f l → increasingBy f (take n l).
Proof.
  intros Hl i j a b Ha Hb Hij.
  apply lookup_take_Some in Ha as [Ha _]. apply lookup_take_Some in Hb as [Hb _].
  by apply (Hl i j).
Qed.

Lemma extractFromContent_record
    (filePath className content : string) (info : ClassInfo) :
  extractFromContent filePath className content = Some info →
  let lines := Js.split LF content in
  name info = className ∧ file info = filePath ∧ comments info = []
  ∧ 1 ≤ line info ∧ line info ≤ length lines
  ∧ (∃ l m, lines !! (line info - 1) = Some l
            ∧ Regex.exec (Patterns.classDefLine className) l = Some m
            ∧ (superclasses info, interfaces info)
              = parseInheritance (Regex.group_or_empty 1 (Regex.m_caps m))
            ∧ ∀ j l', j < line info - 1 → lines !! j = Some l' →
                Regex.exec (Patterns.classDefLine className) l' = None)
  ∧ length (methods info) ≤ 100 ∧ length (properties info) ≤ 100
  ∧ increasingBy methodLine (methods info)
  ∧ Forall (fun m => 1 ≤ methodLine m ∧ methodLine m ≤ length lines
                     ∧ parameters m = [])
           (methods info).
Proof.
  unfold extractFromContent.
  destruct (findClassLine _ (Js.split LF content) 0) as [[n part]|] eqn:Hfind;
    [|done].
  apply findClassLine_first_match in Hfind
    as (Hlt & Hle & l & m & Hl & Hm & -> & Hfirst).
  destruct (parseInheritance _) as [supers ifaces] eqn:Hparse.
  intros [= <-]. simpl.
  destruct (scanMethods_lines (Js.split LF content) 0) as [Hall Hsort].
  split; [done|]. split; [done|]. split; [done|].
  split; [lia|]. split; [lia|]. split.
  { exists l, m. by rewrite Hparse. }
  split; [rewrite length_take; lia|]. split; [rewrite length_take; lia|].
  split; [by apply increasingBy_take|].
  apply Forall_take. eapply Forall_impl; [exact Hall|]. simpl.
  intros x (? & ? & ? & _). split; [lia|]. split; [lia | done].
Qed.

(** X1.  A record returned by extraction bears the requested name and the
    path it was read from; its line is the first line of the file that
    matches the class pattern, and its bases are parsed from that line;
    it has at most 100 methods and 100 properties; the methods are listed
    in line order, on lines of the file, without parameters. *)
Theorem extracted_record_invariants
    (filePath className content : string) (info : ClassInfo) :
  extractFromContent filePath className content = Some info →
  let lines := Js.split LF content in
  name info = className ∧ file info = filePath ∧ comments info = []
  ∧ 1 ≤ line info ∧ line info ≤ length lines
  ∧ (∃ l m, lines !! (line info - 1) = Some l
            ∧ Regex.exec (Patterns.classDefLine className) l = Some m
            ∧ (superclasses info, interfaces info)
              = parseInheritance (Regex.group_or_empty 1 (Regex.m_caps m))
            ∧ ∀ j l', j < line info - 1 → lines !! j = Some l' →
                Regex.exec (Patterns.classDefLine className) l' = None)
  ∧ length (methods info) ≤ 100 ∧ length (properties info) ≤ 100
  ∧ increasingBy methodLine (methods info)
  ∧ Forall (fun m => 1 ≤ methodLine m ∧ methodLine m ≤ length lines
                     ∧ parameters m = [])
           (methods info).
Proof. apply extractFromContent_record. Qed.

(** X2.  Extraction from a file never throws and never changes the
    analyzer; it reads the file once; it returns a record exactly when the
    file is readable and one of its lines matches the class pattern (an
    unreadable file is a plain no match). *)
Theorem extraction_succeeds_iff_a_line_matches
    (fs : FileSystem) (filePath className : string) (st : Analyzer) :
  ∃ o,
    extractClassInfoWithRegex fs filePath className st
    = (Ok o, st, [EvRead filePath])
    ∧ (is_Some o
       ↔ ∃ content l,
           fs_read fs filePath = Some content
           ∧ l ∈ Js.split LF content
           ∧ is_Some (Regex.exec (Patterns.classDefLine className) l)).
Proof.
  unfold extractClassInfoWithRegex, try_catch, bind, readFileSync, ret.
  destruct (fs_read fs filePath) as [content|] eqn:Hread.
  - eexists. split; [reflexivity|]. split.
    + intros [info Hinfo].
      apply extractFromContent_record in Hinfo
        as (_ & _ & _ & _ & _ & (l & m & Hl & Hm & _) & _).
      exists content, l. split; [done|].
      split; [by eapply list_elem_of_lookup_2 | by rewrite Hm].
    + intros (c & l & [= <-] & Hin & Hl). unfold extractFromContent.
      destruct (findClassLine_some (Patterns.classDefLine className)
                  (Js.split LF content) l 0 Hin Hl) as [[n part] ->].
      by destruct (parseInheritance part).
  - eexists. split; [reflexivity|]. split.
    + by intros [? ?].
    + by intros (c & l & ? & _).
Qed.

(** ** Class resolution, as a function of the disk *)

Section ResolutionOnDisk.
Variable fs : FileSystem.

Lemma existingDirs_filter (dirs : list string) :
  ∃ tr, ∀ st,
    existingDirs fs dirs st
    = (Ok (filter (fun d => fs_exists fs d = true) dirs), st, tr).
Proof.
  induction dirs as [|d dirs (tr & IH)]; simpl.
  - by exists [].
  - eexists. intros st. unfold bind, existsSync, ret. rewrite IH.
    destruct (fs_exists fs d) eqn:Hd.
    + rewrite filter_cons_True by done. reflexivity.
    + rewrite filter_cons_False by congruence. reflexivity.
Qed.

Lemma classSearchPaths_searchPathsOf (st : Analyzer) :
  ∃ tr, classSearchPaths fs st = (Ok (searchPathsOf fs st), st, tr).
Proof.
  unfold classSearchPaths, searchPathsOf, bind, get, ret.
  cbv beta iota zeta.
  assert (Hc : (match customPath st with
                | Some p => if Js.truthy (Some p) then [p] else []
                | None => []
                end)
               = (if Js.truthy (customPath st)
                  then [default EmptyString (customPath st)] else []))
    by (by destruct (customPath st) as [[|]|]).
  rewrite Hc.
  destruct (unrealPath st) as [root|];
    [|simpl; rewrite app_nil_r; by eexists].
  simpl default at 2.
  destruct (Js.truthy (Some root));
    [|cbv beta iota; rewrite !app_nil_r; by eexists].
  destruct (existingDirs_filter (ueDirs root)) as (tr & ->).
  by eexists.
Qed.

Lemma extract_read (file className : string) (st : Analyzer) :
  extractClassInfoWithRegex fs file className st
  = (Ok (match fs_read fs file with
         | Some content => extractFromContent file className content
         | None => None
         end), st, [EvRead file]).
Proof.
  unfold extractClassInfoWithRegex, try_catch, bind, readFileSync, ret.
  by destruct (fs_read fs file).
Qed.

Lemma scanFiles_firstYield (className : string) (files : list string) :
  ∃ tr, ∀ st,
    scanFiles fs className files st
    = (Ok (firstYield fs className files),
       cached className (firstYield fs className files) st, tr).
Proof.
  unfold firstYield.
  induction files as [|f files (tr & IH)]; simpl.
  - by exists [].
  - unfold bind at 1. unfold try_catch, bind, readFileSync, fileYields.
    destruct (fs_read fs f) as [content|] eqn:Hread.
    + destruct (Regex.test _ content).
      * destruct (extractFromContent f className content) as [info|] eqn:Hx.
        -- eexists. intros st. rewrite extract_read, Hread, Hx.
           unfold cacheClass, bind, get, put, ret. simpl. reflexivity.
        -- eexists. intros st. rewrite extract_read, Hread, Hx.
           unfold ret. rewrite IH. reflexivity.
      * eexists. intros st. unfold ret. rewrite IH. reflexivity.
    + eexists. intros st. unfold ret. rewrite IH. reflexivity.
Qed.

Lemma firstYield_app (className : string) (l k : list string) :
  firstYield fs className (l ++ k)
  = match firstYield fs className l with
    | Some x => Some x
    | None => firstYield fs className k
    end.
Proof. apply head_omap_app. Qed.

Lemma scanSearchPaths_firstYield (className : string) (paths : list string) :
  ∃ tr, ∀ st,
    let hit :=
      firstYield fs className
        (concat (map (fun p => fs_glob fs headerGlob p headerIgnore) paths)) in
    scanSearchPaths fs className paths st
    = (Ok hit, cached className hit st, tr).
Proof.
  induction paths as [|p paths (tr & IH)]; simpl.
  - by exists [].
  - destruct (scanFiles_firstYield className
                (fs_glob fs headerGlob p headerIgnore)) as (t1 & H1).
    rewrite firstYield_app.
    destruct (firstYield fs className (fs_glob fs headerGlob p headerIgnore))
      as [info|] eqn:Hy.
    + eexists. intros st. unfold bind, glob. rewrite H1.
      unfold ret. reflexivity.
    + eexists. intros st. unfold bind, glob. rewrite H1. simpl.
      simpl in IH. rewrite IH. reflexivity.
Qed.

Lemma analyzeClass_miss_answer (className : string) (st : Analyzer) :
  initialized st = true → classCache st !! className = None →
  ∃ tr, analyzeClass fs className st
        = (missAnswer fs st className,
           stored className (missAnswer fs st className) st, tr).
Proof.
  intros Hinit Hmiss. unfold analyzeClass, missAnswer, candidateHeaders.
  unfold bind at 1. unfold get. rewrite Hinit. cbn [negb]. rewrite Hmiss.
  unfold bind at 1.
  destruct (classSearchPaths_searchPathsOf st) as (trp & ->).
  destruct (searchPathsOf fs st) as [|p paths]; [by eexists|].
  destruct (scanSearchPaths_firstYield className (p :: paths)) as (trs & Hs).
  cbv zeta in Hs. unfold bind. rewrite Hs.
  destruct (firstYield fs className _) as [info|]; by eexists.
Qed.

Lemma firstYield_Some (className : string) (files : list string)
    (info : ClassInfo) :
  firstYield fs className files = Some info →
  ∃ f content, f ∈ files ∧ fs_read fs f = Some content
               ∧ extractFromContent f className content = Some info.
Proof.
  unfold firstYield. intros H.
  assert (Hin : info ∈ omap (fileYields fs className) files)
    by (destruct (omap _ files); [done|]; injection H as ->;
        apply list_elem_of_here).
  apply list_elem_of_omap in Hin as (f & Hf & Hy).
  unfold fileYields in Hy. destruct (fs_read fs f) as [content|] eqn:Hr; [|done].
  destruct (Regex.test _ content); [|done]. by exists f, content.
Qed.


(** X4.  The custom root has priority: when a header under the custom
    root yields a record for the class, a resolution that misses the
    cache returns the first such record, whatever the engine root
    holds. *)
Theorem analyzeClass_custom_root_first
    (className custom : string) (st : Analyzer) (info : ClassInfo) :
  initialized st = true → classCache st !! className = None →
  customPath st = Some custom → Js.truthy (Some custom) = true →
  firstYield fs className (fs_glob fs headerGlob custom headerIgnore)
  = Some info →
  result (analyzeClass fs className st) = Ok info.
Proof.
  intros Hinit Hmiss Hcustom Htruthy Hyield.
  destruct (analyzeClass_miss_answer className st Hinit Hmiss) as (tr & ->).
  simpl. unfold missAnswer, candidateHeaders, searchPathsOf.
  rewrite Hcustom, Htruthy. simpl. by rewrite firstYield_app, Hyield.
Qed.

(** X5.  A resolution changes nothing but the class cache, and the cache
    only by storing the record it returns under the requested name: the
    roots, the [initialized] flag and the API cache stay, entries already
    cached stay, and a resolution that throws leaves the analyzer exactly
    as it was (failures are not remembered). *)
Theorem analyzeClass_only_adds_resolved_class
    (className : string) (st : Analyzer) :
  let out := analyzeClass fs className st in
  config (final out) = config st
  ∧ apiCache (final out) = apiCache st
  ∧ classCache st ⊆ classCache (final out)
  ∧ (∀ e, result out = Err e → final out = st)
  ∧ (∀ info, result out = Ok info →
       classCache (final out) = <[className := info]> (classCache st))
  ∧ result out ≠ Diverge.
Proof.
  destruct (analyzeClass_cases fs className st)
    as [H | [(i & Hinit & Hc & H) | (r & tr & Hinit & Hc & Hr & H)]];
    rewrite H; simpl.
  - repeat split; try done.
  - repeat split; try done. intros info [= <-]. by rewrite insert_id.
  - destruct r as [info|e|]; simpl; [| |done].
    + repeat split; try done.
      * by apply insert_subseteq.
      * by intros ? [= <-].
    + repeat split; done.
Qed.

(** X6.  From an analyzer whose cached records bear the names they are
    cached under, a resolution returns a record that bears the requested
    name, spelled as requested (the patterns ignore case), and the cache
    stays keyed that way; a record that was not cached before comes from
    a readable candidate header, whose path it carries. *)
Theorem analyzeClass_record_named_as_requested
    (className : string) (st : Analyzer) (info : ClassInfo) :
  cacheKeyed st →
  result (analyzeClass fs className st) = Ok info →
  name info = className
  ∧ cacheKeyed (final (analyzeClass fs className st))
  ∧ (classCache st !! className = None →
     file info ∈ candidateHeaders fs st
     ∧ is_Some (fs_read fs (file info))).
Proof.
  intros Hkeyed.
  destruct (analyzeClass_cases fs className st)
    as [H | [(i & Hinit & Hc & H) | (r & tr & Hinit & Hc & Hr & H)]];
    rewrite H; simpl; [done | |].
  - intros [= <-]. split; [by apply Hkeyed|]. split; [done|]. congruence.
  - intros ->. simpl.
    destruct (analyzeClass_miss_answer className st Hinit Hc) as (tr' & H').
    rewrite H in H'. injection H' as Hans _ _.
    unfold missAnswer in Hans.
    destruct (searchPathsOf fs st); [done|].
    destruct (firstYield fs className (candidateHeaders fs st))
      as [info'|] eqn:Hy; [|done].
    injection Hans as ->.
    apply firstYield_Some in Hy as (f & content & Hf & Hread & Hx).
    apply extractFromContent_record in Hx as (Hname & Hfile & _).
    split; [done|]. split.
    + intros n i. unfold set_classCache; simpl.
      destruct (decide (className = n)) as [<-|Hne].
      * rewrite lookup_insert_eq. by intros [= <-].
      * rewrite lookup_insert_ne by done. apply Hkeyed.
    + intros _. rewrite Hfile. split; [done | by rewrite Hread].
Qed.

End ResolutionOnDisk.

(** ** The matcher *)

(** A match is handed to the continuation at a position further on in the
    same text. *)
Lemma run_continues {R : Type} (r : Regex.regex) :
  ∀ (z : Regex.cursor) (c : Regex.caps)
    (k : Regex.cursor → Regex.caps → option R) (x : R),
    Regex.run r z c k = Some x →
    ∃ z' c', k z' c' = Some x ∧ subject z' = subject z
             ∧ length (Regex.after z') ≤ length (Regex.after z).
Proof.
  induction r as [|p|r1 IH1 r2 IH2|r1 IH1 r2 IH2|r1 IH1|n r1 IH1|ml| |];
    intros z c k x.
  - simpl. intros H. by exists z, c.
  - simpl. destruct z as [bef [|a rest]]; simpl; [done|].
    destruct (p a); [|done]. intros H. eexists _, _. split; [exact H|].
    unfold subject. simpl. rewrite <- app_assoc. split; [done | lia].
  - simpl. intros H. apply IH1 in H as (z1 & c1 & H & Hs1 & Hl1).
    apply IH2 in H as (z2 & c2 & H & Hs2 & Hl2).
    exists z2, c2. split; [done|]. split; [congruence | lia].
  - simpl. destruct (Regex.run r1 z c k) eqn:H1.
    + intros [= ->]. by apply IH1 in H1.
    + apply IH2.
  - assert (Hloop : ∀ fuel z c,
      (fix loop (fuel : nat) (z : Regex.cursor) (c : Regex.caps)
           {struct fuel} : option R :=
         match fuel with
         | O => k z c
         | S fuel' =>
             match Regex.run r1 z c (fun z' c' =>
                     if length (Regex.after z') <? length (Regex.after z)
                     then loop fuel' z' c' else None) with
             | Some x => Some x
             | None => k z c
             end
         end) fuel z c = Some x →
      ∃ z' c', k z' c' = Some x ∧ subject z' = subject z
               ∧ length (Regex.after z') ≤ length (Regex.after z)).
    { clear z c. induction fuel as [|fuel IHf]; intros z c.
      - intros H. by exists z, c.
      - match goal with
        | |- context [Regex.run r1 z c ?k1] =>
            destruct (Regex.run r1 z c k1) eqn:H1
        end.
        + intros [= ->]. apply IH1 in H1 as (z1 & c1 & H1 & Hs1 & Hl1).
          destruct (length (Regex.after z1) <? length (Regex.after z));
            [|done].
          apply IHf in H1 as (z2 & c2 & H2 & Hs2 & Hl2).
          exists z2, c2. split; [done|]. split; [congruence | lia].
        + intros H. by exists z, c. }
    exact (Hloop (S (length (Regex.after z))) z c).
  - simpl. intros H. apply IH1 in H as (z1 & c1 & H & Hs1 & Hl1). eauto.
  - simpl. destruct (Regex.before z) as [|p bef]; [intros H; by exists z, c|].
    destruct (ml && Chr.is_newline p); [intros H; by exists z, c | done].
  - simpl. intros H. exists z, c. split; [|done].
    by destruct (Regex.after z).
  - simpl. destruct (xorb _ _); [intros H; by exists z, c | done].
Qed.

Lemma match_at_position (r : Regex.regex) (z : Regex.cursor) (m : Regex.found) :
  Regex.match_at r z = Some m →
  Regex.m_index m = length (Regex.before z)
  ∧ subject (Regex.m_end m) = subject z
  ∧ length (Regex.after (Regex.m_end m)) ≤ length (Regex.after z).
Proof.
  unfold Regex.match_at. intros H.
  apply run_continues in H as (z' & c' & [= <-] & Hs & Hl). done.
Qed.

Lemma search_from_position (r : Regex.regex) (aft : list ascii) :
  ∀ (bef : list ascii) (m : Regex.found),
    Regex.search_from r bef aft = Some m →
    ∃ pre post, aft = pre ++ post
                ∧ Regex.match_at r (Regex.Cursor (rev pre ++ bef) post) = Some m.
Proof.
  induction aft as [|a aft IH]; intros bef m; simpl.
  - destruct (Regex.match_at r (Regex.Cursor bef [])) eqn:H; [|done].
    intros [= ->]. by exists [], [].
  - destruct (Regex.match_at r (Regex.Cursor bef (a :: aft))) eqn:H.
    + intros [= ->]. by exists [], (a :: aft).
    + intros Hs. apply IH in Hs as (pre & post & -> & Hm).
      exists (a :: pre), post. split; [done|]. simpl.
      by rewrite <- app_assoc.
Qed.

(** A match found in a string starts inside the string. *)
Lemma exec_index_bound (r : Regex.regex) (s : string) (m : Regex.found) :
  Regex.exec r s = Some m → Regex.m_index m ≤ String.length s.
Proof.
  unfold Regex.exec. intros H.
  apply search_from_position in H as (pre & post & Hs & Hm).
  apply match_at_position in Hm as (-> & _). simpl.
  rewrite <- chars_length, Hs, length_app, length_app, length_rev. simpl. lia.
Qed.

(** A case-sensitive literal matches only itself. *)
Lemma run_lit {R : Type} (cs : list ascii) :
  ∀ (z : Regex.cursor) (c : Regex.caps)
    (k : Regex.cursor → Regex.caps → option R) (x : R),
    Regex.run (Regex.lit_chars false cs) z c k = Some x →
    ∃ rest, Regex.after z = cs ++ rest.
Proof.
  induction cs as [|a cs IH]; intros z c k x; simpl.
  - intros _. by exists (Regex.after z).
  - destruct z as [bef [|b rest]]; simpl; [done|].
    destruct (Chr.eqb a b) eqn:Hab; [|done].
    apply Ascii.eqb_eq in Hab as ->.
    intros H. apply IH in H as (rest' & Hr). simpl in Hr.
    exists rest'. by rewrite Hr.
Qed.

(** A line that passes the whole-word test of findReferences contains the
    identifier. *)
Lemma wholeWord_occurs (identifier l : string) :
  Regex.test (Patterns.wholeWord identifier) l = true →
  ∃ pre post, l = pre +:+ identifier +:+ post.
Proof.
  unfold Regex.test, Regex.exec.
  destruct (Regex.search_from _ [] (Js.chars l)) as [m|] eqn:H; [|done].
  intros _. apply search_from_position in H as (pre & post & Hl & Hm).
  unfold Regex.match_at, Patterns.wholeWord in Hm. simpl in Hm.
  destruct (xorb _ _); [|done].
  apply run_lit in Hm as (rest & Hrest). simpl in Hrest. subst post.
  exists (Js.str pre), (Js.str rest).
  rewrite <- (str_chars l), Hl, !str_app. by rewrite str_chars.
Qed.

(** [indexOf] finds an occurrence when there is one. *)
Lemma indexOf_from_occurrence (t : string) (s : string) :
  ∀ i, (∃ pre post, s = pre +:+ t +:+ post) →
       ∃ pre post, s = pre +:+ t +:+ post
                   ∧ Js.indexOf_from i s t = Z.of_nat (i + String.length pre).
Proof.
  induction s as [|a s IH]; intros i Hocc; cbn [Js.indexOf_from].
  - destruct (Js.startsWith EmptyString t) eqn:Hst.
    + apply startsWith_spec in Hst as (post & Hp).
      exists EmptyString, post. split; [done|]. simpl. f_equal. lia.
    + destruct Hocc as ([|] & post & Hp); [|done]. simpl in Hp.
      assert (Js.startsWith EmptyString t = true)
        by (apply startsWith_spec; eauto).
      congruence.
  - destruct (Js.startsWith (String a s) t) eqn:Hst.
    + apply startsWith_spec in Hst as (post & Hp).
      exists EmptyString, post. split; [done|]. simpl. f_equal. lia.
    + destruct Hocc as ([|b pre] & post & Hp).
      * assert (Js.startsWith (String a s) t = true)
          by (apply startsWith_spec; eauto).
        congruence.
      * simpl in Hp. injection Hp as -> Hs.
        destruct (IH (S i) (ex_intro _ pre (ex_intro _ post Hs)))
          as (pre' & post' & Hs' & Hidx).
        exists (String b pre'), post'.
        split; [change (String b s = String b (pre' +:+ t +:+ post'));
                by f_equal|].
        rewrite Hidx. simpl. f_equal. lia.
Qed.

(** ** What the searches return *)

Lemma dedup_from_spec (l : list string) :
  ∀ seen, NoDup (Js.dedup_from seen l)
          ∧ ∀ x, x ∈ Js.dedup_from seen l ↔ x ∈ l ∧ x ∉ seen.
Proof.
  induction l as [|a l IH]; intros seen; simpl.
  - split; [constructor|]. intros x. split; [by intros ?%elem_of_nil|].
    by intros [?%elem_of_nil _].
  - destruct (bool_decide (a ∈ seen)) eqn:Ha.
    + apply bool_decide_eq_true in Ha. destruct (IH seen) as [Hnd Hin].
      split; [done|]. intros x. rewrite Hin, elem_of_cons. split; [tauto|].
      intros [[-> | ?] ?]; [done | tauto].
    + apply bool_decide_eq_false in Ha.
      destruct (IH (a :: seen)) as [Hnd Hin]. split.
      * apply NoDup_cons. split; [|done]. rewrite Hin, elem_of_cons. tauto.
      * intros x. rewrite !elem_of_cons, Hin, elem_of_cons.
        destruct (decide (x = a)) as [->|]; tauto.
Qed.

Lemma dedup_spec (l : list string) :
  NoDup (Js.dedup l) ∧ ∀ x, x ∈ Js.dedup l ↔ x ∈ l.
Proof.
  destruct (dedup_from_spec l []) as [Hnd Hin]. split; [done|].
  intros x. rewrite (Hin x). split; [tauto|].
  intros ?. split; [done | apply not_elem_of_nil].
Qed.

Lemma increasingBy_NoDup {A} (f : A → nat) (l : list A) :
  increasingBy f l → NoDup (f <$> l).
Proof.
  intros Hl. apply NoDup_alt. intros i j y Hi Hj.
  rewrite list_lookup_fmap in Hi. rewrite list_lookup_fmap in Hj.
  destruct (l !! i) as [a|] eqn:Ha; [|done].
  destruct (l !! j) as [b|] eqn:Hb; [|done].
  simpl in Hi, Hj. injection Hi as <-. injection Hj as Hab.
  destruct (Nat.lt_trichotomy i j) as [Hlt | [-> | Hlt]]; [|done|].
  - pose proof (Hl i j a b Ha Hb Hlt). lia.
  - pose proof (Hl j i b a Hb Ha Hlt). lia.
Qed.

Lemma searchLines_increasing (file : string) (query : Regex.regex)
    (includeComments : bool) (lines todo : list string) :
  ∀ i, Forall (fun r => i < refLine r)
         (searchLines file query includeComments lines todo i)
       ∧ increasingBy refLine
           (searchLines file query includeComments lines todo i).
Proof.
  induction todo as [|x todo IH]; intros i; simpl.
  - split; [constructor | by intros ? ? ? ? ?].
  - destruct (IH (S i)) as [Hall Hinc].
    assert (Hall' : Forall (fun r => i < refLine r)
              (searchLines file query includeComments lines todo (S i)))
      by (eapply Forall_impl; [exact Hall|]; simpl; intros; lia).
    destruct (negb includeComments && isCommentLine x); [done|].
    destruct (Regex.test query x); [|done]. split.
    + constructor; [simpl; lia | done].
    + apply increasingBy_cons; [|done].
      eapply Forall_impl; [exact Hall|]. simpl. intros; lia.
Qed.

Lemma referenceLines_elem (file identifier : string) (lines todo : list string)
    (i : nat) (r : CodeReference) :
  r ∈ referenceLines file identifier lines todo i
  ↔ ∃ j l, todo !! j = Some l
           ∧ Regex.test (Patterns.wholeWord identifier) l = true
           ∧ r = {| refFile := file; refLine := i + j + 1;
                    refColumn := (Js.indexOf l identifier + 1)%Z;
                    context := contextAt lines (i + j) |}.
Proof.
  revert i. induction todo as [|x todo IH]; intros i; simpl.
  - split; [by intros ?%elem_of_nil | by intros (j & l & ? & _)].
  - destruct (Regex.test (Patterns.wholeWord identifier) x) eqn:Hx.
    + rewrite elem_of_cons, IH. split.
      * intros [-> | (j & l & Hl & Ht & ->)].
        -- exists 0, x. by rewrite Nat.add_0_r.
        -- exists (S j), l. split; [done|]. split; [done|].
           by replace (i + S j) with (S i + j) by lia.
      * intros ([|j] & l & Hl & Ht & ->); simpl in Hl.
        -- injection Hl as ->. left. by rewrite Nat.add_0_r.
        -- right. exists j, l. split; [done|]. split; [done|].
           by replace (S i + j) with (i + S j) by lia.
    + rewrite IH. split.
      * intros (j & l & Hl & Ht & ->). exists (S j), l.
        split; [done|]. split; [done|].
        by replace (i + S j) with (S i + j) by lia.
      * intros ([|j] & l & Hl & Ht & ->); simpl in Hl.
        -- injection Hl as ->. congruence.
        -- exists j, l. split; [done|]. split; [done|].
           by replace (S i + j) with (i + S j) by lia.
Qed.

Lemma elem_of_concat_map {A B} (g : A → list B) (l : list A) (x : B) :
  x ∈ concat (map g l) ↔ ∃ a, a ∈ l ∧ x ∈ g a.
Proof.
  induction l as [|a l IH]; simpl.
  - split; [by intros ?%elem_of_nil | by intros (? & ?%elem_of_nil & _)].
  - rewrite elem_of_app, IH. split.
    + intros [H | (b & Hb & H)].
      * exists a. split; [apply list_elem_of_here | done].
      * exists b. split; [by apply list_elem_of_further | done].
    + intros (b & Hb & H). apply elem_of_cons in Hb as [-> | Hb]; eauto.
Qed.

Lemma places_NoDup (g : string → list CodeReference) (files : list string) :
  NoDup files →
  (∀ f r, r ∈ g f → refFile r = f) →
  (∀ f, NoDup (place <$> g f)) →
  NoDup (place <$> concat (map g files)).
Proof.
  intros Hnd Hfile Hone. induction Hnd as [|f files Hf Hnd IH]; simpl.
  - constructor.
  - rewrite fmap_app. apply NoDup_app. split; [apply Hone|]. split; [|done].
    intros p Hp Hq.
    apply list_elem_of_fmap in Hp as (r & -> & Hr).
    apply list_elem_of_fmap in Hq as (r' & Heq & Hr').
    apply elem_of_concat_map in Hr' as (f' & Hf' & Hr').
    apply Hfile in Hr. apply Hfile in Hr'.
    unfold place in Heq. injection Heq as Heq _. congruence.
Qed.

Section SearchOnDisk.
Variable fs : FileSystem.

Lemma collectMatches_concat (query : Regex.regex) (includeComments : bool)
    (files : list string) :
  ∃ tr, ∀ st,
    collectMatches fs query includeComments files st
    = (Ok (concat (map (fileMatches fs query includeComments) files)), st, tr).
Proof.
  induction files as [|f files (tr & IH)]; simpl.
  - by exists [].
  - unfold bind, try_catch, readFileSync, ret, fileMatches.
    destruct (fs_read fs f); eexists; intros st; rewrite IH; reflexivity.
Qed.

Lemma collectReferences_concat (identifier : string) (files : list string) :
  ∃ tr, ∀ st,
    collectReferences fs identifier files st
    = (Ok (concat (map (fileReferences fs identifier) files)), st, tr).
Proof.
  induction files as [|f files (tr & IH)]; simpl.
  - by exists [].
  - unfold bind, try_catch, readFileSync, ret, fileReferences.
    destruct (fs_read fs f); eexists; intros st; rewrite IH; reflexivity.
Qed.

(** What searchCode collects before the cap, when its guards let it
    through. *)
Lemma rawMatches_value (query : Regex.regex) (filePattern : option string)
    (includeComments : option bool) (st : Analyzer) :
  searchable st = true →
  ∃ tr,
    rawMatches fs query filePattern includeComments st
    = (Ok (concat (map (fileMatches fs query (default true includeComments))
                     (scannedFiles fs (default defaultFilePattern filePattern) st))),
       st, tr).
Proof.
  unfold searchable. rewrite andb_true_iff, orb_true_iff.
  intros [Hinit Hpath].
  unfold rawMatches, scannedFiles, bind at 1, get. cbv beta iota zeta.
  rewrite Hinit. cbn [negb].
  replace (negb (Js.truthy (customPath st)) && negb (Js.truthy (unrealPath st)))
    with false by (destruct Hpath as [-> | ->]; by rewrite ?andb_false_r).
  cbv iota. unfold bind.
  destruct (textSearchPaths_total fs
              (Js.includes (default defaultFilePattern filePattern) "usf"
               || Js.includes (default defaultFilePattern filePattern) "ush") st)
    as (paths & trp & ->).
  destruct (globAll_uniform fs
              ("**/" +:+ default defaultFilePattern filePattern) paths)
    as (files & trg & Hg).
  rewrite Hg.
  destruct (collectMatches_concat query (default true includeComments)
              (Js.dedup files)) as (tr & Hc).
  rewrite Hc. simpl. rewrite (Hg st). simpl. by eexists.
Qed.

(** What findReferences collects before the cap. *)
Lemma rawReferences_value (identifier : string) (type : option SymbolKind)
    (st : Analyzer) :
  referenceSearchable st = true →
  ∃ searchPath tr,
    referenceSearchPath st = Some searchPath
    ∧ rawReferences fs identifier type st
      = (Ok (concat (map (fileReferences fs identifier)
                       (fs_glob fs sourceGlob searchPath sourceIgnore))),
         st, tr).
Proof.
  unfold referenceSearchable. rewrite andb_true_iff. intros [Hinit Hpath].
  unfold rawReferences, bind at 1, get. cbv beta iota zeta.
  rewrite Hinit. cbn [negb].
  destruct (referenceSearchPath st) as [p|]; [|done].
  rewrite Hpath. unfold bind, glob.
  destruct (collectReferences_concat identifier
              (fs_glob fs sourceGlob p sourceIgnore)) as (tr & ->).
  by eexists _, _.
Qed.

Lemma scannedFiles_NoDup (filePattern : string) (st : Analyzer) :
  NoDup (scannedFiles fs filePattern st).
Proof.
  unfold scannedFiles.
  destruct (result (textSearchPaths fs _ st)); try constructor.
  destruct (result (globAll fs _ _ st)); try constructor.
  apply dedup_spec.
Qed.

(** X7.  Every entry searchCode returns points into a scanned, readable
    file: its line number is a line of that file, counted from 1; its
    column is at least 1 and at most one past the end of that line; its
    context is the window around that line. *)
Theorem searchCode_entries_point_into_files
    (query : Regex.regex) (filePattern : option string)
    (includeComments : option bool) (st : Analyzer)
    (results : list CodeReference) :
  result (searchCode fs query filePattern includeComments st) = Ok results →
  ∀ r, r ∈ results →
    ∃ content l,
      refFile r ∈ scannedFiles fs (default defaultFilePattern filePattern) st
      ∧ fs_read fs (refFile r) = Some content
      ∧ 1 ≤ refLine r ∧ refLine r ≤ length (Js.split LF content)
      ∧ Js.split LF content !! (refLine r - 1) = Some l
      ∧ (1 ≤ refColumn r ∧ refColumn r ≤ Z.of_nat (String.length l) + 1)%Z
      ∧ context r = contextAt (Js.split LF content) (refLine r - 1).
Proof.
  intros Hres r Hr. unfold searchCode in Hres.
  rewrite result_bind_ret in Hres.
  destruct (searchable st) eqn:Hs.
  - destruct (rawMatches_value query filePattern includeComments st Hs)
      as (tr & Hrun).
    rewrite Hrun in Hres. simpl in Hres. injection Hres as <-.
    apply subseteq_take, elem_of_concat_map in Hr as (f & Hf & Hr).
    unfold fileMatches in Hr.
    destruct (fs_read fs f) as [content|] eqn:Hread;
      [|by apply elem_of_nil in Hr].
    apply searchLines_elem in Hr as (j & l & Hj & Hrep & ->).
    apply reportsLine_spec in Hrep as [Htest _].
    exists content, l. simpl. rewrite Nat.add_sub.
    pose proof (lookup_lt_Some _ _ _ Hj).
    split; [done|]. split; [done|]. split; [lia|]. split; [lia|].
    split; [done|]. split; [|done].
    unfold Regex.test in Htest. unfold Regex.search.
    destruct (Regex.exec query l) as [m|] eqn:Hm; [|done].
    apply exec_index_bound in Hm. lia.
  - destruct (rawMatches_guarded fs query filePattern includeComments st Hs)
      as (e & Hrun).
    rewrite Hrun in Hres. discriminate.
Qed.


(** X9.  searchCode never reports the same line of the same file twice,
    also when the search paths overlap (a custom root inside the engine
    tree, the shader directories inside the engine root): the files are
    de-duplicated before they are scanned. *)
Theorem searchCode_reports_each_line_once
    (query : Regex.regex) (filePattern : option string)
    (includeComments : option bool) (st : Analyzer)
    (results : list CodeReference) :
  result (searchCode fs query filePattern includeComments st) = Ok results →
  NoDup (place <$> results).
Proof.
  intros Hres. unfold searchCode in Hres.
  rewrite result_bind_ret in Hres.
  destruct (searchable st) eqn:Hs.
  - destruct (rawMatches_value query filePattern includeComments st Hs)
      as (tr & Hrun).
    rewrite Hrun in Hres. simpl in Hres. injection Hres as <-.
    rewrite fmap_take. eapply sublist_NoDup; [|apply sublist_take].
    apply places_NoDup.
    + apply scannedFiles_NoDup.
    + intros f r Hr. unfold fileMatches in Hr.
      destruct (fs_read fs f); [|by apply elem_of_nil in Hr].
      by apply searchLines_elem in Hr as (j & l & _ & _ & ->).
    + intros f. unfold fileMatches.
      destruct (fs_read fs f) as [content|]; [|constructor].
      destruct (searchLines_increasing f query (default true includeComments)
                  (Js.split LF content) (Js.split LF content) 0) as [_ Hinc].
      apply NoDup_alt. intros i j p Hi Hj.
      rewrite list_lookup_fmap in Hi. rewrite list_lookup_fmap in Hj.
      destruct (_ !! i) as [a|] eqn:Ha; [|done].
      destruct (_ !! j) as [b|] eqn:Hb; [|done].
      simpl in Hi, Hj. injection Hi as <-. injection Hj as _ Hline.
      destruct (Nat.lt_trichotomy i j) as [Hlt | [-> | Hlt]]; [|done|].
      * pose proof (Hinc i j a b Ha Hb Hlt). lia.
      * pose proof (Hinc j i b a Hb Ha Hlt). lia.
  - destruct (rawMatches_guarded fs query filePattern includeComments st Hs)
      as (e & Hrun).
    rewrite Hrun in Hres. discriminate.
Qed.

End SearchOnDisk.

(** ** The searches against their specification *)

Lemma is_space_asciiWhiteSpace (c : ascii) :
  Chr.is_space c = true ↔ c ∈ asciiWhiteSpace.
Proof.
  rewrite <- (bool_decide_eq_true (c ∈ asciiWhiteSpace)).
  by destruct c as [[] [] [] [] [] [] [] []].
Qed.

Lemma trimStart_split (l : list ascii) :
  ∃ ws, l = ws ++ Js.trimStart l
        ∧ Forall (fun c => Chr.is_space c = true) ws.
Proof.
  induction l as [|a l (ws & Hl & Hws)]; simpl.
  - by exists [].
  - destruct (Chr.is_space a) eqn:Ha.
    + exists (a :: ws). split; [by rewrite Hl at 1 | by constructor].
    + by exists [].
Qed.

Lemma trimStart_spaces (ws y : list ascii) :
  Forall (fun c => Chr.is_space c = true) ws →
  Js.trimStart (ws ++ y) = Js.trimStart y.
Proof.
  induction 1 as [|a ws Ha _ IH]; simpl; [done|]. by rewrite Ha.
Qed.

Lemma trimStart_app (x y : list ascii) (b : ascii) (t : list ascii) :
  y = b :: t → Chr.is_space b = false →
  Js.trimStart (x ++ y) = Js.trimStart x ++ y.
Proof.
  intros -> Hb. induction x as [|a x IH]; simpl; [by rewrite Hb|].
  by destruct (Chr.is_space a).
Qed.

(** The trimmed text starts with a two-character opener exactly when the
    opener follows the white space at the start of the line. *)
Lemma trim_startsWith (a b : ascii) (l : string) :
  Chr.is_space a = false → Chr.is_space b = false →
  Js.startsWith (Js.trim l) (Js.str [a; b]) = true
  ↔ ∃ ws rest, Forall (fun c => Chr.is_space c = true) ws
               ∧ Js.chars l = ws ++ a :: b :: rest.
Proof.
  intros Ha Hb. rewrite startsWith_spec. unfold Js.trim. split.
  - intros (r & Hr).
    destruct (trimStart_split (Js.chars l)) as (ws & Hl & Hws).
    destruct (trimStart_split (rev (Js.trimStart (Js.chars l))))
      as (ws' & Hl' & _).
    apply (f_equal Js.chars) in Hr. rewrite chars_str, chars_app in Hr.
    rewrite chars_str in Hr.
    apply (f_equal (@rev ascii)) in Hl'.
    rewrite rev_involutive, rev_app_distr, Hr in Hl'.
    exists ws, (Js.chars r ++ rev ws'). split; [done|].
    rewrite Hl at 1. rewrite Hl'. by rewrite <- !app_assoc.
  - intros (ws & rest & Hws & Hl).
    rewrite Hl, (trimStart_spaces ws _ Hws). simpl. rewrite Ha.
    change (rev (a :: b :: rest)) with (rev (a :: b :: rest)).
    replace (rev (a :: b :: rest)) with (rev rest ++ [b; a])
      by (simpl; by rewrite <- app_assoc).
    rewrite (trimStart_app (rev rest) [b; a] b [a] eq_refl Hb).
    rewrite rev_app_distr. simpl.
    by exists (Js.str (rev (Js.trimStart (rev rest)))).
Qed.

Lemma isCommentLine_CommentLine (l : string) :
  isCommentLine l = true ↔ CommentLine l.
Proof.
  unfold isCommentLine, CommentLine. rewrite orb_true_iff.
  rewrite (trim_startsWith "/" "/" l eq_refl eq_refl).
  rewrite (trim_startsWith "/" "*" l eq_refl eq_refl).
  split.
  - intros [(ws & rest & Hws & Hl) | (ws & rest & Hws & Hl)];
      exists ws, (Js.str rest);
      (split; [eapply Forall_impl; [exact Hws|];
               intros c; apply is_space_asciiWhiteSpace|]);
      [left | right];
      rewrite <- (str_chars l), Hl, str_app; f_equal;
      by rewrite (str_app [_; _]).
  - intros (ws & rest & Hws & [-> | ->]); [left | right];
      exists ws, (Js.chars rest);
      (split; [eapply Forall_impl; [exact Hws|];
               intros c; apply is_space_asciiWhiteSpace|]);
      by rewrite !chars_app, chars_str.
Qed.

Lemma afterWhiteSpace_split (l : list ascii) :
  ∃ ws, l = ws ++ afterWhiteSpace l
        ∧ Forall (fun c => c ∈ asciiWhiteSpace) ws.
Proof.
  induction l as [|a l (ws & Hl & Hws)]; simpl.
  - by exists [].
  - destruct (bool_decide (a ∈ asciiWhiteSpace)) eqn:Ha.
    + apply bool_decide_eq_true in Ha.
      exists (a :: ws). split; [by rewrite Hl at 1 | by constructor].
    + by exists [].
Qed.

Lemma afterWhiteSpace_app (ws y : list ascii) :
  Forall (fun c => c ∈ asciiWhiteSpace) ws →
  afterWhiteSpace (ws ++ y) = afterWhiteSpace y.
Proof.
  induction 1 as [|a ws Ha _ IH]; simpl; [done|].
  by rewrite (bool_decide_eq_true_2 _ Ha).
Qed.

Lemma opensComment_CommentLine (l : string) :
  opensComment l = true ↔ CommentLine l.
Proof.
  unfold opensComment, CommentLine. split.
  - destruct (afterWhiteSpace_split (Js.chars l)) as (ws & Hl & Hws).
    intros H. exists ws.
    destruct (afterWhiteSpace (Js.chars l)) as [|a [|b rest]]; [done| |].
    { by destruct a as [[] [] [] [] [] [] [] []]. }
    exists (Js.str rest). split; [done|].
    rewrite <- (str_chars l), Hl, str_app.
    destruct a as [[] [] [] [] [] [] [] []]; try done;
      destruct b as [[] [] [] [] [] [] [] []]; try done;
      first [left; reflexivity | right; reflexivity].
  - intros (ws & rest & Hws & [-> | ->]);
      rewrite !chars_app, chars_str, (afterWhiteSpace_app _ _ Hws);
      reflexivity.
Qed.

Lemma isCommentLine_opensComment (l : string) :
  isCommentLine l = opensComment l.
Proof.
  pose proof (isCommentLine_CommentLine l) as H1.
  pose proof (opensComment_CommentLine l) as H2.
  destruct (isCommentLine l), (opensComment l); try done.
  - symmetry. apply H2, H1. done.
  - apply H1, H2. done.
Qed.

Lemma linePlaces_ext (p q : string → bool) (file : string)
    (lines : list string) :
  (∀ l, p l = q l) → linePlaces p file lines = linePlaces q file lines.
Proof.
  intros H. unfold linePlaces. f_equal. apply imap_ext.
  intros i l _. simpl. by rewrite H.
Qed.

Lemma imap_places_shift (p : string → bool) (file : string) (i : nat)
    (todo : list string) :
  imap ((fun j l => if p l then Some (file, i + j + 1) else None) ∘ S) todo
  = imap (fun j l => if p l then Some (file, S i + j + 1) else None) todo.
Proof.
  apply imap_ext. intros j l _. simpl.
  by replace (i + S j + 1) with (S (i + j + 1)) by lia.
Qed.

Lemma searchLines_places (file : string) (query : Regex.regex)
    (includeComments : bool) (lines todo : list string) :
  ∀ i, place <$> searchLines file query includeComments lines todo i
       = omap id
           (imap (fun j l =>
                    if Regex.test query l
                       && (includeComments || negb (isCommentLine l))
                    then Some (file, i + j + 1) else None) todo).
Proof.
  induction todo as [|x todo IH]; intros i; [done|].
  cbn [searchLines]. rewrite imap_cons.
  rewrite (imap_places_shift
             (fun l => Regex.test query l
                       && (includeComments || negb (isCommentLine l)))).
  rewrite Nat.add_0_r. cbn [omap list_omap].
  destruct includeComments, (isCommentLine x), (Regex.test query x);
    simpl; rewrite ?IH; reflexivity.
Qed.

Lemma referenceLines_places (file identifier : string)
    (lines todo : list string) :
  ∀ i, place <$> referenceLines file identifier lines todo i
       = omap id
           (imap (fun j l =>
                    if Regex.test (Patterns.wholeWord identifier) l
                    then Some (file, i + j + 1) else None) todo).
Proof.
  induction todo as [|x todo IH]; intros i; [done|].
  cbn [referenceLines]. rewrite imap_cons.
  rewrite (imap_places_shift (Regex.test (Patterns.wholeWord identifier))).
  rewrite Nat.add_0_r. cbn [omap list_omap].
  destruct (Regex.test (Patterns.wholeWord identifier) x);
    simpl; rewrite ?IH; reflexivity.
Qed.

Lemma fileMatches_places (fs : FileSystem) (query : Regex.regex)
    (includeComments : bool) (file : string) :
  place <$> fileMatches fs query includeComments file
  = linePlaces (fun l => Regex.test query l
                         && (includeComments || negb (isCommentLine l)))
      file (linesOfFile fs file).
Proof.
  unfold fileMatches, linesOfFile, linePlaces.
  destruct (fs_read fs file); [|done]. apply searchLines_places.
Qed.

Lemma fileReferences_places (fs : FileSystem) (identifier file : string) :
  place <$> fileReferences fs identifier file
  = linePlaces (Regex.test (Patterns.wholeWord identifier)) file
      (linesOfFile fs file).
Proof.
  unfold fileReferences, linesOfFile, linePlaces.
  destruct (fs_read fs file); [|done]. apply referenceLines_places.
Qed.

Lemma fmap_concat_map {A B C} (f : B → C) (g : A → list B) (l : list A) :
  f <$> concat (map g l) = concat ((fun x => f <$> g x) <$> l).
Proof.
  induction l as [|x l IH]; [done|].
  simpl. by rewrite fmap_app, IH.
Qed.

Lemma globAll_concat (fs : FileSystem) (pattern : string)
    (paths : list string) :
  ∃ tr, ∀ st,
    globAll fs pattern paths st
    = (Ok (concat ((fun p => fs_glob fs pattern p sourceIgnore) <$> paths)),
       st, tr).
Proof.
  induction paths as [|p paths (tr & IH)]; simpl.
  - by exists [].
  - eexists. intros st. unfold bind, glob, ret. rewrite IH. reflexivity.
Qed.

Lemma textSearchPaths_textRoots (fs : FileSystem) (filePattern : string)
    (st : Analyzer) :
  result (textSearchPaths fs
            (Js.includes filePattern "usf" || Js.includes filePattern "ush") st)
  = Ok (textRoots fs filePattern st).
Proof.
  unfold textSearchPaths, textRoots, bind, get, ret. cbv beta iota zeta.
  assert (Hcustom :
    match customPath st with
    | Some p => if Js.truthy (Some p) then [p] else []
    | None => []
    end
    = if Js.truthy (customPath st)
      then [default EmptyString (customPath st)] else [])
    by by destruct (customPath st).
  rewrite Hcustom.
  destruct (unrealPath st) as [root|]; [|simpl; by rewrite app_nil_r].
  cbn [default]. destruct (Js.truthy (Some root));
    [|simpl; by rewrite app_nil_r].
  destruct (Js.includes filePattern "usf" || Js.includes filePattern "ush");
    [|done].
  destruct (existingDirs_filter fs
              [path_join (path_join root "Engine") "Shaders";
               path_join root "Shaders"]) as (tr & ->).
  done.
Qed.

Lemma scannedFiles_textFiles (fs : FileSystem) (filePattern : string)
    (st : Analyzer) :
  scannedFiles fs filePattern st = textFiles fs filePattern st.
Proof.
  unfold scannedFiles, textFiles. rewrite textSearchPaths_textRoots.
  destruct (globAll_concat fs ("**/" +:+ filePattern)
              (textRoots fs filePattern st)) as (tr & ->).
  done.
Qed.

Lemma take_all_lt {A} (n : nat) (l : list A) :
  length (take n l) < n → take n l = l.
Proof. rewrite length_take. intros H. apply take_ge. lia. Qed.





(** ** Lines, windows and path segments *)

Lemma elem_of_rev {A} (x : A) (l : list A) : x ∈ rev l ↔ x ∈ l.
Proof. rewrite !list_elem_of_In. symmetry. apply in_rev. Qed.

Lemma elem_of_drop_inv {A} (x : A) (n : nat) (l : list A) :
  x ∈ drop n l → x ∈ l.
Proof.
  intros (i & Hi)%list_elem_of_lookup_1. rewrite lookup_drop in Hi.
  by eapply list_elem_of_lookup_2.
Qed.

Lemma split_chars_nonempty (sep : ascii) (l cur : list ascii) :
  Js.split_chars sep cur l ≠ [].
Proof.
  revert cur. induction l as [|a l IH]; intros cur; simpl; [done|].
  destruct (Chr.eqb a sep); [done | apply IH].
Qed.

Lemma join_cons (sep p : string) (rest : list string) :
  rest ≠ [] → Js.join sep (p :: rest) = p +:+ sep +:+ Js.join sep rest.
Proof. by destruct rest. Qed.

Lemma join_split_chars (sep : ascii) (l : list ascii) :
  ∀ cur, Js.join (String sep EmptyString) (Js.split_chars sep cur l)
         = Js.str (rev cur ++ l).
Proof.
  induction l as [|a l IH]; intros cur; simpl.
  - by rewrite app_nil_r.
  - destruct (Chr.eqb a sep) eqn:Ha.
    + apply Ascii.eqb_eq in Ha as ->.
      rewrite join_cons by apply split_chars_nonempty.
      rewrite IH. simpl rev. simpl app at 1. rewrite (str_app (rev cur)).
      reflexivity.
    + rewrite IH. simpl. by rewrite <- app_assoc.
Qed.

(** Joining the pieces of a split gives the string back. *)
Lemma join_split (sep : ascii) (s : string) :
  Js.join (String sep EmptyString) (Js.split sep s) = s.
Proof. unfold Js.split. rewrite join_split_chars. simpl. apply str_chars. Qed.

Lemma split_chars_no_sep (sep : ascii) (l : list ascii) :
  ∀ cur, sep ∉ cur →
         Forall (fun p => sep ∉ Js.chars p) (Js.split_chars sep cur l).
Proof.
  induction l as [|a l IH]; intros cur Hcur; simpl.
  - constructor; [|constructor]. rewrite chars_str. by rewrite elem_of_rev.
  - destruct (Chr.eqb a sep) eqn:Ha.
    + constructor; [rewrite chars_str; by rewrite elem_of_rev|].
      apply IH, not_elem_of_nil.
    + apply IH. rewrite elem_of_cons. intros [-> | ?]; [|done].
      unfold Chr.eqb in Ha. by rewrite Ascii.eqb_refl in Ha.
Qed.

(** The pieces of a split do not contain the separator. *)
Lemma split_no_sep (sep : ascii) (s : string) :
  Forall (fun p => sep ∉ Js.chars p) (Js.split sep s).
Proof. apply split_chars_no_sep, not_elem_of_nil. Qed.

Lemma split_chars_piece (sep : ascii) (p : list ascii) :
  ∀ cur rest, sep ∉ p →
    Js.split_chars sep cur (p ++ rest) = Js.split_chars sep (rev p ++ cur) rest.
Proof.
  induction p as [|a p IH]; intros cur rest Hp; simpl; [done|].
  destruct (Chr.eqb a sep) eqn:Ha.
  - apply Ascii.eqb_eq in Ha as ->. destruct Hp. apply list_elem_of_here.
  - rewrite IH by (intros ?; apply Hp; by apply list_elem_of_further).
    by rewrite <- app_assoc.
Qed.

(** Splitting a join of pieces without separator gives the pieces back. *)
Lemma split_join (sep : ascii) (parts : list string) :
  parts ≠ [] → Forall (fun p => sep ∉ Js.chars p) parts →
  Js.split sep (Js.join (String sep EmptyString) parts) = parts.
Proof.
  intros Hne Hall. unfold Js.split.
  induction Hall as [|p parts Hp Hall IH]; [done|].
  destruct parts as [|q parts].
  - simpl. rewrite <- (app_nil_r (Js.chars p)).
    rewrite split_chars_piece by done. simpl.
    by rewrite app_nil_r, rev_involutive, str_chars.
  - rewrite join_cons by done. rewrite !chars_app.
    rewrite split_chars_piece by done. simpl.
    unfold Chr.eqb. rewrite Ascii.eqb_refl.
    rewrite app_nil_r, rev_involutive, str_chars. f_equal. by apply IH.
Qed.

Lemma slice_clip {A} (from to : nat) (l : list A) :
  Js.slice from (Nat.min (length l) to) l = Js.slice from to l.
Proof.
  unfold Js.slice.
  rewrite <- (take_ge (drop from l) (length l - from))
    by (rewrite length_drop; lia).
  rewrite !take_take. f_equal. lia.
Qed.

Lemma slice_lookup {A} (from to k : nat) (l : list A) :
  k < to - from → Js.slice from to l !! k = l !! (from + k).
Proof.
  intros Hk. unfold Js.slice. rewrite lookup_take_lt by done.
  apply lookup_drop.
Qed.

(** X10.  The context of a match on line [i] of a file is made of the
    lines of the file from two before to two after the match, clipped at
    the start and the end of the file: at most five lines, the matched
    line among them; the pattern advisor, which clips the upper end
    itself, takes the same window. *)
Theorem context_is_window_around_line (content : string) (i : nat) :
  let lines := Js.split LF content in
  let window := Js.slice (i - 2) (i + 3) lines in
  i < length lines →
  Js.split LF (contextAt lines i) = window
  ∧ length window ≤ 5
  ∧ window !! (Nat.min i 2) = lines !! i
  ∧ (∀ k, k < length window → window !! k = lines !! (i - 2 + k))
  ∧ length window = Nat.min (length lines) (i + 3) - (i - 2)
  ∧ patternContextAt lines i = contextAt lines i.
Proof.
  intros lines window Hi.
  assert (Hlen : length window = Nat.min (length lines) (i + 3) - (i - 2)).
  { unfold window, Js.slice. rewrite length_take, length_drop. lia. }
  assert (Hlook : ∀ k, k < length window →
            window !! k = lines !! (i - 2 + k)).
  { intros k Hk. apply slice_lookup. lia. }
  split.
  { unfold contextAt. fold window. apply split_join.
    - intros Hnil. rewrite Hnil in Hlen. simpl in Hlen. lia.
    - pose proof (split_no_sep LF content) as Hall. fold lines in Hall.
      rewrite Forall_forall in Hall |- *. intros x Hx. apply Hall.
      unfold window, Js.slice in Hx.
      eapply elem_of_drop_inv, subseteq_take, Hx. }
  split; [lia|]. split.
  { rewrite Hlook by lia. f_equal. lia. }
  split; [done|]. split; [done|].
  unfold patternContextAt, contextAt. by rewrite slice_clip.
Qed.

Lemma segmentAfterRuntime_app (pre rest : list string) :
  "Runtime" ∉ pre →
  segmentAfterRuntime (pre ++ rest) = segmentAfterRuntime rest.
Proof.
  induction pre as [|p pre IH]; intros Hpre; simpl; [done|].
  destruct (String.eqb p "Runtime") eqn:Hp.
  - apply String.eqb_eq in Hp as ->. destruct Hpre. apply list_elem_of_here.
  - apply IH. intros ?. apply Hpre. by apply list_elem_of_further.
Qed.

(** X11.  The module of a class is read off the path of its header: the
    segment that follows the first segment named Runtime, and Core when
    no segment is named Runtime or when Runtime is the last segment. *)
Theorem module_is_segment_after_Runtime (segments : list string) :
  segments ≠ [] →
  Forall (fun s => "/"%char ∉ Js.chars s) segments →
  (∀ pre m post,
     segments = pre ++ "Runtime" :: m :: post → "Runtime" ∉ pre →
     determineModule (Js.join "/" segments) = m)
  ∧ (∀ pre, segments = pre ++ ["Runtime"] → "Runtime" ∉ pre →
       determineModule (Js.join "/" segments) = "Core")
  ∧ ("Runtime" ∉ segments →
     determineModule (Js.join "/" segments) = "Core").
Proof.
  intros Hne Hall. unfold determineModule.
  rewrite (split_join "/" segments Hne Hall).
  split; [|split].
  - intros pre m post -> Hpre. by rewrite segmentAfterRuntime_app.
  - intros pre -> Hpre. by rewrite segmentAfterRuntime_app.
  - intros Hno. rewrite <- (app_nil_r segments).
    by rewrite segmentAfterRuntime_app.
Qed.

(** ** API entries and queries *)

(** X12.  The category of a class is one of five names and goes by the
    first letter before anything else: a name in U is an Object, then a
    name in A an Actor, then a name in F a Structure; a class is a
    Component only when its name starts with none of the three letters
    and one of its superclasses has Component in its name (so a class
    named like UActorComponent is an Object). *)
Theorem category_by_prefix_then_component (info : ClassInfo) :
  determineCategory info
  ∈ ["Object"; "Actor"; "Structure"; "Component"; "Miscellaneous"]
  ∧ (Js.startsWith (name info) "U" = true → determineCategory info = "Object")
  ∧ (Js.startsWith (name info) "U" = false →
     Js.startsWith (name info) "A" = true → determineCategory info = "Actor")
  ∧ (Js.startsWith (name info) "U" = false →
     Js.startsWith (name info) "A" = false →
     Js.startsWith (name info) "F" = true →
     determineCategory info = "Structure")
  ∧ (determineCategory info = "Component"
     ↔ Js.startsWith (name info) "U" = false
       ∧ Js.startsWith (name info) "A" = false
       ∧ Js.startsWith (name info) "F" = false
       ∧ ∃ s, s ∈ superclasses info ∧ Js.includes s "Component" = true).
Proof.
  unfold determineCategory.
  assert (Hex : existsb (fun s => Js.includes s "Component") (superclasses info)
                = true
                ↔ ∃ s, s ∈ superclasses info ∧ Js.includes s "Component" = true).
  { rewrite existsb_exists. by setoid_rewrite list_elem_of_In. }
  destruct (Js.startsWith (name info) "U");
    [split_and!; try done; [apply list_elem_of_In; simpl; tauto | split; [done | by intros (? & _)]]|].
  destruct (Js.startsWith (name info) "A");
    [split_and!; try done; [apply list_elem_of_In; simpl; tauto | split; [done | by intros (_ & ? & _)]]|].
  destruct (Js.startsWith (name info) "F");
    [split_and!; try done;
     [apply list_elem_of_In; simpl; tauto | split; [done | by intros (_ & _ & ? & _)]]|].
  destruct (existsb _ (superclasses info)) eqn:He.
  - split_and!; try done; [apply list_elem_of_In; simpl; tauto|].
    split; [intros _; split_and!; try done; by apply Hex | done].
  - split_and!; try done; [apply list_elem_of_In; simpl; tauto|].
    split; [done|]. intros (_ & _ & _ & Hs). apply Hex in Hs. congruence.
Qed.

Lemma getOrCreateApiReference_run (info : ClassInfo) (st : Analyzer) :
  ∃ a st',
    getOrCreateApiReference info st = (Ok a, st', [])
    ∧ apiCache st' !! name info = Some a
    ∧ classCache st' = classCache st ∧ config st' = config st
    ∧ apiCache st ⊆ apiCache st'
    ∧ (apiCache st !! name info = Some a ∧ st' = st
       ∨ apiCache st !! name info = None
         ∧ apiCache st' = <[name info := a]> (apiCache st)
         ∧ apiClassName a = name info ∧ examples a = [] ∧ remarks a = []
         ∧ relatedClasses a = superclasses info ++ interfaces info
         ∧ category a = determineCategory info
         ∧ module a = determineModule (file info)).
Proof.
  unfold getOrCreateApiReference, bind, get, put, ret. simpl.
  destruct (apiCache st !! name info) as [a|] eqn:Ha.
  - exists a, st. repeat split; try done. by left.
  - eexists _, _. split; [reflexivity|]. simpl.
    split; [apply lookup_insert_eq|]. split; [done|]. split; [done|].
    split; [by apply insert_subseteq|]. right. done.
Qed.

(** X13.  An API entry is cached under the name of the class and never
    refreshed: once a class has an entry, asking for the entry of any
    record of that name (also one with other bases or another file)
    returns the cached entry and changes nothing; and synthesizing an
    entry touches neither the roots nor the class cache nor the disk. *)
Theorem api_entry_is_never_refreshed
    (info1 info2 : ClassInfo) (st : Analyzer) :
  name info2 = name info1 →
  let first := getOrCreateApiReference info1 st in
  trace first = []
  ∧ classCache (final first) = classCache st
  ∧ config (final first) = config st
  ∧ getOrCreateApiReference info2 (final first)
    = (result first, final first, []).
Proof.
  intros Hname.
  destruct (getOrCreateApiReference_run info1 st)
    as (a & st' & -> & Ha & Hc & Hcfg & _).
  simpl. split; [done|]. split; [done|]. split; [done|].
  unfold getOrCreateApiReference, bind, get, ret. simpl.
  by rewrite Hname, Ha.
Qed.

Lemma sortByRelevance_perm (l : list ApiQueryResult) :
  sortByRelevance l ≡ₚ l.
Proof.
  induction l as [|x l IH]; simpl; [done|].
  rewrite <- IH at 2. generalize (sortByRelevance l). clear.
  intros s. induction s as [|y s IH]; simpl; [done|].
  destruct (relevance x <? relevance y); [|done].
  rewrite IH. apply Permutation_swap.
Qed.

Lemma insertByRelevance_descending (x : ApiQueryResult)
    (s : list ApiQueryResult) :
  descendingBy relevance s → descendingBy relevance (insertByRelevance x s).
Proof.
  induction s as [|y s IH]; intros Hs; simpl.
  - intros [|i] [|j] a b Ha Hb Hij; simpl in *; try done; lia.
  - assert (Htail : descendingBy relevance s)
      by (intros i j a b Ha Hb Hij; apply (Hs (S i) (S j)); [done..|lia]).
    assert (Hy : Forall (fun b => relevance b ≤ relevance y) s).
    { rewrite Forall_forall. intros b (j & Hb)%list_elem_of_lookup_1.
      apply (Hs 0 (S j)); [done | done | lia]. }
    destruct (relevance x <? relevance y) eqn:Hxy.
    + apply Nat.ltb_lt in Hxy. apply descendingBy_cons; [|by apply IH].
      rewrite Forall_forall. intros b Hb.
      assert (Hb' : b ∈ x :: s).
      { assert (Hp : insertByRelevance x s ≡ₚ x :: s).
        { clear. induction s as [|z s IH]; simpl; [done|].
          destruct (relevance x <? relevance z); [|done].
          rewrite IH. apply Permutation_swap. }
        by rewrite <- Hp. }
      apply elem_of_cons in Hb' as [-> | Hb']; [lia|].
      rewrite Forall_forall in Hy. by apply Hy.
    + apply Nat.ltb_ge in Hxy. apply descendingBy_cons; [|done].
      constructor; [done|]. eapply Forall_impl; [exact Hy|]. simpl. lia.
Qed.

Lemma sortByRelevance_descending (l : list ApiQueryResult) :
  descendingBy relevance (sortByRelevance l).
Proof.
  induction l as [|x l IH]; simpl.
  - by intros i j a b ?.
  - by apply insertByRelevance_descending.
Qed.

Lemma sliceTo_take {A} (n : Z) (l : list A) :
  ∃ k, sliceTo n l = take k l ∧ ((0 <= n)%Z → k = Z.to_nat n).
Proof.
  unfold sliceTo. destruct (0 <=? n)%Z eqn:Hn.
  - eexists. split; [done|]. done.
  - eexists. split; [done|]. intros ?. apply Z.leb_gt in Hn. lia.
Qed.

Lemma descendingBy_take {A} (f : A → nat) (n : nat) (l : list A) :
  descendingBy f l → descendingBy f (take n l).
Proof.
  intros Hl i j a b Ha Hb Hij.
  apply lookup_take_Some in Ha as [Ha _]. apply lookup_take_Some in Hb as [Hb _].
  by apply (Hl i j).
Qed.

Lemma generateApiContext_no_examples (a : ApiReference) (b1 b2 : option bool) :
  examples a = [] → generateApiContext a b1 = generateApiContext a b2.
Proof.
  intros Ha. unfold generateApiContext. rewrite Ha. simpl.
  by rewrite !andb_false_r.
Qed.

Lemma getOrCreateApiReference_without_examples
    (info : ClassInfo) (st : Analyzer) :
  apiWithoutExamples st →
  ∃ a st', getOrCreateApiReference info st = (Ok a, st', [])
           ∧ examples a = [] ∧ apiWithoutExamples st'.
Proof.
  intros Hst.
  destruct (getOrCreateApiReference_run info st)
    as (a & st' & Hrun & Ha & _ & _ & _ & Hcase).
  exists a, st'. split; [done|].
  destruct Hcase as [(Hold & ->) | (_ & Hnew & _ & Hex & _)].
  - split; [by eapply Hst | done].
  - split; [done|]. intros k b. rewrite Hnew.
    destruct (decide (name info = k)) as [<-|Hk].
    + rewrite lookup_insert_eq. by intros [= <-].
    + rewrite lookup_insert_ne by done. apply Hst.
Qed.

(** What the loop of queryApiReference collects, for any order of the
    entries. *)
Lemma collectApiResults_run (terms : list string) (o : QueryOptions)
    (entries : list (string * ClassInfo)) (st : Analyzer) :
  ∃ results st',
    collectApiResults terms o entries st = (Ok results, st', [])
    ∧ classCache st' = classCache st ∧ config st' = config st
    ∧ apiCache st ⊆ apiCache st'
    ∧ length results ≤ length entries
    ∧ ∀ r, r ∈ results →
        0 < relevance r
        ∧ relevance r = calculateApiRelevance (reference r) terms
        ∧ filteredOut (optCategory o) (category (reference r)) = false
        ∧ filteredOut (optModule o) (module (reference r)) = false
        ∧ resultContext r = generateApiContext (reference r) (includeExamples o)
        ∧ ∃ className info,
            (className, info) ∈ entries
            ∧ apiCache st' !! name info = Some (reference r).
Proof.
  revert st. induction entries as [|[cn ci] rest IH]; intros st.
  - exists [], st. simpl. unfold ret. split_and!; try done.
    intros r Hr. by apply elem_of_nil in Hr.
  - destruct (getOrCreateApiReference_run ci st)
      as (a & st1 & Hrun & Ha & Hc1 & Hcfg1 & Hsub1 & _).
    destruct (IH st1) as (others & st2 & Hrest & Hc2 & Hcfg2 & Hsub2 & Hlen & Hall).
    cbn [collectApiResults]. unfold bind at 1. rewrite Hrun.
    unfold bind at 1. rewrite Hrest. unfold ret. simpl.
    eexists _, st2. split; [reflexivity|].
    split; [congruence|]. split; [congruence|].
    split; [by etrans|].
    assert (Ha2 : apiCache st2 !! name ci = Some a)
      by (eapply lookup_weaken; eauto).
    split.
    { rewrite length_app.
      destruct (filteredOut (optCategory o) (category a)); [simpl; lia|].
      destruct (filteredOut (optModule o) (module a)); [simpl; lia|].
      destruct (0 <? _); simpl; lia. }
    intros r [Hr | Hr]%elem_of_app.
    + destruct (filteredOut (optCategory o) (category a)) eqn:Hfc;
        [by apply elem_of_nil in Hr|].
      destruct (filteredOut (optModule o) (module a)) eqn:Hfm;
        [by apply elem_of_nil in Hr|].
      destruct (0 <? calculateApiRelevance a terms) eqn:Hs;
        [|by apply elem_of_nil in Hr].
      apply list_elem_of_singleton in Hr as ->. simpl.
      apply Nat.ltb_lt in Hs. repeat split; try done.
      exists cn, ci. split; [by left | done].
    + destruct (Hall r Hr) as (? & ? & ? & ? & ? & cn' & ci' & Hin & Hlk).
      repeat split; try done. exists cn', ci'. split; [by right | done].
Qed.

Lemma take_elem_of {A} (k : nat) (l : list A) (x : A) :
  x ∈ take k l → x ∈ l.
Proof.
  intros (i & Hi)%list_elem_of_lookup_1.
  apply lookup_take_Some in Hi as [Hi _]. by eapply list_elem_of_lookup_2.
Qed.

(** X14.  A query needs an initialized analyzer and otherwise always
    answers, without a look at the disk and without a change to the roots
    or the class cache, whatever the order in which the cache is gone
    through: the results are in descending order of relevance; each one
    has a positive relevance, which is the score of its entry for the
    terms of the query, passes the category and module filters, and
    belongs to a class of the cache whose API entry is cached afterwards;
    there are at most as many results as cached classes, at most
    maxResults when that is positive, and at most ten when it is absent
    or zero. *)
Theorem query_results_sorted_filtered_capped
    (entriesOf : gmap string ClassInfo → list (string * ClassInfo))
    (query : string) (o : QueryOptions) (st : Analyzer) :
  (∀ m k v, (k, v) ∈ entriesOf m → m !! k = Some v) →
  (initialized st = false →
   queryApiReference entriesOf query o st = (Err NotInitialized, st, []))
  ∧ (initialized st = true →
     ∃ results st',
       queryApiReference entriesOf query o st = (Ok results, st', [])
       ∧ classCache st' = classCache st ∧ config st' = config st
       ∧ apiCache st ⊆ apiCache st'
       ∧ descendingBy relevance results
       ∧ length results ≤ length (entriesOf (classCache st))
       ∧ ((0 < resultLimit o)%Z → length results ≤ Z.to_nat (resultLimit o))
       ∧ (maxResults o = None ∨ maxResults o = Some 0%Z →
          length results ≤ 10)
       ∧ ∀ r, r ∈ results →
           0 < relevance r
           ∧ relevance r
             = calculateApiRelevance (reference r) (searchTermsOf query)
           ∧ filteredOut (optCategory o) (category (reference r)) = false
           ∧ filteredOut (optModule o) (module (reference r)) = false
           ∧ ∃ className info,
               classCache st !! className = Some info
               ∧ apiCache st' !! name info = Some (reference r)).
Proof.
  intros Hentries. split; intros Hinit.
  - unfold queryApiReference, bind at 1, get. simpl. by rewrite Hinit.
  - unfold queryApiReference, bind at 1, get. simpl. rewrite Hinit. simpl.
    destruct (collectApiResults_run (searchTermsOf query) o
                (entriesOf (classCache st)) st)
      as (results & st' & Hrun & Hc & Hcfg & Hsub & Hlen & Hall).
    unfold bind. rewrite Hrun. unfold ret. simpl.
    destruct (sliceTo_take (resultLimit o) (sortByRelevance results))
      as (k & -> & Hk).
    eexists _, st'. split; [reflexivity|].
    split; [done|]. split; [done|]. split; [done|].
    split; [apply descendingBy_take, sortByRelevance_descending|].
    assert (Hlen' : length (take k (sortByRelevance results))
                    ≤ length (entriesOf (classCache st))).
    { rewrite length_take, (Permutation_length (sortByRelevance_perm results)).
      lia. }
    split; [done|].
    split; [intros Hpos; rewrite length_take, Hk; lia|].
    split.
    { intros Hmax.
      assert (Hten : resultLimit o = 10%Z)
        by (unfold resultLimit; destruct Hmax as [-> | ->]; reflexivity).
      rewrite length_take, Hk; rewrite Hten; lia. }
    intros r Hr%take_elem_of. rewrite sortByRelevance_perm in Hr.
    destruct (Hall r Hr) as (? & ? & ? & ? & _ & cn & ci & Hin & Hlk).
    repeat split; try done. exists cn, ci. split; [by apply Hentries | done].
Qed.

Lemma collectApiResults_includeExamples (terms : list string)
    (o : QueryOptions) (b : option bool)
    (entries : list (string * ClassInfo)) (st : Analyzer) :
  apiWithoutExamples st →
  collectApiResults terms (withExamples b o) entries st
  = collectApiResults terms o entries st
  ∧ apiWithoutExamples (final (collectApiResults terms o entries st)).
Proof.
  revert st. induction entries as [|[cn ci] rest IH]; intros st Hst.
  - by simpl.
  - destruct (getOrCreateApiReference_without_examples ci st Hst)
      as (a & st1 & Hrun & Hex & Hst1).
    destruct (IH st1 Hst1) as [Heq Hfin].
    destruct (collectApiResults_run terms o rest st1)
      as (others & st2 & Hrest & _).
    rewrite Hrest in Heq, Hfin. simpl in Hfin.
    cbn [collectApiResults]. unfold bind. rewrite Hrun, Heq, Hrest.
    unfold ret. simpl. split; [|done].
    assert (Hsame : ∀ s, apiResult cn a (withExamples b o) s
                         = apiResult cn a o s).
    { intros s. unfold apiResult. simpl.
      by rewrite (generateApiContext_no_examples a b (includeExamples o)). }
    by rewrite Hsame.
Qed.

(** X15.  As long as no cached API entry has examples (the entries the
    analyzer synthesizes have none), the option includeExamples changes
    nothing in the answer of a query, and the entries cached by the query
    are again without examples. *)
Theorem includeExamples_changes_nothing
    (entriesOf : gmap string ClassInfo → list (string * ClassInfo))
    (query : string) (o : QueryOptions) (b : option bool) (st : Analyzer) :
  apiWithoutExamples st →
  queryApiReference entriesOf query (withExamples b o) st
  = queryApiReference entriesOf query o st
  ∧ apiWithoutExamples (final (queryApiReference entriesOf query o st)).
Proof.
  intros Hst. unfold queryApiReference, bind, get. simpl.
  destruct (initialized st); simpl; [|done].
  destruct (collectApiResults_includeExamples (searchTermsOf query) o b
              (entriesOf (classCache st)) st Hst) as [Heq Hfin].
  rewrite Heq.
  by destruct (collectApiResults (searchTermsOf query) o _ st)
    as [[[others| |] st2] tr].
Qed.

Lemma empty_term_scores_22 (a : ApiReference) :
  calculateApiRelevance a [EmptyString] = 22.
Proof.
  unfold calculateApiRelevance, addTermScore. cbn [fold_left].
  by rewrite !includes_empty.
Qed.

Lemma collectApiResults_empty_term (o : QueryOptions)
    (entries : list (string * ClassInfo)) (st : Analyzer) :
  Js.truthy (optCategory o) = false →
  Js.truthy (optModule o) = false →
  ∃ results st',
    collectApiResults [EmptyString] o entries st = (Ok results, st', [])
    ∧ length results = length entries
    ∧ ∀ r, r ∈ results → relevance r = 22.
Proof.
  intros Hc Hm. revert st. induction entries as [|[cn ci] rest IH]; intros st.
  - exists [], st. split_and!; try done. intros r Hr. by apply elem_of_nil in Hr.
  - destruct (getOrCreateApiReference_run ci st) as (a & st1 & Hrun & _).
    destruct (IH st1) as (others & st2 & Hrest & Hlen & Hall).
    cbn [collectApiResults]. unfold bind. rewrite Hrun, Hrest.
    unfold ret, filteredOut. rewrite Hc, Hm, empty_term_scores_22. simpl.
    eexists _, _. split; [reflexivity|]. split; [simpl; by rewrite Hlen|].
    intros r [-> | Hr]%elem_of_cons; [done | by apply Hall].
Qed.

(** X16.  The empty query matches everything: its one search term is the
    empty string, which every text includes, so without an effective
    category or module filter every cached class is a result with
    relevance 22, and the answer holds as many results as the limit
    allows. *)
Theorem empty_query_returns_every_class
    (entriesOf : gmap string ClassInfo → list (string * ClassInfo))
    (o : QueryOptions) (st : Analyzer) :
  (∀ m, entriesOf m ≡ₚ map_to_list m) →
  initialized st = true →
  Js.truthy (optCategory o) = false →
  Js.truthy (optModule o) = false →
  (0 < resultLimit o)%Z →
  searchTermsOf EmptyString = [EmptyString]
  ∧ ∃ results st',
      queryApiReference entriesOf EmptyString o st = (Ok results, st', [])
      ∧ length results
        = Nat.min (Z.to_nat (resultLimit o)) (size (classCache st))
      ∧ ∀ r, r ∈ results → relevance r = 22.
Proof.
  intros Hperm Hinit Hc Hm Hpos. split; [reflexivity|].
  unfold queryApiReference, bind at 1, get. simpl. rewrite Hinit. simpl.
  change (searchTermsOf EmptyString) with [EmptyString].
  destruct (collectApiResults_empty_term o (entriesOf (classCache st)) st
              Hc Hm) as (results & st' & Hrun & Hlen & Hall).
  unfold bind. rewrite Hrun. unfold ret. simpl.
  destruct (sliceTo_take (resultLimit o) (sortByRelevance results))
    as (k & -> & Hk).
  eexists _, st'. split; [reflexivity|]. split.
  - rewrite length_take, Hk by lia.
    rewrite (Permutation_length (sortByRelevance_perm results)), Hlen.
    by rewrite (Permutation_length (Hperm _)), length_map_to_list.
  - intros r Hr%take_elem_of. rewrite sortByRelevance_perm in Hr.
    by apply Hall.
Qed.

(** ** The pattern advisor *)

Lemma includes_occurs (s t : string) :
  Js.includes s t = true ↔ occursIn t s.
Proof.
  unfold occursIn. induction s as [|a s IH]; cbn [Js.includes].
  - rewrite orb_false_r. split.
    + intros (post & Hp)%startsWith_spec. by exists EmptyString, post.
    + intros ([|] & post & Hp); [|done]. apply startsWith_spec. by exists post.
  - rewrite orb_true_iff, IH. split.
    + intros [(post & Hp)%startsWith_spec | (pre & post & ->)].
      * by exists EmptyString, post.
      * by exists (String a pre), post.
    + intros ([|b pre] & post & Hp).
      * left. apply startsWith_spec. by exists post.
      * right. simpl in Hp. injection Hp as _ Hs. by exists pre, post.
Qed.

Lemma append_assoc (a b c : string) : (a +:+ b) +:+ c = a +:+ (b +:+ c).
Proof.
  induction a as [|x a IH]; [reflexivity|].
  change (String x ((a +:+ b) +:+ c) = String x (a +:+ b +:+ c)).
  by rewrite IH.
Qed.

Lemma append_nil_r (a : string) : a +:+ EmptyString = a.
Proof.
  induction a as [|x a IH]; [reflexivity|].
  change (String x (a +:+ EmptyString) = String x a). by rewrite IH.
Qed.

Lemma occursIn_trans (t s u : string) :
  occursIn t s → occursIn s u → occursIn t u.
Proof.
  intros (p1 & q1 & ->) (p2 & q2 & ->).
  exists (p2 +:+ p1), (q1 +:+ q2). by rewrite !append_assoc.
Qed.

Lemma join_occurs (sep l : string) (parts : list string) :
  l ∈ parts → occursIn l (Js.join sep parts).
Proof.
  induction parts as [|p rest IH]; intros Hin; [by apply elem_of_nil in Hin|].
  destruct rest as [|q rest].
  - apply list_elem_of_singleton in Hin as ->.
    exists EmptyString, EmptyString. symmetry. apply append_nil_r.
  - rewrite join_cons by done.
    apply elem_of_cons in Hin as [-> | Hin].
    + by exists EmptyString, (sep +:+ Js.join sep (q :: rest)).
    + destruct (IH Hin) as (pre & post & ->).
      exists (p +:+ sep +:+ pre), post. by rewrite !append_assoc.
Qed.

Lemma patternLines_spec (p : PatternInfo) (r : Regex.regex) (filePath : string)
    (lines todo : list string) :
  ∀ i, (∀ k, todo !! k = lines !! (i + k)) →
       increasingBy matchLine (patternLines p r filePath lines todo i)
       ∧ length (patternLines p r filePath lines todo i) ≤ length todo
       ∧ ∀ m, m ∈ patternLines p r filePath lines todo i
              ↔ ∃ j l, i ≤ j ∧ lines !! j = Some l ∧ Regex.test r l = true
                       ∧ m = patternMatchAt p filePath lines j.
Proof.
  induction todo as [|x todo IH]; intros i Hlines.
  - split; [by intros ? ? ? ? ?|]. split; [done|]. intros m. split.
    + intros Hm. by apply elem_of_nil in Hm.
    + intros (j & l & Hij & Hl & _). exfalso.
      specialize (Hlines (j - i)). rewrite lookup_nil in Hlines.
      replace (i + (j - i)) with j in Hlines by lia. congruence.
  - assert (Hx : lines !! i = Some x)
      by (rewrite <- (Nat.add_0_r i); symmetry; apply (Hlines 0)).
    destruct (IH (S i)) as (Hinc & Hlen & Hall).
    { intros k. replace (S i + k) with (i + S k) by lia. apply (Hlines (S k)). }
    assert (Hrest : ∀ m, m ∈ patternLines p r filePath lines todo (S i)
                         → matchLine (patternMatchAt p filePath lines i)
                           < matchLine m).
    { intros m (j & l & Hij & _ & _ & ->)%Hall. simpl. lia. }
    cbn [patternLines]. fold (patternMatchAt p filePath lines i).
    destruct (Regex.test r x) eqn:Ht.
    + split; [apply increasingBy_cons; [by rewrite Forall_forall | done]|].
      split; [simpl; lia|]. intros m. rewrite elem_of_cons, Hall. split.
      * intros [-> | (j & l & Hij & Hl & Hm)]; [by exists i, x|].
        exists j, l. split; [lia | done].
      * intros (j & l & Hij & Hl & Htest & ->).
        destruct (decide (j = i)) as [-> | Hne]; [by left|].
        right. exists j, l. split; [lia | done].
    + split; [done|]. split; [simpl; lia|]. intros m. rewrite Hall. split.
      * intros (j & l & Hij & Hl & Hm). exists j, l. split; [lia | done].
      * intros (j & l & Hij & Hl & Htest & ->).
        destruct (decide (j = i)) as [-> | Hne]; [congruence|].
        exists j, l. split; [lia | done].
Qed.

Lemma ordered_app {A} (R : A → A → Prop) (l k : list A) :
  (∀ i j a b, l !! i = Some a → l !! j = Some b → i < j → R a b) →
  (∀ i j a b, k !! i = Some a → k !! j = Some b → i < j → R a b) →
  (∀ a b, a ∈ l → b ∈ k → R a b) →
  ∀ i j a b, (l ++ k) !! i = Some a → (l ++ k) !! j = Some b → i < j → R a b.
Proof.
  intros Hl Hk Hlk i j a b Ha Hb Hij.
  apply lookup_app_Some in Ha as [Ha | [Hi Ha]];
    apply lookup_app_Some in Hb as [Hb | [Hj Hb]].
  - by apply (Hl i j).
  - apply Hlk; by eapply list_elem_of_lookup_2.
  - apply lookup_lt_Some in Hb. lia.
  - apply (Hk (i - length l) (j - length l)); [done | done | lia].
Qed.

Lemma analyzePotentialImprovements_length (ctx : string) (p : PatternInfo) :
  length (analyzePotentialImprovements ctx p) ≤ 2.
Proof.
  unfold analyzePotentialImprovements.
  repeat match goal with |- context [if ?b then _ else _] => destruct b end;
    simpl; lia.
Qed.

Lemma detectIn_length (patterns : list PatternInfo) (filePath : string)
    (lines : list string) :
  length (detectIn patterns filePath lines) ≤ length patterns * length lines.
Proof.
  induction patterns as [|p patterns IH]; [simpl; lia|].
  cbn [detectIn length]. rewrite Nat.mul_succ_l.
  destruct (matcherOf patternMatchers (patternName p)) as [r|]; [|lia].
  rewrite length_app.
  destruct (patternLines_spec p r filePath lines lines 0) as (_ & H & _);
    [done | lia].
Qed.

Lemma detectPatterns_elem (content filePath : string) :
  let lines := Js.split LF content in
  ∀ m, m ∈ detectPatterns content filePath
       ↔ ∃ p r i l, p ∈ UNREAL_PATTERNS
                    ∧ matcherOf patternMatchers (patternName p) = Some r
                    ∧ lines !! i = Some l ∧ Regex.test r l = true
                    ∧ m = patternMatchAt p filePath lines i.
Proof.
  intros lines m. unfold detectPatterns. fold lines.
    unfold UNREAL_PATTERNS at 1. cbn [detectIn].
    match goal with |- context [matcherOf patternMatchers ?n] =>
      change (matcherOf patternMatchers n)
        with (Some (snd (nth 0 patternMatchers (EmptyString, Regex.Eps)))) end.
    match goal with |- context [matcherOf patternMatchers ?n] =>
      change (matcherOf patternMatchers n)
        with (Some (snd (nth 1 patternMatchers (EmptyString, Regex.Eps)))) end.
    match goal with |- context [matcherOf patternMatchers ?n] =>
      change (matcherOf patternMatchers n)
        with (Some (snd (nth 2 patternMatchers (EmptyString, Regex.Eps)))) end.
    cbv iota beta. rewrite app_nil_r, !elem_of_app.
    split.
    - intros [Hm | [Hm | Hm]];
        apply patternLines_spec in Hm as (j & l & _ & Hl & Ht & ->); try done;
        eexists _, _, j, l; (split; [|split; [|done]]);
        [ | reflexivity | | reflexivity | | reflexivity];
        apply list_elem_of_In; simpl; tauto.
    - intros (p & r & i & l & Hp & Hr & Hl & Ht & ->).
      apply list_elem_of_In in Hp. simpl in Hp.
      destruct Hp as [<- | [<- | [<- | []]]]; injection Hr as <-;
        [left | right; left | right; right];
        (apply patternLines_spec; [done|]); exists i, l;
        (split; [lia | done]).
Qed.

(** X17.  The advisor reports exactly the lines that pass the test of a
    pattern of the catalogue, one match for each pattern and line, in the
    order of the catalogue and then of the lines; a match bears the path
    it was given, a line number of the text, the same window of context
    as the searches, at most two hints, and one link, to the
    documentation of its pattern; the analyzer and the disk play no
    part. *)
Theorem detected_patterns_by_catalogue_then_line (content filePath : string) :
  let lines := Js.split LF content in
  let found := detectPatterns content filePath in
  (∀ m, m ∈ found
        ↔ ∃ p r i l, p ∈ UNREAL_PATTERNS
                     ∧ matcherOf patternMatchers (patternName p) = Some r
                     ∧ lines !! i = Some l ∧ Regex.test r l = true
                     ∧ m = patternMatchAt p filePath lines i)
  ∧ (∀ i j a b, found !! i = Some a → found !! j = Some b → i < j →
                detectedBefore a b)
  ∧ (∀ m, m ∈ found →
          matchFile m = filePath
          ∧ 1 ≤ matchLine m ≤ length lines
          ∧ matchContext m = contextAt lines (matchLine m - 1)
          ∧ length (suggestedImprovements m) ≤ 2
          ∧ url <$> matchResources m = [documentation (pattern m)])
  ∧ length found ≤ 3 * length lines.
Proof.
  intros lines found.
  pose proof (detectPatterns_elem content filePath) as Hfound.
  cbv zeta in Hfound. fold lines found in Hfound.
  split; [exact Hfound|]. split.
  { unfold found, detectPatterns. fold lines.
    unfold UNREAL_PATTERNS. cbn [detectIn].
    match goal with |- context [matcherOf patternMatchers ?n] =>
      change (matcherOf patternMatchers n)
        with (Some (snd (nth 0 patternMatchers (EmptyString, Regex.Eps)))) end.
    match goal with |- context [matcherOf patternMatchers ?n] =>
      change (matcherOf patternMatchers n)
        with (Some (snd (nth 1 patternMatchers (EmptyString, Regex.Eps)))) end.
    match goal with |- context [matcherOf patternMatchers ?n] =>
      change (matcherOf patternMatchers n)
        with (Some (snd (nth 2 patternMatchers (EmptyString, Regex.Eps)))) end.
    cbv iota beta. rewrite app_nil_r.
    assert (Hgroup : ∀ p r i j a b,
              patternLines p r filePath lines lines 0 !! i = Some a →
              patternLines p r filePath lines lines 0 !! j = Some b →
              i < j → detectedBefore a b).
    { intros p r i j a b Ha Hb Hij. right.
      destruct (patternLines_spec p r filePath lines lines 0) as (Hinc & _ & Hall);
        [done|].
      split; [|by apply (Hinc i j)].
      apply list_elem_of_lookup_2, Hall in Ha as (? & ? & _ & _ & _ & ->).
      by apply list_elem_of_lookup_2, Hall in Hb as (? & ? & _ & _ & _ & ->). }
    apply ordered_app; [apply Hgroup | apply ordered_app; [apply Hgroup..|] |].
    - intros a b Ha Hb. left.
      apply patternLines_spec in Ha as (? & ? & _ & _ & _ & ->); [|done].
      apply patternLines_spec in Hb as (? & ? & _ & _ & _ & ->); [|done].
      vm_compute. lia.
    - intros a b Ha [Hb | Hb]%elem_of_app; left;
        (apply patternLines_spec in Ha as (? & ? & _ & _ & _ & ->); [|done]);
        (apply patternLines_spec in Hb as (? & ? & _ & _ & _ & ->); [|done]);
        vm_compute; lia. }
  split.
  { intros m (p & r & i & l & _ & _ & Hl & _ & ->)%Hfound. simpl.
    apply lookup_lt_Some in Hl. split; [done|]. split; [lia|].
    split; [|split; [apply analyzePotentialImprovements_length | done]].
    replace (i + 1 - 1) with i by lia.
    unfold patternContextAt, contextAt. by rewrite slice_clip. }
  exact (detectIn_length UNREAL_PATTERNS filePath lines).
Qed.

(** A line that matches a pattern starting with a case-sensitive literal
    contains the literal. *)
Lemma test_literal_occurs (t : string) (r : Regex.regex) (l : string) :
  Regex.test (Regex.Seq (Regex.lit false t) r) l = true → occursIn t l.
Proof.
  unfold Regex.test, Regex.exec.
  destruct (Regex.search_from _ [] (Js.chars l)) as [m|] eqn:H; [|done].
  intros _. apply search_from_position in H as (pre & post & Hl & Hm).
  unfold Regex.match_at in Hm. cbn [Regex.run] in Hm.
  apply run_lit in Hm as (rest & Hrest). simpl in Hrest. subst post.
  exists (Js.str pre), (Js.str rest).
  rewrite <- (str_chars l), Hl, !str_app. by rewrite str_chars.
Qed.

(** X18.  A match of the Component Setup pattern always has
    CreateDefaultSubobject in its context, since the matched line is part
    of the window; so the second half of the condition on the hint is
    always met, and the hint is given exactly when RootComponent is
    nowhere in the window. *)
Theorem component_hint_iff_window_lacks_root
    (content filePath : string) (m : CodePatternMatch) :
  m ∈ detectPatterns content filePath →
  patternName (pattern m) = "Component Setup" →
  Js.includes (matchContext m) "CreateDefaultSubobject" = true
  ∧ suggestedImprovements m
    = if Js.includes (matchContext m) "RootComponent" then []
      else ["Consider setting up component hierarchy"].
Proof.
  intros (p & r & i & l & Hp & Hr & Hl & Ht & ->)%detectPatterns_elem Hname.
  simpl in Hname.
  assert (Hctx : Js.includes (patternContextAt (Js.split LF content) i)
                   "CreateDefaultSubobject" = true).
  { apply list_elem_of_In in Hp. simpl in Hp.
    destruct Hp as [<- | [<- | [<- | []]]]; try discriminate Hname.
    injection Hr as <-. apply test_literal_occurs in Ht.
    apply includes_occurs. eapply occursIn_trans; [exact Ht|].
    unfold patternContextAt. apply join_occurs. rewrite slice_clip.
    apply (list_elem_of_lookup_2 _ (Nat.min i 2)).
    rewrite slice_lookup by lia. rewrite <- Hl. f_equal. lia. }
  simpl. split; [done|].
  unfold analyzePotentialImprovements. rewrite Hname, Hctx. simpl.
  by destruct (Js.includes _ "RootComponent").
Qed.

(** ** Subsystems *)

Lemma collectClassNames_run (fs : FileSystem) (headerFiles : list string)
    (st : Analyzer) :
  collectClassNames fs headerFiles st
  = (Ok (concat (classNamesIn fs <$> headerFiles)), st,
     EvRead <$> headerFiles).
Proof.
  induction headerFiles as [|file rest IH]; [done|].
  cbn [collectClassNames]. unfold bind, try_catch, readFileSync, ret.
  rewrite fmap_cons. cbn [concat]. unfold classNamesIn at 1.
  destruct (fs_read fs file); rewrite IH, fmap_cons, !app_nil_r; reflexivity.
Qed.

Lemma lookupDir_names (table : list (string * string)) (key : string) :
  lookupDir table key = None ↔ key ∉ (fst <$> table).
Proof.
  induction table as [|[k v] rest IH]; simpl.
  - split; [intros _ H; by apply elem_of_nil in H | done].
  - rewrite not_elem_of_cons. destruct (String.eqb_spec k key) as [-> | Hne].
    + split; [done | by intros [? _]].
    + rewrite IH. split; [by intros ? | by intros [_ ?]].
Qed.


(** ** Hierarchies with and without interfaces *)

Lemma ClassHierarchy_nested_ind (P : ClassHierarchy → Prop) :
  (∀ n s i, Forall P s → P (Hierarchy n s i)) → ∀ h, P h.
Proof.
  intros H. fix IH 1. intros [n s i]. apply H.
  induction s as [|h s IHs]; constructor; [apply IH | apply IHs].
Qed.

Lemma noInterfaces_withoutInterfaces (h : ClassHierarchy) :
  noInterfaces (withoutInterfaces h) = true.
Proof.
  induction h as [n s i IH] using ClassHierarchy_nested_ind. simpl.
  apply forallb_forall. intros x Hx. apply in_map_iff in Hx as (y & <- & Hy).
  rewrite Forall_forall in IH. by apply IH, list_elem_of_In.
Qed.

Lemma expandSuperclasses_withoutInterfaces
    (expandAll expandNone : string → M ClassHierarchy) (todo : list string) :
  (∀ s st, expandNone s st = mapResult withoutInterfaces (expandAll s st)) →
  ∀ acc st,
    expandSuperclasses expandNone todo (map withoutInterfaces acc) st
    = mapResult (map withoutInterfaces)
        (expandSuperclasses expandAll todo acc st).
Proof.
  intros Hexp. induction todo as [|s todo IH]; intros acc st; [done|].
  cbn [expandSuperclasses]. unfold bind, try_catch. rewrite Hexp.
  destruct (expandAll s st) as [[[node|e|] st1] t1]; unfold mapResult; simpl.
  - change (map withoutInterfaces acc ++ [withoutInterfaces node])
      with (map withoutInterfaces acc ++ map withoutInterfaces [node]).
    rewrite <- map_app, IH.
    by destruct (expandSuperclasses expandAll todo (acc ++ [node]) st1)
      as [[[nodes|e|] st2] t2].
  - change (map withoutInterfaces acc ++ [leafHierarchy s])
      with (map withoutInterfaces acc
            ++ map withoutInterfaces [leafHierarchy s]).
    rewrite <- map_app, IH.
    by destruct (expandSuperclasses expandAll todo (acc ++ [leafHierarchy s])
                   st1) as [[[nodes|e'|] st2] t2].
  - done.
Qed.

(** X20.  Whether interfaces are asked for changes nothing in what the
    construction of a hierarchy does: the same calls on the disk, the same
    analyzer afterwards, the same outcome; the tree without interfaces is
    the tree with interfaces with every list of interfaces emptied, so no
    node of it, at any depth, lists one. *)
Theorem includeInterfaces_only_fills_interface_lists
    (fs : FileSystem) (fuel : nat) (className : string) (st : Analyzer) :
  findClassHierarchy fs fuel className false st
  = mapResult withoutInterfaces (findClassHierarchy fs fuel className true st)
  ∧ ∀ h, result (findClassHierarchy fs fuel className false st) = Ok h →
         noInterfaces h = true.
Proof.
  assert (Heq : ∀ fuel className st,
            findClassHierarchy fs fuel className false st
            = mapResult withoutInterfaces
                (findClassHierarchy fs fuel className true st)).
  { clear. intros fuel. induction fuel as [|fuel IH]; intros className st;
      [done|].
    cbn [findClassHierarchy]. unfold bind at 1 3.
    destruct (analyzeClass fs className st) as [[[info|e|] st1] t1]; [|done..].
    unfold bind.
    pose proof (expandSuperclasses_withoutInterfaces
                  (fun s => findClassHierarchy fs fuel s true)
                  (fun s => findClassHierarchy fs fuel s false)
                  (superclasses info) (fun s st' => IH s st') [] st1) as Hx.
    change (map withoutInterfaces []) with (@nil ClassHierarchy) in Hx.
    rewrite Hx. clear Hx.
    destruct (expandSuperclasses
                (fun s => findClassHierarchy fs fuel s true)
                (superclasses info) [] st1) as [[[nodes|e|] st2] t2];
      reflexivity. }
  split; [apply Heq|]. intros h. rewrite Heq. unfold mapResult. simpl.
  destruct (result (findClassHierarchy fs fuel className true st));
    [|done..].
  intros [= <-]. apply noInterfaces_withoutInterfaces.
Qed.

(** ** Configuration and start-up *)

Lemma initialize_run (fs : FileSystem) (enginePath : string) (st : Analyzer) :
  initialize fs enginePath st
  = if fs_exists fs enginePath
    then
      if fs_exists fs (path_join enginePath "Engine")
         || fs_exists fs (path_join enginePath "Source")
      then (Ok tt,
            {| unrealPath := Some enginePath; customPath := customPath st;
               classCache := classCache st; apiCache := apiCache st;
               initialized := true |},
            [EvExists enginePath; EvExists (path_join enginePath "Engine");
             EvExists (path_join enginePath "Source")])
      else (Err InvalidEnginePathLayout, st,
            [EvExists enginePath; EvExists (path_join enginePath "Engine");
             EvExists (path_join enginePath "Source")])
    else (Err InvalidEnginePathMissing, st, [EvExists enginePath]).
Proof.
  unfold initialize, bind, existsSync, get, put, throw.
  destruct (fs_exists fs enginePath); [|done].
  by destruct (fs_exists fs (path_join enginePath "Engine")),
       (fs_exists fs (path_join enginePath "Source")).
Qed.

Lemma initializeCustomCodebase_run (fs : FileSystem) (path : string)
    (st : Analyzer) :
  initializeCustomCodebase fs path st
  = if fs_exists fs path
    then (Ok tt,
          {| unrealPath := unrealPath st; customPath := Some path;
             classCache := classCache st; apiCache := apiCache st;
             initialized := true |},
          [EvExists path])
    else (Err InvalidCustomPath, st, [EvExists path]).
Proof.
  unfold initializeCustomCodebase, bind, existsSync, get, put, throw.
  by destruct (fs_exists fs path).
Qed.

(** X21.  Setting a root, engine or custom, never empties the class
    cache: a root that is refused leaves the analyzer as it was, and one
    that is accepted changes the root only, so a class resolved under the
    old roots is still answered from the cache, without a look at the new
    ones. *)
Theorem new_root_keeps_cached_classes
    (fs : FileSystem) (path className : string) (info : ClassInfo)
    (st : Analyzer) (engine : bool) :
  let setRoot :=
    if engine then initialize fs path else initializeCustomCodebase fs path in
  classCache st !! className = Some info →
  (result (setRoot st) ≠ Ok tt → final (setRoot st) = st)
  ∧ classCache (final (setRoot st)) = classCache st
  ∧ apiCache (final (setRoot st)) = apiCache st
  ∧ (result (setRoot st) = Ok tt →
     analyzeClass fs className (final (setRoot st))
     = (Ok info, final (setRoot st), [])).
Proof.
  intros setRoot Hhit. unfold setRoot.
  destruct engine.
  - rewrite initialize_run.
    destruct (fs_exists fs path); [|done].
    destruct (fs_exists fs (path_join path "Engine")
              || fs_exists fs (path_join path "Source")); [|done].
    simpl. split; [done|]. split; [done|]. split; [done|].
    intros _. by apply analyzeClass_hit.
  - rewrite initializeCustomCodebase_run.
    destruct (fs_exists fs path); [|done].
    simpl. split; [done|]. split; [done|]. split; [done|].
    intros _. by apply analyzeClass_hit.
Qed.

(** X22.  Start-up from the environment never throws and touches no
    cache.  Without an engine variable (unset or empty) nothing is
    configured and the disk is not looked at, also when a custom codebase
    is given; when the engine root is refused the custom codebase is not
    tried; when it is accepted the engine root is set, and the custom
    root is set as well exactly when the variable is not empty and the
    directory exists. *)
Theorem initFromEnv_outcome
    (fs : FileSystem) (enginePath codebasePath : option string)
    (st : Analyzer) :
  let out := initFromEnv fs enginePath codebasePath st in
  result out = Ok tt
  ∧ classCache (final out) = classCache st
  ∧ apiCache (final out) = apiCache st
  ∧ (Js.truthy enginePath = false → out = (Ok tt, st, []))
  ∧ (∀ p, enginePath = Some p → p ≠ EmptyString →
          result (initialize fs p st) ≠ Ok tt →
          final out = st ∧ trace out = trace (initialize fs p st))
  ∧ (∀ p, enginePath = Some p → p ≠ EmptyString →
          result (initialize fs p st) = Ok tt →
          unrealPath (final out) = Some p
          ∧ initialized (final out) = true
          ∧ customPath (final out)
            = if Js.truthy codebasePath
                 && fs_exists fs (default EmptyString codebasePath)
              then codebasePath else customPath st).
Proof.
  intros out. unfold out, initFromEnv.
  destruct enginePath as [[|a p]|].
  - split_and!; try done; by intros q [= <-] ?.
  - set (e := String a p). change (Js.truthy (Some e)) with true. cbv iota.
    unfold initializePaths, try_catch, bind.
    change (Js.truthy (Some e)) with true. cbv iota.
    assert (Hcust : ∀ st1,
              match codebasePath with
              | Some q => if Js.truthy (Some q)
                          then initializeCustomCodebase fs q else ret tt
              | None => ret tt
              end st1
              = if Js.truthy codebasePath
                then initializeCustomCodebase fs
                       (default EmptyString codebasePath) st1
                else (Ok tt, st1, [])).
    { intros st1. by destruct codebasePath as [[|b c]|]. }
    rewrite initialize_run.
    split_and!; try done;
      try (intros q [= <-] _; rewrite initialize_run);
      destruct (fs_exists fs e); try done;
      destruct (fs_exists fs (path_join e "Engine")
                || fs_exists fs (path_join e "Source")); try done;
      try (by intros []);
      rewrite Hcust; destruct (Js.truthy codebasePath) eqn:Htruthy;
      rewrite ?initializeCustomCodebase_run;
      try destruct (fs_exists fs (default EmptyString codebasePath));
      try done; try (by intros []);
      intros _; split_and!; try done.
    by destruct codebasePath.
  - split_and!; try done; by intros q [=].
Qed.

(** ** What holds of every analyzer a client can reach *)

Lemma wellFormed_same_config (fs : FileSystem) (st st' : Analyzer) :
  config st' = config st →
  flagMeansRoot st ∧ rootsValidated fs st →
  flagMeansRoot st' ∧ rootsValidated fs st'.
Proof.
  unfold config, flagMeansRoot, rootsValidated.
  intros [= Hu Hc Hi]. by rewrite Hu, Hc, Hi.
Qed.

Lemma cacheExtracted_keyed (fs : FileSystem) (st : Analyzer) :
  cacheExtracted fs st → cacheKeyed st.
Proof.
  intros Hx n info Hn. destruct (Hx n info Hn) as (content & _ & He).
  by apply extractFromContent_record in He as (Hname & _).
Qed.

Lemma analyzeClass_wellFormed (fs : FileSystem) (className : string)
    (st : Analyzer) :
  wellFormed fs st → wellFormed fs (final (analyzeClass fs className st)).
Proof.
  intros (Hflag & Hroots & Hx & Hapi).
  destruct (analyzeClass_cases fs className st)
    as [H | [(i & Hinit & Hc & H) | (r & tr & Hinit & Hc & Hr & H)]];
    rewrite H; simpl; [done | done |].
  destruct r as [info|e|]; simpl; [|done..].
  destruct (analyzeClass_miss_answer fs className st Hinit Hc) as (tr' & H').
  rewrite H in H'. injection H' as Hans _ _. unfold missAnswer in Hans.
  destruct (searchPathsOf fs st); [done|].
  destruct (firstYield fs className (candidateHeaders fs st))
    as [info'|] eqn:Hy; [|done].
  injection Hans as ->.
  apply firstYield_Some in Hy as (f & content & Hf & Hread & Hex).
  pose proof (extractFromContent_record _ _ _ _ Hex) as (_ & Hfile & _).
  split_and!; try done.
  - intros n i. unfold set_classCache; simpl.
    destruct (decide (className = n)) as [<-|Hne].
    + rewrite lookup_insert_eq. intros [= <-]. exists content.
      by rewrite Hfile.
    + rewrite lookup_insert_ne by done. apply Hx.
  - intros k a Ha. simpl in *. destruct (Hapi k a Ha) as (i & Hi & ->).
    exists i. split; [|done]. rewrite lookup_insert_ne; [done|]. congruence.
Qed.

Lemma expandSuperclasses_wellFormed (fs : FileSystem)
    (expand : string → M ClassHierarchy) (todo : list string) :
  (∀ s st, wellFormed fs st → wellFormed fs (final (expand s st))) →
  ∀ acc st, wellFormed fs st →
            wellFormed fs (final (expandSuperclasses expand todo acc st)).
Proof.
  intros Hexp. induction todo as [|s todo IH]; intros acc st Hst; [done|].
  cbn [expandSuperclasses]. unfold bind, try_catch.
  pose proof (Hexp s st Hst) as Hs.
  destruct (expand s st) as [[[node|e|] st1] t1]; simpl in Hs; [| |done].
  - specialize (IH (acc ++ [node]) st1 Hs).
    by destruct (expandSuperclasses expand todo (acc ++ [node]) st1)
      as [[r st2] t2].
  - unfold ret. specialize (IH (acc ++ [leafHierarchy s]) st1 Hs).
    by destruct (expandSuperclasses expand todo (acc ++ [leafHierarchy s]) st1)
      as [[r st2] t2].
Qed.

Lemma findClassHierarchy_wellFormed (fs : FileSystem) (fuel : nat) :
  ∀ className includeInterfaces st,
    wellFormed fs st →
    wellFormed fs
      (final (findClassHierarchy fs fuel className includeInterfaces st)).
Proof.
  induction fuel as [|fuel IH]; intros className b st Hst; [done|].
  cbn [findClassHierarchy]. unfold bind at 1.
  pose proof (analyzeClass_wellFormed fs className st Hst) as H1.
  destruct (analyzeClass fs className st) as [[[info|e|] st1] t1];
    simpl in H1; [|done..].
  unfold bind.
  pose proof (expandSuperclasses_wellFormed fs
                (fun s => findClassHierarchy fs fuel s b) (superclasses info)
                (fun s st' H => IH s b st' H) [] st1 H1) as H2.
  by destruct (expandSuperclasses _ (superclasses info) [] st1)
    as [[[nodes|e|] st2] t2].
Qed.

Lemma findReferences_final (fs : FileSystem) (identifier : string)
    (type : option SymbolKind) (st : Analyzer) :
  final (findReferences fs identifier type st) = st.
Proof.
  unfold findReferences, bind.
  destruct (referenceSearchable st) eqn:Hs.
  - by destruct (rawReferences_run fs identifier type st Hs) as (? & ? & ->).
  - by destruct (rawReferences_guarded fs identifier type st Hs) as (? & ->).
Qed.

Lemma searchCode_final (fs : FileSystem) (query : Regex.regex)
    (filePattern : option string) (includeComments : option bool)
    (st : Analyzer) :
  final (searchCode fs query filePattern includeComments st) = st.
Proof.
  unfold searchCode, bind.
  destruct (searchable st) eqn:Hs.
  - by destruct (rawMatches_run fs query filePattern includeComments st Hs)
      as (? & ? & -> & _).
  - by destruct (rawMatches_guarded fs query filePattern includeComments st Hs)
      as (? & ->).
Qed.

Lemma analyzeSubsystem_final (fs : FileSystem) (subsystem : string)
    (st : Analyzer) :
  final (analyzeSubsystem fs subsystem st) = st.
Proof.
  unfold analyzeSubsystem, bind at 1, get. cbv beta iota zeta.
  destruct (initialized st); [|done]. cbn [negb].
  destruct (Js.truthy (unrealPath st)); [|done]. cbn [negb].
  destruct (unrealPath st) as [root|];
    [|by destruct (existsb _ objectPrototypeKeys)].
  destruct (lookupDir subsystemDirs subsystem) as [dir|];
    [|by destruct (existsb _ objectPrototypeKeys)].
  unfold bind at 1, existsSync.
  destruct (fs_exists fs (path_join root dir)); [|done]. cbn [negb].
  unfold bind, glob. by rewrite collectClassNames_run.
Qed.

Lemma getOrCreateApiReference_apiFromCache
    (className : string) (info : ClassInfo) (st : Analyzer) :
  classCache st !! className = Some info → name info = className →
  apiFromCache st →
  apiFromCache (final (getOrCreateApiReference info st))
  ∧ classCache (final (getOrCreateApiReference info st)) = classCache st
  ∧ config (final (getOrCreateApiReference info st)) = config st.
Proof.
  intros Hc Hname Hapi.
  unfold getOrCreateApiReference, bind, get, put, ret. simpl.
  destruct (apiCache st !! name info) as [a|] eqn:Ha; simpl; [done|].
  split; [|done]. intros k a. simpl.
  destruct (decide (name info = k)) as [<-|Hne].
  - rewrite lookup_insert_eq. intros [= <-]. exists info.
    split; [by rewrite Hname | done].
  - rewrite lookup_insert_ne by done. apply Hapi.
Qed.

Lemma collectApiResults_apiFromCache (terms : list string) (o : QueryOptions)
    (entries : list (string * ClassInfo)) :
  ∀ st, (∀ k v, (k, v) ∈ entries → classCache st !! k = Some v) →
        cacheKeyed st → apiFromCache st →
        apiFromCache (final (collectApiResults terms o entries st))
        ∧ classCache (final (collectApiResults terms o entries st))
          = classCache st
        ∧ config (final (collectApiResults terms o entries st)) = config st.
Proof.
  induction entries as [|[cn ci] rest IH]; intros st Hin Hkeyed Hapi; [done|].
  assert (Hc : classCache st !! cn = Some ci) by apply Hin, list_elem_of_here.
  destruct (getOrCreateApiReference_apiFromCache cn ci st Hc
              (Hkeyed _ _ Hc) Hapi) as (H1 & Hc1 & Hcfg1).
  destruct (getOrCreateApiReference_run ci st) as (a & st1 & Hrun & _).
  rewrite Hrun in H1, Hc1, Hcfg1. simpl in H1, Hc1, Hcfg1.
  destruct (IH st1) as (H2 & Hc2 & Hcfg2); [| |done|].
  { intros k v Hkv. rewrite Hc1. by apply Hin, list_elem_of_further. }
  { intros n i. rewrite Hc1. apply Hkeyed. }
  cbn [collectApiResults]. unfold bind. rewrite Hrun.
  destruct (collectApiResults terms o rest st1) as [[[others|e|] st2] t2];
    simpl in *; split_and!; first [assumption | congruence].
Qed.

Lemma queryApiReference_wellFormed (fs : FileSystem)
    (entriesOf : gmap string ClassInfo → list (string * ClassInfo))
    (query : string) (o : QueryOptions) (st : Analyzer) :
  (∀ m k v, (k, v) ∈ entriesOf m → m !! k = Some v) →
  wellFormed fs st →
  wellFormed fs (final (queryApiReference entriesOf query o st)).
Proof.
  intros Hentries (Hflag & Hroots & Hx & Hapi).
  unfold queryApiReference, bind at 1, get. simpl.
  destruct (initialized st); simpl; [|done].
  destruct (collectApiResults_apiFromCache (searchTermsOf query) o
              (entriesOf (classCache st)) st)
    as (H1 & Hc1 & Hcfg1);
    [apply Hentries | by eapply cacheExtracted_keyed | done |].
  unfold bind.
  destruct (collectApiResults (searchTermsOf query) o _ st)
    as [[[results|e|] st1] t1]; simpl in *;
    (destruct (wellFormed_same_config fs st st1 Hcfg1 (conj Hflag Hroots));
     split_and!; try done; unfold cacheExtracted; by rewrite Hc1).
Qed.

Lemma afterCall_wellFormed (fs : FileSystem)
    (entriesOf : gmap string ClassInfo → list (string * ClassInfo))
    (st : Analyzer) (c : apiCall) :
  (∀ m k v, (k, v) ∈ entriesOf m → m !! k = Some v) →
  wellFormed fs st → wellFormed fs (afterCall fs entriesOf st c).
Proof.
  intros Hentries Hst. destruct c; simpl.
  - rewrite initialize_run. destruct Hst as (Hflag & [Hu Hc] & Hx & Hapi).
    destruct (fs_exists fs enginePath) eqn:He; [|done].
    destruct (fs_exists fs (path_join enginePath "Engine")
              || fs_exists fs (path_join enginePath "Source")) eqn:Hl; [|done].
    simpl. split_and!; try done.
    + unfold flagMeansRoot. simpl. split; [by left | done].
    + split; [|done]. intros p. simpl. by intros [= <-].
  - rewrite initializeCustomCodebase_run.
    destruct Hst as (Hflag & [Hu Hc] & Hx & Hapi).
    destruct (fs_exists fs path) eqn:He; [|done].
    simpl. split_and!; try done.
    + unfold flagMeansRoot. simpl. split; [by right | done].
    + split; [done|]. intros p. simpl. by intros [= <-].
  - by apply analyzeClass_wellFormed.
  - by apply findClassHierarchy_wellFormed.
  - by rewrite findReferences_final.
  - by rewrite searchCode_final.
  - by apply queryApiReference_wellFormed.
  - by rewrite analyzeSubsystem_final.
Qed.

(** X23.  Whatever calls a client makes on a new analyzer, in whatever
    order and whatever they answer: the flag [initialized] is set exactly
    when a root is; a root that is set passed the tests of the call that
    set it; every cached class is what extraction gives for its name from
    the header it names, so it bears the name it is cached under; and
    every cached API entry is the entry synthesized from the cached class
    of its name, so it has neither examples nor remarks. *)
Theorem reachable_analyzer_well_formed (fs : FileSystem)
    (entriesOf : gmap string ClassInfo → list (string * ClassInfo))
    (calls : list apiCall) :
  (∀ m k v, (k, v) ∈ entriesOf m → m !! k = Some v) →
  let st := afterCalls fs entriesOf calls in
  flagMeansRoot st ∧ rootsValidated fs st ∧ cacheExtracted fs st
  ∧ apiFromCache st ∧ cacheKeyed st ∧ apiWithoutExamples st.
Proof.
  intros Hentries st.
  assert (Hwf : wellFormed fs st).
  { unfold st, afterCalls.
    assert (Hnew : wellFormed fs newAnalyzer).
    { split; [|split; [|split]].
      - unfold flagMeansRoot. simpl. split; [done|].
        by intros [[? ?] | [? ?]].
      - by split.
      - by intros n info Hn.
      - by intros k a Ha. }
    revert Hnew. generalize newAnalyzer.
    induction calls as [|c calls IH]; intros st0 Hst0; [done|].
    simpl. by apply IH, afterCall_wellFormed. }
  destruct Hwf as (Hflag & Hroots & Hx & Hapi).
  split_and!; try done; [by eapply cacheExtracted_keyed|].
  intros k a Ha. by destruct (Hapi k a Ha) as (info & _ & ->).
Qed.

(** ** What building a hierarchy leaves behind *)

Lemma cacheGrown_refl (st : Analyzer) : cacheGrown st st.
Proof. by split_and!. Qed.

Lemma cacheGrown_trans (st1 st2 st3 : Analyzer) :
  cacheGrown st1 st2 → cacheGrown st2 st3 → cacheGrown st1 st3.
Proof.
  intros (Hc1 & Ha1 & Hs1 & Hk1) (Hc2 & Ha2 & Hs2 & Hk2).
  split_and!; [congruence | congruence | by etrans | auto].
Qed.

Lemma analyzeClass_cacheGrown (fs : FileSystem) (className : string)
    (st : Analyzer) :
  let out := analyzeClass fs className st in
  cacheGrown st (final out)
  ∧ ∀ info, result out = Ok info →
            classCache (final out) !! className = Some info
            ∧ (cacheKeyed st → name info = className).
Proof.
  destruct (analyzeClass_cases fs className st)
    as [H | [(i & Hinit & Hc & H) | (r & tr & Hinit & Hc & Hr & H)]];
    rewrite H; simpl.
  - split; [apply cacheGrown_refl | done].
  - split; [apply cacheGrown_refl|]. intros info [= <-]. split; [done|].
    intros Hk. by apply Hk.
  - destruct r as [info|e|]; simpl; [| |done].
    + destruct (analyzeClass_miss_answer fs className st Hinit Hc)
        as (tr' & H').
      rewrite H in H'. injection H' as Hans _ _. unfold missAnswer in Hans.
      destruct (searchPathsOf fs st); [done|].
      destruct (firstYield fs className (candidateHeaders fs st))
        as [info'|] eqn:Hy; [|done].
      injection Hans as ->.
      apply firstYield_Some in Hy as (f & content & Hf & Hread & Hex).
      apply extractFromContent_record in Hex as (Hname & _).
      split.
      * split_and!; try done; [by apply insert_subseteq|].
        intros Hk n i. simpl.
        destruct (decide (className = n)) as [<-|Hne].
        -- rewrite lookup_insert_eq. by intros [= <-].
        -- rewrite lookup_insert_ne by done. apply Hk.
      * intros ? [= <-]. simpl. by rewrite lookup_insert_eq.
    + split; [apply cacheGrown_refl | done].
Qed.

Lemma expandSuperclasses_cacheGrown
    (expand : string → M ClassHierarchy) (todo : list string) :
  (∀ s st, cacheGrown st (final (expand s st))
           ∧ ∀ h, result (expand s st) = Ok h → cacheKeyed st →
                  hierarchyName h = s) →
  ∀ acc st,
    cacheGrown st (final (expandSuperclasses expand todo acc st))
    ∧ ∀ nodes, result (expandSuperclasses expand todo acc st) = Ok nodes →
               cacheKeyed st →
               hierarchyName <$> nodes = (hierarchyName <$> acc) ++ todo.
Proof.
  intros Hexp. induction todo as [|s todo IH]; intros acc st.
  - simpl. split; [apply cacheGrown_refl|]. intros nodes [= <-] _.
    by rewrite app_nil_r.
  - cbn [expandSuperclasses]. unfold bind, try_catch.
    destruct (Hexp s st) as [Hg Hn].
    destruct (expand s st) as [[[node|e|] st1] t1]; simpl in Hg, Hn.
    + destruct (IH (acc ++ [node]) st1) as [Hg2 Hn2].
      destruct (expandSuperclasses expand todo (acc ++ [node]) st1)
        as [[r st2] t2]. simpl in *.
      split; [by eapply cacheGrown_trans|].
      intros nodes -> Hk. rewrite (Hn2 nodes eq_refl) by by apply Hg.
      rewrite fmap_app, <- app_assoc. simpl. by rewrite (Hn node eq_refl Hk).
    + unfold ret. destruct (IH (acc ++ [leafHierarchy s]) st1) as [Hg2 Hn2].
      destruct (expandSuperclasses expand todo (acc ++ [leafHierarchy s]) st1)
        as [[r st2] t2]. simpl in *.
      split; [by eapply cacheGrown_trans|].
      intros nodes -> Hk. rewrite (Hn2 nodes eq_refl) by by apply Hg.
      by rewrite fmap_app, <- app_assoc.
    + split; [done | done].
Qed.

Lemma findClassHierarchy_cacheGrown (fs : FileSystem) (fuel : nat) :
  ∀ className includeInterfaces st,
    let out := findClassHierarchy fs fuel className includeInterfaces st in
    cacheGrown st (final out)
    ∧ ∀ h, result out = Ok h →
           ∃ info, classCache (final out) !! className = Some info
                   ∧ hierarchyName h = name info
                   ∧ hierarchyInterfaces h
                     = (if includeInterfaces then interfaces info else [])
                   ∧ (cacheKeyed st →
                      hierarchyName h = className
                      ∧ hierarchyName <$> hierarchySuperclasses h
                        = superclasses info).
Proof.
  induction fuel as [|fuel IH]; intros className b st.
  - simpl. split; [apply cacheGrown_refl | done].
  - cbn [findClassHierarchy]. cbv zeta. unfold bind.
    destruct (analyzeClass_cacheGrown fs className st) as [Hg1 Hi1].
    cbv zeta in Hg1, Hi1.
    destruct (analyzeClass fs className st) as [[[info|e|] st1] t1];
      simpl in Hg1, Hi1; [|by simpl; split..].
    destruct (Hi1 info eq_refl) as [Hc1 Hname]. clear Hi1.
    destruct (expandSuperclasses_cacheGrown
                (fun s => findClassHierarchy fs fuel s b) (superclasses info))
      with (acc := @nil ClassHierarchy) (st := st1) as [Hg2 Hn2].
    { intros s st'. destruct (IH s b st') as [Hg Hh]. split; [done|].
      intros h Hres Hk. destruct (Hh h Hres) as (? & _ & _ & _ & Hk').
      by apply Hk'. }
    destruct (expandSuperclasses _ (superclasses info) [] st1)
      as [[[nodes|e|] st2] t2]; simpl in *;
      [|split; [by eapply cacheGrown_trans | done]..].
    split; [by eapply cacheGrown_trans|].
    intros h [= <-]. exists info. simpl.
    split; [by eapply lookup_weaken, Hg2|]. split; [done|]. split; [done|].
    intros Hk. split; [by apply Hname|].
    apply (Hn2 nodes eq_refl). by apply Hg1.
Qed.

(** X24.  Building a hierarchy changes nothing but the class cache, which
    only grows; when it returns, the class asked for is cached and the
    root of the tree bears the name of its record and the interfaces of
    the record (or none, when they are not asked for); and from an
    analyzer whose cache is keyed by name, the root is named as asked and
    its children are named after the superclasses of the record, one for
    each, in their order. *)
Theorem hierarchy_root_cached_children_named
    (fs : FileSystem) (fuel : nat) (className : string)
    (includeInterfaces : bool) (st : Analyzer) (h : ClassHierarchy) :
  let out := findClassHierarchy fs fuel className includeInterfaces st in
  result out = Ok h →
  config (final out) = config st
  ∧ apiCache (final out) = apiCache st
  ∧ classCache st ⊆ classCache (final out)
  ∧ ∃ info, classCache (final out) !! className = Some info
            ∧ hierarchyName h = name info
            ∧ hierarchyInterfaces h
              = (if includeInterfaces then interfaces info else [])
            ∧ (cacheKeyed st →
               hierarchyName h = className
               ∧ hierarchyName <$> hierarchySuperclasses h
                 = superclasses info).
Proof.
  intros out Hres.
  destruct (findClassHierarchy_cacheGrown fs fuel className includeInterfaces st)
    as [(Hc & Ha & Hs & _) Hh].
  split; [done|]. split; [done|]. split; [done|]. by apply Hh.
Qed.

(** ** The tool dispatcher *)

Lemma analyzeClass_initialized (fs : FileSystem) (className : string)
    (st : Analyzer) :
  initialized st = true →
  result (analyzeClass fs className st) ≠ Err NotInitialized.
Proof.
  intros Hinit. destruct (classCache st !! className) as [info|] eqn:Hc.
  - by rewrite (analyzeClass_hit fs className info st Hinit Hc).
  - destruct (analyzeClass_miss_answer fs className st Hinit Hc) as (tr & ->).
    simpl. unfold missAnswer. destruct (searchPathsOf fs st); [done|].
    by destruct (firstYield fs className _).
Qed.

Lemma expandSuperclasses_no_error (expand : string → M ClassHierarchy)
    (todo : list string) :
  ∀ acc st e, result (expandSuperclasses expand todo acc st) ≠ Err e.
Proof.
  induction todo as [|s todo IH]; intros acc st e; [done|].
  cbn [expandSuperclasses]. unfold bind, try_catch.
  destruct (expand s st) as [[[node|e'|] st1] t1]; [| |done].
  - specialize (IH (acc ++ [node]) st1 e).
    by destruct (expandSuperclasses expand todo (acc ++ [node]) st1)
      as [[r st2] t2].
  - unfold ret. specialize (IH (acc ++ [leafHierarchy s]) st1 e).
    by destruct (expandSuperclasses expand todo (acc ++ [leafHierarchy s]) st1)
      as [[r st2] t2].
Qed.

Lemma initialized_never_thrown (fs : FileSystem)
    (entriesOf : gmap string ClassInfo → list (string * ClassInfo))
    (c : apiCall) (st : Analyzer) :
  initialized st = true → ¬ throws fs entriesOf c st NotInitialized.
Proof.
  intros Hinit. destruct c; unfold throws.
  - rewrite initialize_run.
    destruct (fs_exists fs enginePath); [|done].
    by destruct (fs_exists fs (path_join enginePath "Engine")
                 || fs_exists fs (path_join enginePath "Source")).
  - rewrite initializeCustomCodebase_run. by destruct (fs_exists fs path).
  - by apply analyzeClass_initialized.
  - destruct depth as [|fuel]; [done|].
    cbn [findClassHierarchy]. unfold bind at 1.
    pose proof (analyzeClass_initialized fs className st Hinit) as Hc.
    destruct (analyzeClass fs className st) as [[[info|e|] st1] t1];
      simpl in *; [|congruence|done].
    unfold bind.
    pose proof (expandSuperclasses_no_error
                  (fun s => findClassHierarchy fs fuel s includeInterfaces)
                  (superclasses info) [] st1 NotInitialized) as Hx.
    destruct (expandSuperclasses
                (fun s => findClassHierarchy fs fuel s includeInterfaces)
                (superclasses info) [] st1) as [[[nodes|e|] st2] t2];
      simpl in *; congruence.
  - unfold findReferences. rewrite result_bind_ret.
    destruct (referenceSearchable st) eqn:Hs.
    + by destruct (rawReferences_run fs identifier type st Hs) as (? & ? & ->).
    + unfold referenceSearchable in Hs. rewrite Hinit in Hs. simpl in Hs.
      unfold rawReferences, bind, get, throw. cbv beta iota zeta.
      rewrite Hinit. cbn [negb].
      destruct (referenceSearchPath st) as [p|]; [|done].
      by rewrite Hs.
  - unfold searchCode. rewrite result_bind_ret.
    destruct (searchable st) eqn:Hs.
    + by destruct (rawMatches_run fs query filePattern includeComments st Hs)
        as (? & ? & -> & _).
    + unfold searchable in Hs. rewrite Hinit in Hs. simpl in Hs.
      apply orb_false_iff in Hs as [Hc Hu].
      unfold rawMatches, bind, get, throw. cbv beta iota zeta.
      by rewrite Hinit, Hc, Hu.
  - unfold queryApiReference, bind at 1, get. simpl. rewrite Hinit. simpl.
    destruct (collectApiResults_run (searchTermsOf query) o
                (entriesOf (classCache st)) st) as (rs & st' & Hrun & _).
    unfold bind. by rewrite Hrun.
  - unfold analyzeSubsystem, bind at 1, get. cbv beta iota zeta.
    rewrite Hinit. cbn [negb].
    destruct (Js.truthy (unrealPath st)); [|done]. cbn [negb].
    destruct (unrealPath st) as [root|];
      [|by destruct (existsb _ objectPrototypeKeys)].
    destruct (lookupDir subsystemDirs subsystem) as [dir|];
      [|by destruct (existsb _ objectPrototypeKeys)].
    unfold bind at 1, existsSync.
    destruct (fs_exists fs (path_join root dir)); [|done]. cbn [negb].
    unfold bind, glob. by rewrite collectClassNames_run.
Qed.

(** X25.  The request handler of the server stops a request for one of
    the six analysis tools while no root is set, and only then (the two
    further tests of its guard, that the tool is neither of the tools
    that set a root, can never fail once the first passes); every other
    request goes to the handler the switch names, or is an unknown tool.
    So no call an analysis handler makes on the analyzer ever throws
    "Analyzer not initialized". *)
Theorem dispatcher_guards_analysis_tools
    (fs : FileSystem)
    (entriesOf : gmap string ClassInfo → list (string * ClassInfo))
    (toolName : string) (st : Analyzer) :
  (dispatch toolName st = NoCodebaseInitialized
   ↔ toolName ∈ analysisTools ∧ initialized st = false)
  ∧ (dispatch toolName st ≠ NoCodebaseInitialized →
     dispatch toolName st
     = match handlerOf toolName with
       | Some h => HandledBy h
       | None => UnknownTool toolName
       end)
  ∧ (∀ h, handlerOf toolName = Some h →
          analysisHandler h = true ↔ toolName ∈ analysisTools)
  ∧ (∀ h c, dispatch toolName st = HandledBy h →
            analysisHandler h = true → callOf h c = true →
            ¬ throws fs entriesOf c st NotInitialized).
Proof.
  assert (Hin : existsb (String.eqb toolName) analysisTools = true
                ↔ toolName ∈ analysisTools).
  { rewrite existsb_exists. setoid_rewrite String.eqb_eq.
    setoid_rewrite <- list_elem_of_In. split.
    - by intros (x & Hx & ->).
    - intros H. by exists toolName. }
  assert (Hsets : existsb (String.eqb toolName) analysisTools = true →
                  String.eqb toolName "set_unreal_path" = false
                  ∧ String.eqb toolName "set_custom_codebase" = false).
  { intros H%Hin. apply list_elem_of_In in H. simpl in H.
    by repeat destruct H as [<- | H]. }
  assert (Hguard : dispatch toolName st = NoCodebaseInitialized
                   ↔ toolName ∈ analysisTools ∧ initialized st = false).
  { unfold dispatch, isInitialized. rewrite <- Hin.
    destruct (existsb (String.eqb toolName) analysisTools) eqn:He.
    - destruct (Hsets eq_refl) as [-> ->].
      destruct (initialized st); simpl.
      + split; [|by intros [_ ?]]. by destruct (handlerOf toolName).
      + done.
    - simpl. split; [|by intros [? _]]. by destruct (handlerOf toolName). }
  assert (Hhandler : ∀ h, handlerOf toolName = Some h →
            analysisHandler h = true ↔ toolName ∈ analysisTools).
  { intros h. rewrite <- Hin. unfold handlerOf.
    repeat match goal with
           | |- context [if String.eqb toolName ?s then _ else _] =>
               destruct (String.eqb_spec toolName s) as [-> | ?]
           end; try done; by intros [= <-]. }
  split; [exact Hguard|]. split.
  { intros Hno. unfold dispatch in *.
    by destruct (existsb _ analysisTools && negb (isInitialized st)
                 && negb (String.eqb toolName "set_unreal_path")
                 && negb (String.eqb toolName "set_custom_codebase")). }
  split; [exact Hhandler|].
  intros h c Hd Hh Hc. apply initialized_never_thrown.
  assert (Hof : handlerOf toolName = Some h).
  { unfold dispatch in Hd.
    destruct (existsb _ analysisTools && negb (isInitialized st)
              && negb (String.eqb toolName "set_unreal_path")
              && negb (String.eqb toolName "set_custom_codebase")); [done|].
    destruct (handlerOf toolName); [|done]. by injection Hd as ->. }
  apply (Hhandler h Hof) in Hh.
  destruct (initialized st) eqn:Hinit; [done|].
  assert (dispatch toolName st = NoCodebaseInitialized) by by apply Hguard.
  congruence.
Qed.

(** ** Search terms *)

Lemma to_lower_space (c : ascii) :
  Chr.is_space (Chr.to_lower c) = Chr.is_space c.
Proof. by destruct c as [[] [] [] [] [] [] [] []]. Qed.

Lemma splitByRegex_no_space (aft : list ascii) :
  ∀ fuel bef cur,
    Forall (fun a => Chr.is_space a = false) aft →
    splitByRegex_from fuel (Regex.Plus Regex.ws) bef cur aft
    = [Js.str (rev cur ++ aft)].
Proof.
  induction aft as [|a aft IH]; intros fuel bef cur Hall.
  - destruct fuel; simpl; by rewrite ?app_nil_r.
  - destruct fuel as [|fuel]; [done|].
    apply Forall_cons in Hall as [Ha Hall].
    cbn [splitByRegex_from].
    replace (Regex.match_at (Regex.Plus Regex.ws)
               (Regex.Cursor bef (a :: aft))) with (@None Regex.found)
      by (unfold Regex.match_at; simpl; by rewrite Ha).
    rewrite IH by done. simpl. by rewrite <- app_assoc.
Qed.

(** X26.  A query of ASCII text without white space (no tab, line feed,
    vertical tab, form feed, carriage return or space) is one search
    term, the query with its letters A to Z in lower case (the empty query
    is the empty term); so it scores a class at most 22. *)
Theorem query_without_space_is_one_term (query : string) (a : ApiReference) :
  Js.isAscii query = true →
  Forall (fun c => c ∉ asciiWhiteSpace) (Js.chars query) →
  searchTermsOf query = [Js.toLowerCase query]
  ∧ calculateApiRelevance a (searchTermsOf query)
    = addTermScore a 0 (Js.toLowerCase query)
  ∧ calculateApiRelevance a (searchTermsOf query) ≤ 22.
Proof.
  intros _ Hnone.
  assert (Hall : Forall (fun c => Chr.is_space c = false) (Js.chars query)).
  { eapply Forall_impl; [exact Hnone|]. intros c Hc. simpl in Hc.
    rewrite <- is_space_asciiWhiteSpace in Hc. by destruct (Chr.is_space c). }
  assert (Hterms : searchTermsOf query = [Js.toLowerCase query]).
  { unfold searchTermsOf, splitByRegex.
    assert (Hlow : Forall (fun c => Chr.is_space c = false)
                     (Js.chars (Js.toLowerCase query))).
    { clear a Hnone. induction query as [|c q IH]; [constructor|].
      simpl in *. apply Forall_cons in Hall as [Hc Hq].
      constructor; [by rewrite to_lower_space | by apply IH]. }
    destruct (Js.toLowerCase query) as [|c q] eqn:Hq; [done|].
    rewrite splitByRegex_no_space by done. simpl. by rewrite str_chars. }
  rewrite Hterms. split; [done|]. split; [done|].
  unfold calculateApiRelevance. cbn [fold_left].
  rewrite addTermScore_termScore. pose proof (termScore_le_22 a (Js.toLowerCase query)).
  lia.
Qed.

(** ** The properties on the example disks *)

(** X1 on the header of AFoo. *)
Lemma extracted_record_invariants_witness :
  ∃ info,
    extractFromContent "/proj/AFoo.h" "AFoo" fooHeader = Some info
    ∧ name info = "AFoo" ∧ file info = "/proj/AFoo.h"
    ∧ line info ≤ length (Js.split LF fooHeader).
Proof.
  destruct (extractFromContent "/proj/AFoo.h" "AFoo" fooHeader)
    as [info|] eqn:H; [|vm_compute in H; discriminate].
  exists info. split; [reflexivity|].
  destruct (extracted_record_invariants _ _ _ _ H) as (Hn & Hf & _ & _ & Hl & _).
  split; [exact Hn|]. split; [exact Hf | exact Hl].
Defined.


(** X4: the project's AFoo hides the engine's. *)
Lemma analyzeClass_custom_root_first_witness :
  ∃ info, result (analyzeClass shadowDisk "AFoo" shadowAnalyzer) = Ok info
          ∧ firstYield shadowDisk "AFoo"
              (fs_glob shadowDisk headerGlob "/proj" headerIgnore)
            = Some info.
Proof.
  destruct (firstYield shadowDisk "AFoo"
              (fs_glob shadowDisk headerGlob "/proj" headerIgnore))
    as [info|] eqn:Hy; [|vm_compute in Hy; discriminate].
  exists info. split; [|reflexivity].
  apply (analyzeClass_custom_root_first shadowDisk "AFoo" "/proj"
           shadowAnalyzer info); try (vm_compute; reflexivity).
  exact Hy.
Defined.

(** X6 on the project. *)
Lemma analyzeClass_record_named_as_requested_witness :
  ∃ info, result (analyzeClass projectDisk "AFoo" projectAnalyzer) = Ok info
          ∧ name info = "AFoo".
Proof.
  destruct (result (analyzeClass projectDisk "AFoo" projectAnalyzer))
    as [info|e|] eqn:H; [|vm_compute in H; discriminate..].
  exists info. split; [reflexivity|].
  assert (Hk : cacheKeyed projectAnalyzer).
  { intros n i Hn.
    assert (Hc : classCache projectAnalyzer = ∅) by (vm_compute; reflexivity).
    rewrite Hc, lookup_empty in Hn. discriminate. }
  destruct (analyzeClass_record_named_as_requested projectDisk "AFoo"
              projectAnalyzer info Hk H) as [Hn _].
  exact Hn.
Defined.

(** X7 on the file that names Spawn four times. *)
Lemma searchCode_entries_point_into_files_witness :
  ∃ results,
    result (searchCode spawnDisk (Regex.lit false "Spawn") None None
              spawnAnalyzer) = Ok results
    ∧ ∀ r, r ∈ results → 1 ≤ refLine r ∧ (1 ≤ refColumn r)%Z.
Proof.
  destruct (result (searchCode spawnDisk (Regex.lit false "Spawn") None None
                      spawnAnalyzer))
    as [results|e|] eqn:H; [|vm_compute in H; discriminate..].
  exists results. split; [reflexivity|]. intros r Hr.
  destruct (searchCode_entries_point_into_files spawnDisk _ _ _ _ _ H r Hr)
    as (c & l & _ & _ & Hl & _ & _ & [Hc _] & _).
  split; [exact Hl | exact Hc].
Defined.


(** X9 on the same file. *)
Lemma searchCode_reports_each_line_once_witness :
  ∃ results,
    result (searchCode spawnDisk (Regex.lit false "Spawn") None None
              spawnAnalyzer) = Ok results
    ∧ NoDup (place <$> results).
Proof.
  destruct (result (searchCode spawnDisk (Regex.lit false "Spawn") None None
                      spawnAnalyzer))
    as [results|e|] eqn:H; [|vm_compute in H; discriminate..].
  exists results. split; [reflexivity|].
  exact (searchCode_reports_each_line_once spawnDisk _ _ _ _ _ H).
Defined.

(** X10 on the second line of a file of four. *)
Lemma context_is_window_around_line_witness :
  1 < length (Js.split LF (Js.join NL spawnLines))
  ∧ Js.split LF (contextAt (Js.split LF (Js.join NL spawnLines)) 1)
    = Js.slice (1 - 2) (1 + 3) (Js.split LF (Js.join NL spawnLines)).
Proof.
  assert (H : 1 < length (Js.split LF (Js.join NL spawnLines)))
    by (vm_compute; lia).
  split; [exact H|].
  destruct (context_is_window_around_line (Js.join NL spawnLines) 1 H)
    as [Hw _].
  exact Hw.
Defined.

(** X11 on the path of an engine header. *)
Lemma module_is_segment_after_Runtime_witness :
  determineModule
    (Js.join "/" ["Engine"; "Source"; "Runtime"; "CoreUObject"; "Object.h"])
  = "CoreUObject".
Proof.
  destruct (module_is_segment_after_Runtime
              ["Engine"; "Source"; "Runtime"; "CoreUObject"; "Object.h"])
    as [H _].
  - discriminate.
  - repeat constructor;
      (intros Hin%list_elem_of_In; vm_compute in Hin; intuition discriminate).
  - apply (H ["Engine"; "Source"] "CoreUObject" ["Object.h"]);
      [reflexivity|].
    intros Hin%list_elem_of_In. vm_compute in Hin. intuition discriminate.
Defined.

(** X13: a second record named UObject gets the entry of the first. *)
Lemma api_entry_is_never_refreshed_witness :
  name objectInfoMoved = name objectInfo
  ∧ result (getOrCreateApiReference objectInfoMoved
              (final (getOrCreateApiReference objectInfo newAnalyzer)))
    = objectEntry.
Proof.
  split; [reflexivity|].
  destruct (api_entry_is_never_refreshed objectInfo objectInfoMoved newAnalyzer
              eq_refl) as (_ & _ & _ & H).
  rewrite H. reflexivity.
Defined.

(** X14 on the project with AFoo cached. *)
Lemma query_results_sorted_filtered_capped_witness :
  initialized cachedAnalyzer = true
  ∧ ∃ results,
      result (queryApiReference map_to_list "foo" noOptions cachedAnalyzer)
      = Ok results
      ∧ length results ≤ 10 ∧ descendingBy relevance results.
Proof.
  assert (Hi : initialized cachedAnalyzer = true) by (vm_compute; reflexivity).
  split; [exact Hi|].
  destruct (query_results_sorted_filtered_capped map_to_list "foo" noOptions
              cachedAnalyzer) as [_ H].
  { intros m k v. apply elem_of_map_to_list. }
  destruct (H Hi) as (results & st' & Hq & _ & _ & _ & Hd & _ & _ & Hten & _).
  exists results. rewrite Hq. split; [reflexivity|].
  split; [apply Hten; by left | exact Hd].
Defined.

(** X15 on the project with AFoo cached. *)
Lemma includeExamples_changes_nothing_witness :
  apiCache cachedAnalyzer = ∅
  ∧ queryApiReference map_to_list "foo" (withExamples (Some true) noOptions)
      cachedAnalyzer
    = queryApiReference map_to_list "foo" noOptions cachedAnalyzer.
Proof.
  assert (Hc : apiCache cachedAnalyzer = ∅) by (vm_compute; reflexivity).
  split; [exact Hc|].
  destruct (includeExamples_changes_nothing map_to_list "foo" noOptions
              (Some true) cachedAnalyzer) as [H _]; [|exact H].
  intros k a Ha. rewrite Hc, lookup_empty in Ha. discriminate.
Defined.

(** X16 on the project with AFoo cached. *)
Lemma empty_query_returns_every_class_witness :
  ∃ results,
    result (queryApiReference map_to_list EmptyString noOptions cachedAnalyzer)
    = Ok results
    ∧ length results
      = Nat.min (Z.to_nat (resultLimit noOptions))
          (size (classCache cachedAnalyzer)).
Proof.
  destruct (empty_query_returns_every_class map_to_list noOptions
              cachedAnalyzer) as (_ & results & st' & Hq & Hlen & _);
    try reflexivity.
  exists results. rewrite Hq. split; [reflexivity | exact Hlen].
Defined.

(** X18 on a constructor that creates a component. *)
Lemma component_hint_iff_window_lacks_root_witness :
  ∃ m, m ∈ detectPatterns componentSource "/proj/AFoo.cpp"
       ∧ Js.includes (matchContext m) "CreateDefaultSubobject" = true.
Proof.
  destruct (detectPatterns componentSource "/proj/AFoo.cpp") as [|m rest] eqn:H;
    [vm_compute in H; discriminate|].
  assert (Hm : m ∈ detectPatterns componentSource "/proj/AFoo.cpp")
    by (rewrite H; apply list_elem_of_here).
  exists m. split; [rewrite <- H; exact Hm|].
  destruct (component_hint_iff_window_lacks_root componentSource
              "/proj/AFoo.cpp" m Hm) as [Hc _]; [|exact Hc].
  vm_compute in H. injection H as <- _. reflexivity.
Defined.


(** X21: a refused engine root leaves the cached AFoo in place, and so
    does an accepted custom root, after which AFoo is answered from the
    cache. *)
Lemma new_root_keeps_cached_classes_witness :
  ∃ info,
    classCache cachedAnalyzer !! "AFoo" = Some info
    ∧ classCache (final (initialize projectDisk "/nowhere" cachedAnalyzer))
      = classCache cachedAnalyzer
    ∧ result (initializeCustomCodebase projectDisk "/proj" cachedAnalyzer)
      = Ok tt
    ∧ analyzeClass projectDisk "AFoo"
        (final (initializeCustomCodebase projectDisk "/proj" cachedAnalyzer))
      = (Ok info,
         final (initializeCustomCodebase projectDisk "/proj" cachedAnalyzer),
         []).
Proof.
  destruct (classCache cachedAnalyzer !! "AFoo") as [info|] eqn:H;
    [|vm_compute in H; discriminate].
  exists info. split; [reflexivity|].
  destruct (new_root_keeps_cached_classes projectDisk "/nowhere" "AFoo" info
              cachedAnalyzer true H) as (_ & Hc & _).
  split; [exact Hc|].
  assert (Hok : result (initializeCustomCodebase projectDisk "/proj"
                          cachedAnalyzer) = Ok tt)
    by (vm_compute; reflexivity).
  split; [exact Hok|].
  destruct (new_root_keeps_cached_classes projectDisk "/proj" "AFoo" info
              cachedAnalyzer false H) as (_ & _ & _ & Hhit).
  exact (Hhit Hok).
Defined.

(** X23 on a session on the project. *)
Lemma reachable_analyzer_well_formed_witness :
  cacheKeyed (afterCalls projectDisk map_to_list projectSession)
  ∧ apiFromCache (afterCalls projectDisk map_to_list projectSession).
Proof.
  destruct (reachable_analyzer_well_formed projectDisk map_to_list
              projectSession) as (_ & _ & _ & Ha & Hk & _).
  { intros m k v. apply elem_of_map_to_list. }
  split; [exact Hk | exact Ha].
Defined.

(** X24 on the project, whose AFoo has a superclass that is not there. *)
Lemma hierarchy_root_cached_children_named_witness :
  ∃ h,
    result (findClassHierarchy projectDisk 3 "AFoo" true projectAnalyzer)
    = Ok h
    ∧ ∃ info,
        classCache (final (findClassHierarchy projectDisk 3 "AFoo" true
                             projectAnalyzer)) !! "AFoo" = Some info
        ∧ hierarchyName h = name info.
Proof.
  destruct (result (findClassHierarchy projectDisk 3 "AFoo" true
                      projectAnalyzer))
    as [h|e|] eqn:H; [|vm_compute in H; discriminate..].
  exists h. split; [reflexivity|].
  destruct (hierarchy_root_cached_children_named projectDisk 3 "AFoo" true
              projectAnalyzer h H) as (_ & _ & _ & info & Hc & Hn & _).
  exists info. split; [exact Hc | exact Hn].
Defined.

(** X26 on a query of one word, and what the hypothesis leaves out: a
    query of two words is two terms. *)
Lemma query_without_space_is_one_term_witness :
  searchTermsOf "Actor" = ["actor"]
  ∧ searchTermsOf "Actor Component" = ["actor"; "component"].
Proof.
  split; [|vm_compute; reflexivity].
  destruct (query_without_space_is_one_term "Actor"
              (apiReferenceOf objectInfo)) as [H _]; [reflexivity| |exact H].
  repeat constructor;
    (intros Hin%list_elem_of_In; vm_compute in Hin; intuition discriminate).
Defined.
